(** * Neo-Mayo / MUSTARD: a shallow embedding of the estimator and its helpers

    The development follows the three Python sources
      - [src/mustard/algo.py]      (module [Algo]),
      - [src/mustard/mustard.py]   (module [Mustard]),
      - [src/neo_mayo/neo_mayo.py] (module [NeoMayo]).
    The modules [AlgoInit], [MustardHelpers], [NeoMayoHelpers] and
    [NeoMayoRun] hold further functions of the same three files.

    Pixel values, angles and losses are real numbers in the program; they are
    embedded as canonical rationals [Qc] (exact arithmetic, Leibniz equality).
    A frame is a list of rows, a cube a list of frames.  Python exceptions are
    an explicit [result] type.  Calls into torch, numpy's transcendental
    functions, vip_hci and the absent [mustard.model] module are taken as
    parameters of the functions that use them. *)

From Stdlib Require Import String Ascii ZArith QArith Qcanon Qround Qabs Bool Lia Lqa List.
Import ListNotations.

Set Implicit Arguments.

(** ** Python values shared by the three modules *)

Module Py.

Inductive exn : Type :=
| ValueError (msg : string)
| TypeError (msg : string)
| IndexError (msg : string)
| AttributeError (msg : string)
| ZeroDivisionError (msg : string)
| Exception (msg : string).

Inductive result (A : Type) : Type :=
| Ok (a : A)
| Raise (e : exn).
Arguments Ok {A} a.
Arguments Raise {A} e.

Definition raises {A} (r : result A) : Prop :=
  match r with Ok _ => False | Raise _ => True end.

Definition bind {A B} (r : result A) (k : A -> result B) : result B :=
  match r with Ok a => k a | Raise e => Raise e end.

(** Exact scalars. *)
Definition ofZ (z : Z) : Qc := Q2Qc (inject_Z z).
Definition frac (a : Z) (b : positive) : Qc := Q2Qc (a # b).

Definition ltb (x y : Qc) : bool :=
  match (x ?= y)%Qc with Lt => true | _ => false end.
Definition gtb (x y : Qc) : bool := ltb y x.
Definition eqb (x y : Qc) : bool :=
  match (x ?= y)%Qc with Eq => true | _ => false end.
Definition leb (x y : Qc) : bool := negb (ltb y x).

Definition abs (x : Qc) : Qc := if ltb x 0%Qc then (- x)%Qc else x.
Definition floor (x : Qc) : Z := Qfloor x.

(** Python's [x % m] on reals, for a positive [m]: the result has the sign
    of the divisor. *)
Definition pymod (x m : Qc) : Qc := (x - m * ofZ (floor (x / m)))%Qc.

(** [numpy.rint]: round to the nearest integer, ties to the even one. *)
Definition rint (x : Qc) : Z :=
  let f := floor x in
  let r := (x - ofZ f)%Qc in
  if ltb r (frac 1 2) then f
  else if ltb (frac 1 2) r then (f + 1)%Z
  else if Z.even f then f else (f + 1)%Z.

(** A float as the control flow sees it: a finite value or NaN.  Every
    ordered comparison with NaN is false. *)
Inductive fval : Type :=
| Fin (q : Qc)
| NaN.

Definition isnan (x : fval) : bool :=
  match x with NaN => true | Fin _ => false end.
Definition fgt (x y : fval) : bool :=
  match x, y with Fin a, Fin b => gtb a b | _, _ => false end.
Definition flt (x y : fval) : bool := fgt y x.
Definition fadd (x y : fval) : fval :=
  match x, y with Fin a, Fin b => Fin (a + b)%Qc | _, _ => NaN end.
Definition fsub (x y : fval) : fval :=
  match x, y with Fin a, Fin b => Fin (a - b)%Qc | _, _ => NaN end.
Definition fmul (x y : fval) : fval :=
  match x, y with Fin a, Fin b => Fin (a * b)%Qc | _, _ => NaN end.
(** Tensor division: [0/0] is NaN; a non-zero value over zero is infinite,
    which the embedding also folds into [NaN] (it is never compared). *)
Definition fdiv (x y : fval) : fval :=
  match x, y with
  | Fin a, Fin b => if eqb b 0%Qc then NaN else Fin (a / b)%Qc
  | _, _ => NaN
  end.
(** Truthiness of a number: zero is falsy, NaN is truthy. *)
Definition truthy (x : fval) : bool :=
  match x with Fin a => negb (eqb a 0%Qc) | NaN => true end.

End Py.
Import Py.

(** ** Frames and cubes *)

Module Tensor.

Definition frame : Type := list (list Qc).
Definition cube : Type := list frame.

Definition mapi {A B} (f : Z -> A -> B) (l : list A) : list B :=
  map (fun p => f (Z.of_nat (fst p)) (snd p)) (combine (seq 0 (List.length l)) l).

(** Zero-padded read, as seen by a convolution with [padding='same']. *)
Definition pix (t : frame) (i j : Z) : Qc :=
  if ((i <? 0) || (j <? 0))%Z then 0%Qc
  else nth (Z.to_nat j) (nth (Z.to_nat i) t []) 0%Qc.

Definition qsum (l : list Qc) : Qc := fold_right Qcplus 0%Qc l.

(** [torch.sum] over a frame. *)
Definition tsum (t : frame) : Qc := qsum (map qsum t).

Definition map2 {A B C} (f : A -> B -> C) (l : list A) (l' : list B) : list C :=
  map (fun p => f (fst p) (snd p)) (combine l l').

Definition fmap (f : Qc -> Qc) (t : frame) : frame := map (map f) t.
Definition fmap2 (f : Qc -> Qc -> Qc) (t u : frame) : frame :=
  map2 (map2 f) t u.

Definition height (t : frame) : nat := List.length t.
Definition width (t : frame) : nat := List.length (hd [] t).
Definition shape (t : frame) : nat * nat := (height t, width t).

Definition zeros (h w : nat) : frame := repeat (repeat 0%Qc w) h.

End Tensor.
Import Tensor.

(** ** algo.py *)

Module Algo.

Definition of_ints (k : list (list Z)) : frame := map (map ofZ) k.

(** [torch.nn.functional.conv2d(_, kernel, padding='same')] on one channel:
    a cross-correlation of the zero-padded frame with the kernel. *)
Definition conv2d_same (t kernel : frame) : frame :=
  let p := ((Z.of_nat (List.length kernel) - 1) / 2)%Z in
  mapi (fun i row =>
    mapi (fun j _ =>
      qsum (mapi (fun u krow =>
        qsum (mapi (fun v kv => (kv * pix t (i + u - p) (j + v - p))%Qc) krow))
        kernel)) row) t.

Definition kernel3 : frame := of_ints
  [[-1; -1; -1];
   [-1;  8; -1];
   [-1; -1; -1]]%Z.
Definition kernel5 : frame := of_ints
  [[-4; -1; 0; -1; -4];
   [-1;  2; 3;  2; -1];
   [ 0;  3; 4;  3;  0];
   [-1;  2; 3;  2; -1];
   [-4; -1; 0; -1; -4]]%Z.
Definition kernel7 : frame := of_ints
  [[-10; -5; -2; -1; -2; -5; -10];
   [ -5;  0;  3;  4;  3;  0;  -5];
   [ -2;  3;  6;  7;  6;  3;  -2];
   [ -1;  4;  7;  8;  7;  4;  -1];
   [ -2;  3;  6;  7;  6;  3;  -2];
   [ -5;  0;  3;  4;  3;  0;  -5];
   [-10; -5; -2; -1; -2; -5; -10]]%Z.

Definition laplacian_tensor_conv (tensor : frame) (kernel_size : Z) : result frame :=
  if (kernel_size =? 3)%Z then Ok (conv2d_same tensor kernel3)
  else if (kernel_size =? 5)%Z then Ok (conv2d_same tensor kernel5)
  else if (kernel_size =? 7)%Z then Ok (conv2d_same tensor kernel7)
  else Raise (ValueError "Kernel size must be either 3, 5 or 7.").

Definition gauss3 : frame := of_ints
  [[1; 2; 1];
   [2; 4; 2];
   [1; 2; 1]]%Z.
Definition gauss5 : frame := of_ints
  [[1;  4;  6;  4; 1];
   [4; 18; 30; 18; 4];
   [6; 30; 48; 30; 6];
   [4; 18; 30; 18; 4];
   [1;  4;  6;  4; 1]]%Z.

Definition gaussian_tensor_conv (tensor : frame) (k_size : Z) : result frame :=
  if (k_size =? 3)%Z then Ok (conv2d_same tensor gauss3)
  else if (k_size =? 5)%Z then Ok (conv2d_same tensor gauss5)
  else Raise (ValueError "Kernel size can be {3,5}").

Definition sobel_y : frame := of_ints
  [[1; 0; -1];
   [2; 0; -2];
   [1; 0; -1]]%Z.
Definition sobel_x : frame := of_ints
  [[ 1;  2;  1];
   [ 0;  0;  0];
   [-1; -2; -1]]%Z.

Definition sobel_tensor_conv (tensor : frame) (axis : string) : result frame :=
  if (axis =? "y")%string then Ok (conv2d_same tensor sobel_y)
  else if (axis =? "x")%string then Ok (conv2d_same tensor sobel_x)
  else Raise (ValueError "'Axis' parameters should be 'x' or 'y'").

(** *** The angle reduction at the head of [tensor_rotate_fft] *)

(** [while angle < 0: angle += 360] *)
Fixpoint wrap_up (fuel : nat) (angle : Qc) : Qc :=
  match fuel with
  | O => angle
  | S fuel' =>
      if ltb angle 0%Qc then wrap_up fuel' (angle + ofZ 360)%Qc else angle
  end.

(** [while angle > 360: angle -= 360] *)
Fixpoint wrap_down (fuel : nat) (angle : Qc) : Qc :=
  match fuel with
  | O => angle
  | S fuel' =>
      if gtb angle (ofZ 360) then wrap_down fuel' (angle - ofZ 360)%Qc else angle
  end.

(** Number of passes either loop can need. *)
Definition turns (angle : Qc) : nat :=
  S (Z.to_nat (floor (abs angle / ofZ 360)%Qc)).

Definition wrap_angle (angle : Qc) : Qc :=
  wrap_down (turns angle) (wrap_up (turns angle) angle).

(** The quarter-turn count handed to [torch.rot90] and the residual angle
    handed to the three shears.  The [else] branch clones the tensor, that
    is, it makes no quarter turn. *)
Definition reduce_angle (angle : Qc) : Z * Qc :=
  if gtb angle (ofZ 45) then
    let dangle := pymod angle (ofZ 90) in
    let dangle := if gtb dangle (ofZ 45) then (- (ofZ 90 - dangle))%Qc else dangle in
    let nangle := rint (angle / ofZ 90)%Qc in
    (nangle, dangle)
  else (0%Z, angle).

Definition angle_reduction (angle : Qc) : Z * Qc :=
  reduce_angle (wrap_angle angle).

(** *** [tensor_rotate_fft] and [tensor_fft_shear] *)

(** The complex values torch holds between the forward and the inverse
    transform. *)
Record cplx : Type := { re : Qc; im : Qc }.

Definition cone : cplx := {| re := 1%Qc; im := 0%Qc |}.
Definition czero : cplx := {| re := 0%Qc; im := 0%Qc |}.
Definition of_real (x : Qc) : cplx := {| re := x; im := 0%Qc |}.
Definition cadd (a b : cplx) : cplx :=
  {| re := (re a + re b)%Qc; im := (im a + im b)%Qc |}.
Definition csub (a b : cplx) : cplx :=
  {| re := (re a - re b)%Qc; im := (im a - im b)%Qc |}.
Definition cmul (a b : cplx) : cplx :=
  {| re := (re a * re b - im a * im b)%Qc; im := (re a * im b + im a * re b)%Qc |}.
Definition cscale (k : Qc) (a : cplx) : cplx :=
  {| re := (k * re a)%Qc; im := (k * im a)%Qc |}.

Definition cframe : Type := list (list cplx).

(** What the rotation takes from torch, numpy and vip_hci: the transform of
    one line and its inverse, [t |-> exp(-2j*pi*t)],
    [d |-> np.tan(np.deg2rad(d) / 2)], [d |-> -np.sin(np.deg2rad(d))] and
    [frame_center], which answers [(cy, cx)]. *)
Record fourier : Type := {
  fft : list cplx -> list cplx;
  ifft : list cplx -> list cplx;
  expm2ipi : Qc -> cplx;
  tan_half_deg : Qc -> Qc;
  neg_sin_deg : Qc -> Qc;
  frame_center : frame -> Qc * Qc
}.

(** [fftshift] along one axis rolls it by [n // 2]. *)
Definition fftshift1 {A} (l : list A) : list A :=
  let n := List.length l in
  skipn (n - n / 2) l ++ firstn (n - n / 2) l.

(** [tf.fftshift] without [dim] shifts every axis; the leading axis of the
    [1 x H x W] tensor has a single entry. *)
Definition fftshift {A} (m : list (list A)) : list (list A) :=
  fftshift1 (map fftshift1 m).

Definition transpose {A} (d : A) (m : list (list A)) : list (list A) :=
  map (fun j => map (fun row => nth j row d) m) (seq 0 (List.length (hd [] m))).

(** A transform of every line along [dim = ax]: the rows for [ax = 2], the
    columns for [ax = 1]. *)
Definition along (ax : Z) (f : list cplx -> list cplx) (m : cframe) : cframe :=
  if (ax =? 2)%Z then map f m
  else transpose czero (map f (transpose czero m)).

(** [tf.fftfreq(n)] *)
Definition fftfreq (n : nat) : list Qc :=
  map (fun i => if (i <=? (n - 1) / 2)%nat
                then (ofZ (Z.of_nat i) / ofZ (Z.of_nat n))%Qc
                else (ofZ (Z.of_nat i - Z.of_nat n) / ofZ (Z.of_nat n))%Qc)
      (seq 0 n).

Definition tensor_fft_shear (F : fourier) (arr : cframe) (arr_ori : frame) (c : Qc)
    (ax : Z) : cframe :=
  let ax2 := (1 - (ax - 1) mod 2)%Z in
  let shape_ori k := if (k =? 0)%Z then height arr_ori else width arr_ori in
  let freqs := fftfreq (shape_ori ax2) in
  let sh_freqs := fftshift1 freqs in
  let arr_u := repeat sh_freqs (shape_ori (ax - 1)%Z) in
  let arr_u := if (ax =? 2)%Z then transpose 0%Qc arr_u else arr_u in
  let s_x := fftshift arr in
  let s_x := along ax (fft F) s_x in
  let s_x := fftshift s_x in
  let s_x := mapi (fun i row =>
               mapi (fun j z =>
                 cmul (expm2ipi F (c * pix arr_u i j * pix arr_ori i j)%Qc) z) row) s_x in
  let s_x := fftshift s_x in
  let s_x := along ax (ifft F) s_x in
  fftshift s_x.

(** [torch.rot90(tensor, k, [1, 2])] *)
Definition rot90 (t : frame) (k : Z) : frame :=
  match (k mod 4)%Z with
  | 0%Z => t
  | 1%Z => transpose 0%Qc (map (@rev Qc) t)
  | 2%Z => rev (map (@rev Qc) t)
  | _ => transpose 0%Qc (rev t)
  end.

(** [tensor_in[:, :-1, :-1]] *)
Definition crop_last {A} (t : list (list A)) : list (list A) :=
  map (@removelast A) (removelast t).

(** [np.mgrid[0:y_new, 0:x_new]] minus the centre. *)
Definition grid (h w : nat) (f : Z -> Z -> Qc) : frame :=
  map (fun i => map (fun j => f (Z.of_nat i) (Z.of_nat j)) (seq 0 w)) (seq 0 h).

Definition tensor_rotate_fft (F : fourier) (tensor : frame) (angle : Qc) : frame :=
  let y_ori := height tensor in
  let x_ori := width tensor in
  let angle := wrap_angle angle in
  let nangle := fst (reduce_angle angle) in
  let dangle := snd (reduce_angle angle) in
  let tensor_in := if gtb angle (ofZ 45) then rot90 tensor nangle else tensor in
  let odd := Nat.odd y_ori || Nat.odd x_ori in
  let tensor_in := if odd then crop_last tensor_in else tensor_in in
  let a := tan_half_deg F dangle in
  let b := neg_sin_deg F dangle in
  let y_new := height tensor_in in
  let x_new := width tensor_in in
  let cy := fst (frame_center F tensor) in
  let cx := snd (frame_center F tensor) in
  let arr_y := grid y_new x_new (fun i _ => (ofZ i - cy)%Qc) in
  let arr_x := grid y_new x_new (fun _ j => (ofZ j - cx)%Qc) in
  let s_x := tensor_fft_shear F (map (map of_real) tensor_in) arr_x a 2 in
  let s_xy := tensor_fft_shear F s_x arr_y b 1 in
  let s_xyx := tensor_fft_shear F s_xy arr_x a 2 in
  let real := map (map re) s_xyx in
  if odd then
    map (fun row => row ++ [0%Qc]) real ++ [repeat 0%Qc (width real + 1)]
  else real.

End Algo.

(** ** The numpy and string helpers the estimators rely on *)

Module Np.

Definition qmin (x y : Qc) : Qc := if ltb y x then y else x.
Definition qmax (x y : Qc) : Qc := if ltb x y then y else x.

Fixpoint insert_sorted (x : Qc) (l : list Qc) : list Qc :=
  match l with
  | [] => [x]
  | y :: l' => if leb x y then x :: l else y :: insert_sorted x l'
  end.

Definition sort (l : list Qc) : list Qc := fold_right insert_sorted [] l.

(** [numpy.median] of a flat array: NaN on an empty one, the middle value of
    the sorted array, or the mean of the two middle values. *)
Definition median (l : list Qc) : fval :=
  let s := sort l in
  let n := List.length s in
  match n with
  | O => NaN
  | _ =>
      if Nat.odd n then Fin (nth (n / 2) s 0%Qc)
      else Fin ((nth (n / 2 - 1) s 0%Qc + nth (n / 2) s 0%Qc) / ofZ 2)%Qc
  end.

Definition finite_or (d : Qc) (x : fval) : Qc :=
  match x with Fin q => q | NaN => d end.

Definition mean (l : list Qc) : fval :=
  fdiv (Fin (qsum l)) (Fin (ofZ (Z.of_nat (List.length l)))).

Definition flatten (t : frame) : list Qc := concat t.

(** The values of one pixel along the frame axis of a cube. *)
Definition along0 (c : cube) (i j : Z) : list Qc := map (fun f => pix f i j) c.

(** A reduction along axis 0; the result has the shape of the first frame. *)
Definition reduce0 (r : list Qc -> Qc) (c : cube) : frame :=
  mapi (fun i row => mapi (fun j _ => r (along0 c i j)) row) (hd [] c).

Definition min_list (l : list Qc) : Qc :=
  match l with [] => 0%Qc | x :: l' => fold_left qmin l' x end.

Definition max_list (l : list Qc) : Qc :=
  match l with [] => 0%Qc | x :: l' => fold_left qmax l' x end.

(** [np.min(c, 0)], [np.median(c, 0)], [np.mean(c, 0)] on a cube that has at
    least one frame, which [science_data[0]] in the constructors ensures. *)
Definition amin0 (c : cube) : frame := reduce0 min_list c.
Definition median0 (c : cube) : frame := reduce0 (fun l => finite_or 0%Qc (median l)) c.
Definition mean0 (c : cube) : frame := reduce0 (fun l => finite_or 0%Qc (mean l)) c.

(** [a.clip(min=0)] and [a.clip(0)] *)
Definition clip0 (t : frame) : frame := fmap (qmax 0%Qc) t.

(** [np.tile(f, (n, 1, 1))] *)
Definition tile (f : frame) (n : nat) : cube := repeat f n.

Definition fsub_frame (t u : frame) : frame := fmap2 Qcminus t u.
Definition fadd_frame (t u : frame) : frame := fmap2 Qcplus t u.
Definition fmul_frame (t u : frame) : frame := fmap2 Qcmult t u.
Definition csub (c d : cube) : cube := map2 fsub_frame c d.

(** [np.linspace(0, 360, 50)] *)
Definition linspace_0_360_50 : list Qc :=
  map (fun i => (ofZ (Z.of_nat i) * ofZ 360 / ofZ 49)%Qc) (seq 0 50).

(** [np.delete(a, idx, 0)]: an index outside the array is an [IndexError]. *)
Definition delete {A} (a : list A) (idx : list nat) : result (list A) :=
  if forallb (fun i => Nat.ltb i (List.length a)) idx then
    Ok (map snd (filter (fun p => negb (existsb (Nat.eqb (fst p)) idx))
                        (combine (seq 0 (List.length a)) a)))
  else Raise (IndexError "index is out of bounds for axis 0").

(** [a[i]] on a Python sequence: a negative index counts from the end. *)
Definition getitem (a : list Qc) (i : Z) : Qc :=
  let n := Z.of_nat (List.length a) in
  if (i <? 0)%Z then nth (Z.to_nat (n + i)) a 0%Qc else nth (Z.to_nat i) a 0%Qc.

(** [str.capitalize] on ASCII text. *)
Definition upper (c : Ascii.ascii) : Ascii.ascii :=
  let n := Ascii.nat_of_ascii c in
  if (Nat.leb 97 n && Nat.leb n 122)%bool then Ascii.ascii_of_nat (n - 32) else c.
Definition lower (c : Ascii.ascii) : Ascii.ascii :=
  let n := Ascii.nat_of_ascii c in
  if (Nat.leb 65 n && Nat.leb n 90)%bool then Ascii.ascii_of_nat (n + 32) else c.
Fixpoint lower_all (s : string) : string :=
  match s with
  | EmptyString => EmptyString
  | String c s' => String (lower c) (lower_all s')
  end.
Definition capitalize (s : string) : string :=
  match s with
  | EmptyString => EmptyString
  | String c s' => String (upper c) (lower_all s')
  end.

Definition str_in (s : string) (l : list string) : bool :=
  existsb (String.eqb s) l.

End Np.

(** ** mustard.py *)

Module Mustard.
Import Np.

(** The trainable variables [Lk, Xk, flux_k, fluxR_k]. *)
Record vars : Type := { Lk : frame; Xk : frame; flux_k : list Qc; fluxR_k : list Qc }.

(** What [self.last_iter] holds: a 4-tuple when [estimI] is truthy, a pair
    otherwise. *)
Inductive snapshot : Type :=
| Snap4 (L X : frame) (flux fluxR : list Qc)
| Snap2 (L X : frame).

Definition snap_L (s : snapshot) : frame :=
  match s with Snap4 L _ _ _ => L | Snap2 L _ => L end.
Definition snap_X (s : snapshot) : frame :=
  match s with Snap4 _ X _ _ => X | Snap2 _ X => X end.

(** Modelled from the spec: [mustard.model.model_ADI] is not among the
    sources.  The forward model "stores the rotation-angle list and the two
    masks at construction" and "exposes a frame-shape property and a frame
    count"; its constructor receives the angles, the coronagraph mask and
    the PSF, never the cube. *)
Record model_ADI : Type := {
  rot_angles : list Qc;
  model_coro : frame;
  model_psf : option frame
}.
Definition model_nb_frame (m : model_ADI) : nat := List.length (rot_angles m).
Definition frame_shape (m : model_ADI) : nat * nat := Tensor.shape (model_coro m).

(** What one [optimizer.step(closure)] leaves in the variables the closure
    shares with [estimate]: the updated unknowns, [loss], [Rpos] and the mean
    absolute gradients of [Xk] and [Lk]. *)
Record step_out : Type := {
  out_vars : vars;
  out_loss : fval;
  out_Rpos : fval;
  out_gradX : fval;
  out_gradL : fval
}.

(** The variables the closure reads besides the unknowns. *)
Record closure_env : Type := { env_Ractiv : bool; env_w_r : fval; env_w_r2 : fval }.

(** Collaborators that are not part of the sources: vip_hci, torch and the
    absent [mustard.utils] and [mustard.model].  [torch] is the state of the
    optimizer. *)
Record externals (torch : Type) : Type := {
  circle : nat * nat -> Qc -> frame;
  convert_to_mask : frame -> frame;
  cube_derotate : cube -> list Qc -> bool -> cube;
  frame_rotate : frame -> Qc -> frame;
  tlog : Qc -> fval;
  forward : model_ADI -> vars -> cube;
  forward_ADI_reverse : model_ADI -> vars -> cube;
  lbfgs_new : torch -> string -> torch;
  lbfgs_step : torch -> closure_env -> vars -> torch * step_out
}.

(** The value [self.mask] holds: the integer 1 until [configR2] stores a
    tensor. *)
Inductive maskv : Type :=
| Scalar (q : Qc)
| Tens (f : frame).

(** [self.smooth], one lambda per accepted mode. *)
Inductive smooth_mode : Type :=
| SmoothWithEdges (epsi : Qc)
| Smooth
| PeakPreservation
| L1.

(** [self.regul]: [smooth(X) + p_L * smooth(L)] or [smooth(X)]. *)
Inductive regul_mode : Type :=
| RegulXL
| RegulX.

Definition regul2_fn : Type := frame -> frame -> maskv -> fval.

Record result_dict : Type := {
  res_x : frame * frame;
  res_x_no_r : frame * frame;
  res_flux : list Qc;
  res_fluxR : list Qc;
  res_loss_evo : list fval;
  res_Kactiv : Z;
  res_ending : string
}.

Record estimator : Type := {
  shape : nat * nat;
  nb_frame : nat;
  L0x0 : option (frame * frame);
  mask : maskv;
  name : string;
  coro : frame;
  coroR : frame;
  halo_fit_mask : frame;
  ang_shift : Qc;
  science_data : cube;
  model : model_ADI;
  ang_weight : list Qc;
  config : list (option string);
  smooth : option smooth_mode;
  p_L : Qc;
  regul : option regul_mode;
  regul2 : option regul2_fn;
  res : option result_dict;
  last_iter : option snapshot;
  first_iter : option snapshot;
  final_estim : option snapshot;
  ambiguities : option frame;
  speckles : option frame;
  science_data_ori : option cube;
  stellar_halo : option frame
}.

Definition set_L0x0 (v : option (frame * frame)) (self : estimator) : estimator :=
  {| shape := shape self; nb_frame := nb_frame self; L0x0 := v; mask := mask self;
     name := name self; coro := coro self; coroR := coroR self;
     halo_fit_mask := halo_fit_mask self; ang_shift := ang_shift self;
     science_data := science_data self; model := model self;
     ang_weight := ang_weight self; config := config self; smooth := smooth self;
     p_L := p_L self; regul := regul self; regul2 := regul2 self; res := res self;
     last_iter := last_iter self; first_iter := first_iter self;
     final_estim := final_estim self; ambiguities := ambiguities self;
     speckles := speckles self; science_data_ori := science_data_ori self;
     stellar_halo := stellar_halo self |}.
Definition set_mask (v : maskv) (self : estimator) : estimator :=
  {| shape := shape self; nb_frame := nb_frame self; L0x0 := L0x0 self; mask := v;
     name := name self; coro := coro self; coroR := coroR self;
     halo_fit_mask := halo_fit_mask self; ang_shift := ang_shift self;
     science_data := science_data self; model := model self;
     ang_weight := ang_weight self; config := config self; smooth := smooth self;
     p_L := p_L self; regul := regul self; regul2 := regul2 self; res := res self;
     last_iter := last_iter self; first_iter := first_iter self;
     final_estim := final_estim self; ambiguities := ambiguities self;
     speckles := speckles self; science_data_ori := science_data_ori self;
     stellar_halo := stellar_halo self |}.
Definition set_name (v : string) (self : estimator) : estimator :=
  {| shape := shape self; nb_frame := nb_frame self; L0x0 := L0x0 self;
     mask := mask self; name := v; coro := coro self; coroR := coroR self;
     halo_fit_mask := halo_fit_mask self; ang_shift := ang_shift self;
     science_data := science_data self; model := model self;
     ang_weight := ang_weight self; config := config self; smooth := smooth self;
     p_L := p_L self; regul := regul self; regul2 := regul2 self; res := res self;
     last_iter := last_iter self; first_iter := first_iter self;
     final_estim := final_estim self; ambiguities := ambiguities self;
     speckles := speckles self; science_data_ori := science_data_ori self;
     stellar_halo := stellar_halo self |}.
Definition set_science_data (v : cube) (self : estimator) : estimator :=
  {| shape := shape self; nb_frame := nb_frame self; L0x0 := L0x0 self;
     mask := mask self; name := name self; coro := coro self; coroR := coroR self;
     halo_fit_mask := halo_fit_mask self; ang_shift := ang_shift self;
     science_data := v; model := model self; ang_weight := ang_weight self;
     config := config self; smooth := smooth self; p_L := p_L self;
     regul := regul self; regul2 := regul2 self; res := res self;
     last_iter := last_iter self; first_iter := first_iter self;
     final_estim := final_estim self; ambiguities := ambiguities self;
     speckles := speckles self; science_data_ori := science_data_ori self;
     stellar_halo := stellar_halo self |}.
Definition set_ang_weight (v : list Qc) (self : estimator) : estimator :=
  {| shape := shape self; nb_frame := nb_frame self; L0x0 := L0x0 self;
     mask := mask self; name := name self; coro := coro self; coroR := coroR self;
     halo_fit_mask := halo_fit_mask self; ang_shift := ang_shift self;
     science_data := science_data self; model := model self; ang_weight := v;
     config := config self; smooth := smooth self; p_L := p_L self;
     regul := regul self; regul2 := regul2 self; res := res self;
     last_iter := last_iter self; first_iter := first_iter self;
     final_estim := final_estim self; ambiguities := ambiguities self;
     speckles := speckles self; science_data_ori := science_data_ori self;
     stellar_halo := stellar_halo self |}.
Definition set_config (v : list (option string)) (self : estimator) : estimator :=
  {| shape := shape self; nb_frame := nb_frame self; L0x0 := L0x0 self;
     mask := mask self; name := name self; coro := coro self; coroR := coroR self;
     halo_fit_mask := halo_fit_mask self; ang_shift := ang_shift self;
     science_data := science_data self; model := model self;
     ang_weight := ang_weight self; config := v; smooth := smooth self;
     p_L := p_L self; regul := regul self; regul2 := regul2 self; res := res self;
     last_iter := last_iter self; first_iter := first_iter self;
     final_estim := final_estim self; ambiguities := ambiguities self;
     speckles := speckles self; science_data_ori := science_data_ori self;
     stellar_halo := stellar_halo self |}.
Definition set_smooth (v : option smooth_mode) (self : estimator) : estimator :=
  {| shape := shape self; nb_frame := nb_frame self; L0x0 := L0x0 self;
     mask := mask self; name := name self; coro := coro self; coroR := coroR self;
     halo_fit_mask := halo_fit_mask self; ang_shift := ang_shift self;
     science_data := science_data self; model := model self;
     ang_weight := ang_weight self; config := config self; smooth := v;
     p_L := p_L self; regul := regul self; regul2 := regul2 self; res := res self;
     last_iter := last_iter self; first_iter := first_iter self;
     final_estim := final_estim self; ambiguities := ambiguities self;
     speckles := speckles self; science_data_ori := science_data_ori self;
     stellar_halo := stellar_halo self |}.
Definition set_p_L (v : Qc) (self : estimator) : estimator :=
  {| shape := shape self; nb_frame := nb_frame self; L0x0 := L0x0 self;
     mask := mask self; name := name self; coro := coro self; coroR := coroR self;
     halo_fit_mask := halo_fit_mask self; ang_shift := ang_shift self;
     science_data := science_data self; model := model self;
     ang_weight := ang_weight self; config := config self; smooth := smooth self;
     p_L := v; regul := regul self; regul2 := regul2 self; res := res self;
     last_iter := last_iter self; first_iter := first_iter self;
     final_estim := final_estim self; ambiguities := ambiguities self;
     speckles := speckles self; science_data_ori := science_data_ori self;
     stellar_halo := stellar_halo self |}.
Definition set_regul (v : option regul_mode) (self : estimator) : estimator :=
  {| shape := shape self; nb_frame := nb_frame self; L0x0 := L0x0 self;
     mask := mask self; name := name self; coro := coro self; coroR := coroR self;
     halo_fit_mask := halo_fit_mask self; ang_shift := ang_shift self;
     science_data := science_data self; model := model self;
     ang_weight := ang_weight self; config := config self; smooth := smooth self;
     p_L := p_L self; regul := v; regul2 := regul2 self; res := res self;
     last_iter := last_iter self; first_iter := first_iter self;
     final_estim := final_estim self; ambiguities := ambiguities self;
     speckles := speckles self; science_data_ori := science_data_ori self;
     stellar_halo := stellar_halo self |}.
Definition set_regul2 (v : option regul2_fn) (self : estimator) : estimator :=
  {| shape := shape self; nb_frame := nb_frame self; L0x0 := L0x0 self;
     mask := mask self; name := name self; coro := coro self; coroR := coroR self;
     halo_fit_mask := halo_fit_mask self; ang_shift := ang_shift self;
     science_data := science_data self; model := model self;
     ang_weight := ang_weight self; config := config self; smooth := smooth self;
     p_L := p_L self; regul := regul self; regul2 := v; res := res self;
     last_iter := last_iter self; first_iter := first_iter self;
     final_estim := final_estim self; ambiguities := ambiguities self;
     speckles := speckles self; science_data_ori := science_data_ori self;
     stellar_halo := stellar_halo self |}.
Definition set_res (v : option result_dict) (self : estimator) : estimator :=
  {| shape := shape self; nb_frame := nb_frame self; L0x0 := L0x0 self;
     mask := mask self; name := name self; coro := coro self; coroR := coroR self;
     halo_fit_mask := halo_fit_mask self; ang_shift := ang_shift self;
     science_data := science_data self; model := model self;
     ang_weight := ang_weight self; config := config self; smooth := smooth self;
     p_L := p_L self; regul := regul self; regul2 := regul2 self; res := v;
     last_iter := last_iter self; first_iter := first_iter self;
     final_estim := final_estim self; ambiguities := ambiguities self;
     speckles := speckles self; science_data_ori := science_data_ori self;
     stellar_halo := stellar_halo self |}.
Definition set_last_iter (v : option snapshot) (self : estimator) : estimator :=
  {| shape := shape self; nb_frame := nb_frame self; L0x0 := L0x0 self;
     mask := mask self; name := name self; coro := coro self; coroR := coroR self;
     halo_fit_mask := halo_fit_mask self; ang_shift := ang_shift self;
     science_data := science_data self; model := model self;
     ang_weight := ang_weight self; config := config self; smooth := smooth self;
     p_L := p_L self; regul := regul self; regul2 := regul2 self; res := res self;
     last_iter := v; first_iter := first_iter self;
     final_estim := final_estim self; ambiguities := ambiguities self;
     speckles := speckles self; science_data_ori := science_data_ori self;
     stellar_halo := stellar_halo self |}.
Definition set_first_iter (v : option snapshot) (self : estimator) : estimator :=
  {| shape := shape self; nb_frame := nb_frame self; L0x0 := L0x0 self;
     mask := mask self; name := name self; coro := coro self; coroR := coroR self;
     halo_fit_mask := halo_fit_mask self; ang_shift := ang_shift self;
     science_data := science_data self; model := model self;
     ang_weight := ang_weight self; config := config self; smooth := smooth self;
     p_L := p_L self; regul := regul self; regul2 := regul2 self; res := res self;
     last_iter := last_iter self; first_iter := v; final_estim := final_estim self;
     ambiguities := ambiguities self; speckles := speckles self;
     science_data_ori := science_data_ori self;
     stellar_halo := stellar_halo self |}.
Definition set_final_estim (v : option snapshot) (self : estimator) : estimator :=
  {| shape := shape self; nb_frame := nb_frame self; L0x0 := L0x0 self;
     mask := mask self; name := name self; coro := coro self; coroR := coroR self;
     halo_fit_mask := halo_fit_mask self; ang_shift := ang_shift self;
     science_data := science_data self; model := model self;
     ang_weight := ang_weight self; config := config self; smooth := smooth self;
     p_L := p_L self; regul := regul self; regul2 := regul2 self; res := res self;
     last_iter := last_iter self; first_iter := first_iter self; final_estim := v;
     ambiguities := ambiguities self; speckles := speckles self;
     science_data_ori := science_data_ori self;
     stellar_halo := stellar_halo self |}.
Definition set_ambiguities (v : option frame) (self : estimator) : estimator :=
  {| shape := shape self; nb_frame := nb_frame self; L0x0 := L0x0 self;
     mask := mask self; name := name self; coro := coro self; coroR := coroR self;
     halo_fit_mask := halo_fit_mask self; ang_shift := ang_shift self;
     science_data := science_data self; model := model self;
     ang_weight := ang_weight self; config := config self; smooth := smooth self;
     p_L := p_L self; regul := regul self; regul2 := regul2 self; res := res self;
     last_iter := last_iter self; first_iter := first_iter self;
     final_estim := final_estim self; ambiguities := v; speckles := speckles self;
     science_data_ori := science_data_ori self;
     stellar_halo := stellar_halo self |}.
Definition set_speckles (v : option frame) (self : estimator) : estimator :=
  {| shape := shape self; nb_frame := nb_frame self; L0x0 := L0x0 self;
     mask := mask self; name := name self; coro := coro self; coroR := coroR self;
     halo_fit_mask := halo_fit_mask self; ang_shift := ang_shift self;
     science_data := science_data self; model := model self;
     ang_weight := ang_weight self; config := config self; smooth := smooth self;
     p_L := p_L self; regul := regul self; regul2 := regul2 self; res := res self;
     last_iter := last_iter self; first_iter := first_iter self;
     final_estim := final_estim self; ambiguities := ambiguities self;
     speckles := v; science_data_ori := science_data_ori self;
     stellar_halo := stellar_halo self |}.
Definition set_science_data_ori (v : option cube) (self : estimator) : estimator :=
  {| shape := shape self; nb_frame := nb_frame self; L0x0 := L0x0 self;
     mask := mask self; name := name self; coro := coro self; coroR := coroR self;
     halo_fit_mask := halo_fit_mask self; ang_shift := ang_shift self;
     science_data := science_data self; model := model self;
     ang_weight := ang_weight self; config := config self; smooth := smooth self;
     p_L := p_L self; regul := regul self; regul2 := regul2 self; res := res self;
     last_iter := last_iter self; first_iter := first_iter self;
     final_estim := final_estim self; ambiguities := ambiguities self;
     speckles := speckles self; science_data_ori := v;
     stellar_halo := stellar_halo self |}.
Definition set_stellar_halo (v : option frame) (self : estimator) : estimator :=
  {| shape := shape self; nb_frame := nb_frame self; L0x0 := L0x0 self;
     mask := mask self; name := name self; coro := coro self; coroR := coroR self;
     halo_fit_mask := halo_fit_mask self; ang_shift := ang_shift self;
     science_data := science_data self; model := model self;
     ang_weight := ang_weight self; config := config self; smooth := smooth self;
     p_L := p_L self; regul := regul self; regul2 := regul2 self; res := res self;
     last_iter := last_iter self; first_iter := first_iter self;
     final_estim := final_estim self; ambiguities := ambiguities self;
     speckles := speckles self; science_data_ori := science_data_ori self;
     stellar_halo := v |}.

(** *** Module-level helpers *)

(** [normlizangle]: [angles[angles < 0] += 360; angles % 360] *)
Definition normlizangle (angles : list Qc) : list Qc :=
  map (fun a => pymod (if ltb a 0%Qc then (a + ofZ 360)%Qc else a) (ofZ 360)) angles.

(** [find_nearest]: [argmin] of an empty array is a [ValueError]. *)
Definition find_nearest (array : list Qc) (value : fval) : result Qc :=
  match array with
  | [] => Raise (ValueError "attempt to get an argmin of an empty sequence")
  | a :: rest =>
      let d x := match value with Fin v => Fin (abs (x - v)%Qc) | NaN => NaN end in
      Ok (fold_left (fun best x => if flt (d x) (d best) then x else best) rest a)
  end.

(** *** Regularisation *)

Definition as_frame (M : maskv) (like : frame) : frame :=
  match M with Tens f => f | Scalar q => fmap (fun _ => q) like end.

Definition sq (t : frame) : frame := fmap (fun x => (x * x)%Qc) t.
Definition one_minus (t : frame) : frame := fmap (fun x => (1 - x)%Qc) t.

(** [tsum(rM * (M - Y) ** 2)] *)
Definition masked_sq_dist (rM : frame) (M : maskv) (Y : frame) : Qc :=
  tsum (fmul_frame rM (sq (fsub_frame (as_frame M Y) Y))).

(** [tsum(rM * (M * Y) ** 2)] *)
Definition masked_sq (rM : frame) (M : frame) (Y : frame) : Qc :=
  tsum (fmul_frame rM (sq (fmul_frame M Y))).

Definition sign_of (invert : bool) : Qc := if invert then (- (1))%Qc else 1%Qc.

Definition configR1 (self : estimator) (mode : string) (smoothL : bool) (p_L' : Qc)
    (epsi : Qc) : result estimator :=
  let self :=
    if (mode =? "smooth_with_edges")%string then set_smooth (Some (SmoothWithEdges epsi)) self
    else if (mode =? "smooth")%string then set_smooth (Some Smooth) self
    else if (mode =? "peak_preservation")%string then set_smooth (Some PeakPreservation) self
    else if (mode =? "l1")%string then set_smooth (Some L1) self
    else self in
  let self := set_p_L p_L' self in
  Ok (if smoothL then set_regul (Some RegulXL) self else set_regul (Some RegulX) self).

Definition configR2 {torch} (ext : externals torch) (self : estimator)
    (Msk : option frame) (mode penaliz : string) (invert : bool) (p_w : Qc)
    : result estimator :=
  let Msk := if (mode =? "pdi")%string then option_map (convert_to_mask ext) Msk else Msk in
  let mode := if (mode =? "pdi")%string then "mask"%string else mode in
  let shape_ok :=
    match Msk with
    | Some m => if (mode =? "l1")%string then true
                else (fst (Tensor.shape m) =? fst (frame_shape (model self)))%nat
                     && (snd (Tensor.shape m) =? snd (frame_shape (model self)))%nat
    | None => (mode =? "l1")%string
    end in
  if negb shape_ok then Raise (TypeError "Mask M should be tensor or arr y of size ")
  else
  let penaliz := capitalize penaliz in
  let rM := coro self in
  if negb (str_in penaliz ["X"; "L"; "Both"; "B"; "Tb"; "Trueboth"]%string) then
    Raise (Exception "Unknown value of penaliz. Possible values are {'X','L','B','TB'}")
  else
  let both := str_in penaliz ["Both"; "B"]%string in
  let trueboth := str_in penaliz ["Trueboth"; "TB"]%string in
  let M0 := match Msk with Some m => m | None => [] end in
  let configured : result estimator :=
    if (mode =? "dist")%string then
      let self := set_mask (Tens M0) self in
      let sign := sign_of invert in
      Ok (if (penaliz =? "X")%string then
            set_regul2 (Some (fun X L M => Fin (masked_sq_dist rM M X))) self
          else if (penaliz =? "L")%string then
            set_regul2 (Some (fun X L M => Fin (masked_sq_dist rM M X))) self
          else if both then
            set_regul2 (Some (fun X L M =>
              Fin (sign * (masked_sq_dist rM M X - masked_sq_dist rM M L))%Qc)) self
          else self)
    else if (mode =? "mask")%string then
      let Mn := fmap (fun x => (x / max_list (flatten M0))%Qc) M0 in
      let self := set_mask (Tens (if invert then one_minus Mn else Mn)) self in
      Ok (if (penaliz =? "X")%string then
            set_regul2 (Some (fun X L M => Fin (masked_sq rM (as_frame M X) X))) self
          else if (penaliz =? "L")%string then
            set_regul2 (Some (fun X L M =>
              Fin (masked_sq rM (one_minus (as_frame M L)) L))) self
          else if both then
            set_regul2 (Some (fun X L M =>
              let Mf := as_frame M X in
              fadd (Fin (masked_sq rM Mf X))
                   (fmul (fdiv (Fin (tsum Mf * tsum Mf)%Qc)
                               (Fin (tsum (one_minus Mf) * tsum (one_minus Mf))%Qc))
                         (Fin (masked_sq rM (one_minus Mf) L))))) self
          else if trueboth then
            set_regul2 (Some (fun X L M =>
              Fin (tsum (sq (fmul_frame (as_frame M X) X))
                   + p_w * tsum (sq (fmul_frame rM L)))%Qc)) self
          else self)
    else if (mode =? "l1")%string then
      let sign := sign_of invert in
      Ok (if (penaliz =? "X")%string then
            set_regul2 (Some (fun X L M => Fin (tsum (sq X)))) self
          else if (penaliz =? "L")%string then
            set_regul2 (Some (fun X L M => Fin (tsum (sq L)))) self
          else if both then
            set_regul2 (Some (fun X L M => Fin (sign * (tsum (sq X) - tsum (sq L)))%Qc)) self
          else if trueboth then
            set_regul2 (Some (fun X L M =>
              Fin (sign * (tsum (sq X) + p_w * tsum (sq L)))%Qc)) self
          else self)
    else Raise (Exception "Unknown value of mode. Possible values are {'mask','dist','l1'}") in
  bind configured (fun self =>
    let R2_name := (mode ++ " on " ++ penaliz ++ (if invert then " inverted" else ""))%string in
    Ok (set_config (match config self with
                    | c0 :: _ :: rest => c0 :: Some R2_name :: rest
                    | other => other
                    end) self)).

(** *** Construction *)

Inductive pupil_arg : Type :=
| PupilNone
| PupilStr (s : string)
| PupilNum (r : Qc)
| PupilOther.

(** [mustard_estimator.__init__] for an ADI cube ([scale=None]).  The files
    written under [savedir] are not modelled. *)
Definition init {torch} (ext : externals torch) (science_data0 : cube)
    (angles0 : list Qc) (coro0 : option Qc) (pupil : pupil_arg) (halo_fit_mask0 : Qc)
    (psf : option frame) (Badframes : option (list nat)) : result estimator :=
  bind (match Badframes with
        | Some bad =>
            bind (delete science_data0 bad) (fun sd =>
            bind (delete angles0 bad) (fun an => Ok (sd, an)))
        | None => Ok (science_data0, angles0)
        end) (fun '(science_data1, angles1) =>
  match science_data1 with
  | [] => Raise (IndexError "index 0 is out of bounds for axis 0 with size 0")
  | frame0 :: _ =>
    let shp := Tensor.shape frame0 in
    let nb := List.length science_data1 in
    let ones := fmap (fun _ => 1%Qc) (zeros (fst shp) (snd shp)) in
    let half := (ofZ (Z.of_nat (fst shp)) / ofZ 2)%Qc in
    bind (match pupil with
          | PupilNone =>
              Raise (TypeError "unsupported operand type(s) for *: 'float' and 'NoneType'")
          | PupilStr s =>
              if (s =? "edge")%string
              then Ok (circle ext shp half, circle ext shp (half - ofZ 2)%Qc)
              else Raise (ValueError "Invalid pupil key argument.")
          | PupilNum r => Ok (circle ext shp r, circle ext shp r)
          | PupilOther => Raise (ValueError "Invalid pupil key argument.")
          end) (fun '(pupil1, pupilR) =>
    let coro1 := match coro0 with Some c => c | None => 0%Qc end in
    let hole := one_minus (circle ext shp coro1) in
    let coro_mask := fmul_frame hole pupil1 in
    let coroR_mask := fmul_frame hole pupilR in
    let halo_mask := fmul_frame (one_minus (circle ext shp (coro1 + halo_fit_mask0)%Qc)) pupil1 in
    let rot := normlizangle angles1 in
    bind (find_nearest rot (median rot)) (fun nearest =>
    let shift := (0 * nearest)%Qc in
    let rot := map (fun a => (a - shift)%Qc) rot in
    let mdl := {| rot_angles := rot; model_coro := coro_mask; model_psf := psf |} in
    if negb (model_nb_frame mdl =? model_nb_frame mdl)%nat then
      Raise (TypeError "exceptions must derive from BaseException")
    else
    let self :=
      {| shape := shp; nb_frame := nb; L0x0 := None; mask := Scalar 1%Qc; name := "";
         coro := coro_mask; coroR := coroR_mask; halo_fit_mask := halo_mask;
         ang_shift := shift; science_data := science_data1; model := mdl;
         ang_weight := repeat 1%Qc nb;
         config := [Some "smooth"; None;
                    Some (match psf with None => "No" | Some _ => "With" end);
                    Some "no"; Some "Both L and X"]%string;
         smooth := None; p_L := 1%Qc; regul := None; regul2 := None;
         res := None; last_iter := None; first_iter := None; final_estim := None;
         ambiguities := None; speckles := None; science_data_ori := None;
         stellar_halo := None |} in
    bind (configR2 ext self None "l1" "X" false (ofZ 2)) (fun self =>
    configR1 self "smooth" true 1%Qc (frac 1 10000000))))
  end).

(** *** [compute_rot_weight] *)

(** [while detla_ang < max_rot and tmp_id < nb_frm - 1] *)
Fixpoint neighbours_after (fuel : nat) (angs : list Qc) (max_rot : fval)
    (id_ang tmp_id nb_neighbours : Z) (detla_ang : Qc) : Z :=
  match fuel with
  | O => nb_neighbours
  | S fuel' =>
      if flt (Fin detla_ang) max_rot && (tmp_id <? Z.of_nat (List.length angs) - 1)%Z then
        let tmp_id := (tmp_id + 1)%Z in
        let nb_neighbours := (nb_neighbours + 1)%Z in
        let detla_ang := (detla_ang + abs (getitem angs tmp_id - getitem angs id_ang))%Qc in
        neighbours_after fuel' angs max_rot id_ang tmp_id nb_neighbours detla_ang
      else nb_neighbours
  end.

(** [while detla_ang < max_rot and tmp_id > 0] *)
Fixpoint neighbours_before (fuel : nat) (angs : list Qc) (max_rot : fval)
    (id_ang tmp_id nb_neighbours : Z) (detla_ang : Qc) : Z :=
  match fuel with
  | O => nb_neighbours
  | S fuel' =>
      if flt (Fin detla_ang) max_rot && (0 <? tmp_id)%Z then
        let tmp_id := (tmp_id - 1)%Z in
        let nb_neighbours := (nb_neighbours + 1)%Z in
        let detla_ang := (detla_ang + abs (getitem angs tmp_id - getitem angs id_ang))%Qc in
        neighbours_before fuel' angs max_rot id_ang tmp_id nb_neighbours detla_ang
      else nb_neighbours
  end.

(** [abs(angs[:-1] - angs[1:])] *)
Definition steps (angs : list Qc) : list Qc :=
  map2 (fun a b => abs (a - b)%Qc) (removelast angs) (tl angs).

Definition max_rot_of (angs : list Qc) : fval :=
  let max_rot := median (steps angs) in
  if fgt max_rot (Fin 1%Qc) then Fin 1%Qc else max_rot.

(** One pass of the [for id_ang, ang in enumerate(angs)] body. *)
Definition frame_weight (angs : list Qc) (max_rot : fval) (id_ang : Z) : Qc :=
  let nb_frm := List.length angs in
  let nb1 := neighbours_after nb_frm angs max_rot id_ang id_ang 0 0%Qc in
  let w_1 := if (1 <? nb1)%Z
             then ((1 + abs (getitem angs id_ang - getitem angs (id_ang + 1))) / ofZ nb1)%Qc
             else 1%Qc in
  let nb2 := neighbours_before nb_frm angs max_rot id_ang id_ang 0 0%Qc in
  let w_2 := if (1 <? nb2)%Z
             then ((1 + abs (getitem angs id_ang - getitem angs (id_ang - 1))) / ofZ nb2)%Qc
             else 1%Qc in
  ((w_2 + w_1) / ofZ 2)%Qc.

Definition compute_rot_weight (angs : list Qc) : list Qc :=
  let max_rot := max_rot_of angs in
  mapi (fun id_ang _ => frame_weight angs max_rot id_ang) angs.

(** *** [decompose] *)

Definition decompose {torch} (ext : externals torch) (self : estimator) : estimator :=
  let spk := amin0 (science_data self) in
  let amb := amin0 (cube_derotate ext (tile spk (nb_frame self))
                                  (rot_angles (model self)) false) in
  let halo := amin0 (cube_derotate ext (tile amb 50) linspace_0_360_50 false) in
  let self := set_speckles (Some spk) self in
  let self := set_ambiguities (Some amb) self in
  let self := set_stellar_halo (Some halo) self in
  let self := set_science_data_ori (Some (science_data self)) self in
  set_science_data
    (map (fun f => fadd_frame (fsub_frame f spk) halo) (science_data self)) self.

(** *** [estimate] *)

(** [kactiv]: an iteration number or the string ["converg"]. *)
Inductive kspec : Type :=
| KInt (k : Z)
| KConverg.

(** The keyword arguments of [estimate] that reach the computation; [save],
    [suffix], [gif], [verbose] and [history] only drive printing and files.
    [w_way] holds the two 0/1 switches. *)
Record options : Type := {
  w_r : Qc;
  w_r2 : Qc;
  w_pcent : bool;
  estimI : string;
  med_sub : bool;
  weighted_rot : bool;
  res_pos : bool;
  w_way : bool * bool;
  maxiter : Z;
  gtol : Qc;
  kactiv : kspec;
  kdactiv : option Z;
  init_maxL : bool;
  min_sub : bool
}.

Definition default_options : options :=
  {| w_r := frac 3 100; w_r2 := frac 3 100; w_pcent := true; estimI := "Both";
     med_sub := false; weighted_rot := true; res_pos := false; w_way := (false, true);
     maxiter := 10; gtol := frac 1 10000000000; kactiv := KInt 0; kdactiv := None;
     init_maxL := true; min_sub := true |}.

(** The [med_sub] block: each frame loses the median of its masked pixels
    and is clipped at 0, in place. *)
Definition median_subtract (self : estimator) : estimator :=
  set_science_data
    (map (fun f =>
            let med := finite_or 0%Qc (median (flatten (fmul_frame (coro self) f))) in
            clip0 (fmap (fun x => (x - med)%Qc) f))
         (science_data self)) self.

(** Lines 454-460: what [estimate] does to the stored cube. *)
Definition prepare_cube {torch} (ext : externals torch) (o : options)
    (self : estimator) : estimator :=
  let self := if med_sub o then median_subtract self else self in
  if min_sub o then decompose ext self else self.

Definition fsum (l : list fval) : fval := fold_right fadd (Fin 0%Qc) l.

(** [self.smooth(X)]; [xmax] is 1 whenever [estimate] runs, because
    [config[0]] never leaves ["smooth"]. *)
Definition eval_smooth {torch} (ext : externals torch) (self : estimator)
    (m : smooth_mode) (X : frame) : fval :=
  let gy := fmul_frame (coroR self) (sq (Algo.conv2d_same X Algo.sobel_y)) in
  let gx := fmul_frame (coroR self) (sq (Algo.conv2d_same X Algo.sobel_x)) in
  match m with
  | SmoothWithEdges epsi =>
      Fin (tsum (fmap (fun v => (v - epsi * epsi)%Qc) gy)
           + tsum (fmap (fun v => (v - epsi * epsi)%Qc) gx))%Qc
  | Smooth => Fin (tsum gy + tsum gx)%Qc
  | PeakPreservation =>
      let fpeak := map (map (fun x => tlog ext (1 - x / 1)%Qc)) X in
      let weigh g := fsum (map fsum (map2 (map2 (fun p v => fmul p (Fin v))) fpeak g)) in
      fadd (weigh gy) (weigh gx)
  | L1 => Fin (tsum (fmul_frame (coroR self) (fmap abs X)))
  end.

(** [self.regul(X, L)] *)
Definition eval_regul {torch} (ext : externals torch) (self : estimator)
    (m : smooth_mode) (r : regul_mode) (X L : frame) : fval :=
  match r with
  | RegulXL => fadd (eval_smooth ext self m X) (fmul (Fin (p_L self)) (eval_smooth ext self m L))
  | RegulX => eval_smooth ext self m X
  end.

(** [torch.sum(weight * coro * (Y - data) ** 2)] over the cube, with
    [weight = ang_weight * coro]. *)
Definition residual_sum (self : estimator) (post : Qc -> Qc) (Y data : cube) : Qc :=
  qsum (map2 (fun w '(y, d) =>
                (w * tsum (fmul_frame (coro self) (fmul_frame (coro self)
                      (sq (fmap post (fsub_frame y d))))))%Qc)
             (ang_weight self) (combine Y data)).

Definition relu (x : Qc) : Qc := qmax 0%Qc x.

(** Lines 551-560: the percentage weights at step 0, and the fall-back that
    moves the activation to iteration 2. *)
Definition auto_weights (w_rp : fval * fval) (loss0 reg1 reg2 : fval) (kactiv0 : Z)
    : fval * fval * Z :=
  let w_r' := if truthy (fst w_rp) && fgt reg1 (Fin 0%Qc)
              then fdiv (fmul (fst w_rp) loss0) reg1 else Fin 0%Qc in
  let w_r2' := if truthy (snd w_rp) && fgt reg2 (Fin 0%Qc)
               then fdiv (fmul (snd w_rp) loss0) reg2 else Fin 0%Qc in
  let kactiv' := if (truthy (fst w_rp) && flt reg1 (Fin 0%Qc))
                    || (truthy (snd w_rp) && flt reg2 (Fin 0%Qc))
                 then 2%Z else kactiv0 in
  (w_r', w_r2', kactiv').

(** The variables of [estimate] that its loop and nested functions mutate. *)
Record loop_state (torch : Type) : Type := {
  st_k : Z;
  st_kactiv : Z;
  st_Ractiv : bool;
  st_mink : Z;
  st_w_r : fval;
  st_w_r2 : fval;
  st_vars : vars;
  st_loss : fval;
  st_Rpos : fval;
  st_gradX : fval;
  st_gradL : fval;
  st_loss_evo : list fval;
  st_last_iter : option snapshot;
  st_first_iter : option snapshot;
  st_final_estim : option snapshot;
  st_ending : string;
  st_optimizer : torch
}.

Definition set_st_k {torch} (v : Z) (self : loop_state torch) : loop_state torch :=
  {| st_k := v; st_kactiv := st_kactiv self; st_Ractiv := st_Ractiv self;
     st_mink := st_mink self; st_w_r := st_w_r self; st_w_r2 := st_w_r2 self;
     st_vars := st_vars self; st_loss := st_loss self; st_Rpos := st_Rpos self;
     st_gradX := st_gradX self; st_gradL := st_gradL self;
     st_loss_evo := st_loss_evo self; st_last_iter := st_last_iter self;
     st_first_iter := st_first_iter self; st_final_estim := st_final_estim self;
     st_ending := st_ending self; st_optimizer := st_optimizer self |}.
Definition set_st_kactiv {torch} (v : Z) (self : loop_state torch) : loop_state torch :=
  {| st_k := st_k self; st_kactiv := v; st_Ractiv := st_Ractiv self;
     st_mink := st_mink self; st_w_r := st_w_r self; st_w_r2 := st_w_r2 self;
     st_vars := st_vars self; st_loss := st_loss self; st_Rpos := st_Rpos self;
     st_gradX := st_gradX self; st_gradL := st_gradL self;
     st_loss_evo := st_loss_evo self; st_last_iter := st_last_iter self;
     st_first_iter := st_first_iter self; st_final_estim := st_final_estim self;
     st_ending := st_ending self; st_optimizer := st_optimizer self |}.
Definition set_st_Ractiv {torch} (v : bool) (self : loop_state torch) : loop_state torch :=
  {| st_k := st_k self; st_kactiv := st_kactiv self; st_Ractiv := v;
     st_mink := st_mink self; st_w_r := st_w_r self; st_w_r2 := st_w_r2 self;
     st_vars := st_vars self; st_loss := st_loss self; st_Rpos := st_Rpos self;
     st_gradX := st_gradX self; st_gradL := st_gradL self;
     st_loss_evo := st_loss_evo self; st_last_iter := st_last_iter self;
     st_first_iter := st_first_iter self; st_final_estim := st_final_estim self;
     st_ending := st_ending self; st_optimizer := st_optimizer self |}.
Definition set_st_mink {torch} (v : Z) (self : loop_state torch) : loop_state torch :=
  {| st_k := st_k self; st_kactiv := st_kactiv self; st_Ractiv := st_Ractiv self;
     st_mink := v; st_w_r := st_w_r self; st_w_r2 := st_w_r2 self;
     st_vars := st_vars self; st_loss := st_loss self; st_Rpos := st_Rpos self;
     st_gradX := st_gradX self; st_gradL := st_gradL self;
     st_loss_evo := st_loss_evo self; st_last_iter := st_last_iter self;
     st_first_iter := st_first_iter self; st_final_estim := st_final_estim self;
     st_ending := st_ending self; st_optimizer := st_optimizer self |}.
Definition set_st_w_r {torch} (v : fval) (self : loop_state torch) : loop_state torch :=
  {| st_k := st_k self; st_kactiv := st_kactiv self; st_Ractiv := st_Ractiv self;
     st_mink := st_mink self; st_w_r := v; st_w_r2 := st_w_r2 self;
     st_vars := st_vars self; st_loss := st_loss self; st_Rpos := st_Rpos self;
     st_gradX := st_gradX self; st_gradL := st_gradL self;
     st_loss_evo := st_loss_evo self; st_last_iter := st_last_iter self;
     st_first_iter := st_first_iter self; st_final_estim := st_final_estim self;
     st_ending := st_ending self; st_optimizer := st_optimizer self |}.
Definition set_st_w_r2 {torch} (v : fval) (self : loop_state torch) : loop_state torch :=
  {| st_k := st_k self; st_kactiv := st_kactiv self; st_Ractiv := st_Ractiv self;
     st_mink := st_mink self; st_w_r := st_w_r self; st_w_r2 := v;
     st_vars := st_vars self; st_loss := st_loss self; st_Rpos := st_Rpos self;
     st_gradX := st_gradX self; st_gradL := st_gradL self;
     st_loss_evo := st_loss_evo self; st_last_iter := st_last_iter self;
     st_first_iter := st_first_iter self; st_final_estim := st_final_estim self;
     st_ending := st_ending self; st_optimizer := st_optimizer self |}.
Definition set_st_vars {torch} (v : vars) (self : loop_state torch) : loop_state torch :=
  {| st_k := st_k self; st_kactiv := st_kactiv self; st_Ractiv := st_Ractiv self;
     st_mink := st_mink self; st_w_r := st_w_r self; st_w_r2 := st_w_r2 self;
     st_vars := v; st_loss := st_loss self; st_Rpos := st_Rpos self;
     st_gradX := st_gradX self; st_gradL := st_gradL self;
     st_loss_evo := st_loss_evo self; st_last_iter := st_last_iter self;
     st_first_iter := st_first_iter self; st_final_estim := st_final_estim self;
     st_ending := st_ending self; st_optimizer := st_optimizer self |}.
Definition set_st_loss {torch} (v : fval) (self : loop_state torch) : loop_state torch :=
  {| st_k := st_k self; st_kactiv := st_kactiv self; st_Ractiv := st_Ractiv self;
     st_mink := st_mink self; st_w_r := st_w_r self; st_w_r2 := st_w_r2 self;
     st_vars := st_vars self; st_loss := v; st_Rpos := st_Rpos self;
     st_gradX := st_gradX self; st_gradL := st_gradL self;
     st_loss_evo := st_loss_evo self; st_last_iter := st_last_iter self;
     st_first_iter := st_first_iter self; st_final_estim := st_final_estim self;
     st_ending := st_ending self; st_optimizer := st_optimizer self |}.
Definition set_st_Rpos {torch} (v : fval) (self : loop_state torch) : loop_state torch :=
  {| st_k := st_k self; st_kactiv := st_kactiv self; st_Ractiv := st_Ractiv self;
     st_mink := st_mink self; st_w_r := st_w_r self; st_w_r2 := st_w_r2 self;
     st_vars := st_vars self; st_loss := st_loss self; st_Rpos := v;
     st_gradX := st_gradX self; st_gradL := st_gradL self;
     st_loss_evo := st_loss_evo self; st_last_iter := st_last_iter self;
     st_first_iter := st_first_iter self; st_final_estim := st_final_estim self;
     st_ending := st_ending self; st_optimizer := st_optimizer self |}.
Definition set_st_gradX {torch} (v : fval) (self : loop_state torch) : loop_state torch :=
  {| st_k := st_k self; st_kactiv := st_kactiv self; st_Ractiv := st_Ractiv self;
     st_mink := st_mink self; st_w_r := st_w_r self; st_w_r2 := st_w_r2 self;
     st_vars := st_vars self; st_loss := st_loss self; st_Rpos := st_Rpos self;
     st_gradX := v; st_gradL := st_gradL self; st_loss_evo := st_loss_evo self;
     st_last_iter := st_last_iter self; st_first_iter := st_first_iter self;
     st_final_estim := st_final_estim self; st_ending := st_ending self;
     st_optimizer := st_optimizer self |}.
Definition set_st_gradL {torch} (v : fval) (self : loop_state torch) : loop_state torch :=
  {| st_k := st_k self; st_kactiv := st_kactiv self; st_Ractiv := st_Ractiv self;
     st_mink := st_mink self; st_w_r := st_w_r self; st_w_r2 := st_w_r2 self;
     st_vars := st_vars self; st_loss := st_loss self; st_Rpos := st_Rpos self;
     st_gradX := st_gradX self; st_gradL := v; st_loss_evo := st_loss_evo self;
     st_last_iter := st_last_iter self; st_first_iter := st_first_iter self;
     st_final_estim := st_final_estim self; st_ending := st_ending self;
     st_optimizer := st_optimizer self |}.
Definition set_st_loss_evo {torch} (v : list fval) (self : loop_state torch) : loop_state torch :=
  {| st_k := st_k self; st_kactiv := st_kactiv self; st_Ractiv := st_Ractiv self;
     st_mink := st_mink self; st_w_r := st_w_r self; st_w_r2 := st_w_r2 self;
     st_vars := st_vars self; st_loss := st_loss self; st_Rpos := st_Rpos self;
     st_gradX := st_gradX self; st_gradL := st_gradL self; st_loss_evo := v;
     st_last_iter := st_last_iter self; st_first_iter := st_first_iter self;
     st_final_estim := st_final_estim self; st_ending := st_ending self;
     st_optimizer := st_optimizer self |}.
Definition set_st_last_iter {torch} (v : option snapshot) (self : loop_state torch) : loop_state torch :=
  {| st_k := st_k self; st_kactiv := st_kactiv self; st_Ractiv := st_Ractiv self;
     st_mink := st_mink self; st_w_r := st_w_r self; st_w_r2 := st_w_r2 self;
     st_vars := st_vars self; st_loss := st_loss self; st_Rpos := st_Rpos self;
     st_gradX := st_gradX self; st_gradL := st_gradL self;
     st_loss_evo := st_loss_evo self; st_last_iter := v;
     st_first_iter := st_first_iter self; st_final_estim := st_final_estim self;
     st_ending := st_ending self; st_optimizer := st_optimizer self |}.
Definition set_st_first_iter {torch} (v : option snapshot) (self : loop_state torch) : loop_state torch :=
  {| st_k := st_k self; st_kactiv := st_kactiv self; st_Ractiv := st_Ractiv self;
     st_mink := st_mink self; st_w_r := st_w_r self; st_w_r2 := st_w_r2 self;
     st_vars := st_vars self; st_loss := st_loss self; st_Rpos := st_Rpos self;
     st_gradX := st_gradX self; st_gradL := st_gradL self;
     st_loss_evo := st_loss_evo self; st_last_iter := st_last_iter self;
     st_first_iter := v; st_final_estim := st_final_estim self;
     st_ending := st_ending self; st_optimizer := st_optimizer self |}.
Definition set_st_final_estim {torch} (v : option snapshot) (self : loop_state torch) : loop_state torch :=
  {| st_k := st_k self; st_kactiv := st_kactiv self; st_Ractiv := st_Ractiv self;
     st_mink := st_mink self; st_w_r := st_w_r self; st_w_r2 := st_w_r2 self;
     st_vars := st_vars self; st_loss := st_loss self; st_Rpos := st_Rpos self;
     st_gradX := st_gradX self; st_gradL := st_gradL self;
     st_loss_evo := st_loss_evo self; st_last_iter := st_last_iter self;
     st_first_iter := st_first_iter self; st_final_estim := v;
     st_ending := st_ending self; st_optimizer := st_optimizer self |}.
Definition set_st_ending {torch} (v : string) (self : loop_state torch) : loop_state torch :=
  {| st_k := st_k self; st_kactiv := st_kactiv self; st_Ractiv := st_Ractiv self;
     st_mink := st_mink self; st_w_r := st_w_r self; st_w_r2 := st_w_r2 self;
     st_vars := st_vars self; st_loss := st_loss self; st_Rpos := st_Rpos self;
     st_gradX := st_gradX self; st_gradL := st_gradL self;
     st_loss_evo := st_loss_evo self; st_last_iter := st_last_iter self;
     st_first_iter := st_first_iter self; st_final_estim := st_final_estim self;
     st_ending := v; st_optimizer := st_optimizer self |}.
Definition set_st_optimizer {torch} (v : torch) (self : loop_state torch) : loop_state torch :=
  {| st_k := st_k self; st_kactiv := st_kactiv self; st_Ractiv := st_Ractiv self;
     st_mink := st_mink self; st_w_r := st_w_r self; st_w_r2 := st_w_r2 self;
     st_vars := st_vars self; st_loss := st_loss self; st_Rpos := st_Rpos self;
     st_gradX := st_gradX self; st_gradL := st_gradL self;
     st_loss_evo := st_loss_evo self; st_last_iter := st_last_iter self;
     st_first_iter := st_first_iter self; st_final_estim := st_final_estim self;
     st_ending := st_ending self; st_optimizer := v |}.

Definition snapshot_of (estimI' : string) (v : vars) : snapshot :=
  if (estimI' =? "")%string then Snap2 (Lk v) (Xk v)
  else Snap4 (Lk v) (Xk v) (flux_k v) (fluxR_k v).

Section Run.
Context {torch : Type} (ext : externals torch) (self : estimator) (o : options).
Context (estimI' : string) (w_rp : fval * fval).
Context (sm : smooth_mode) (rg : regul_mode) (r2 : regul2_fn).

(** [optimizer.step(closure)] *)
Definition step (st : loop_state torch) : loop_state torch :=
  let env := {| env_Ractiv := st_Ractiv st; env_w_r := st_w_r st;
                env_w_r2 := st_w_r2 st |} in
  let '(opt, out) := lbfgs_step ext (st_optimizer st) env (st_vars st) in
  set_st_optimizer opt
    (set_st_vars (out_vars out)
      (set_st_loss (out_loss out)
        (set_st_Rpos (out_Rpos out)
          (set_st_gradX (out_gradX out)
            (set_st_gradL (out_gradL out) st))))).

(** The [with torch.no_grad()] block of [activation]. *)
Definition reweight (st : loop_state torch) : loop_state torch :=
  if w_pcent o then
    let reg1 := eval_regul ext self sm rg (Xk (st_vars st)) (Lk (st_vars st)) in
    let reg2 := r2 (Xk (st_vars st)) (Lk (st_vars st)) (mask self) in
    let base := fsub (st_loss st) (st_Rpos st) in
    set_st_w_r (if truthy (fst w_rp) && fgt reg1 (Fin 0%Qc)
                then fdiv (fmul (fst w_rp) base) reg1 else Fin 0%Qc)
      (set_st_w_r2 (if truthy (snd w_rp) && fgt reg2 (Fin 0%Qc)
                    then fdiv (fmul (snd w_rp) base) reg2 else Fin 0%Qc) st)
  else st.

Definition new_optimizer (st : loop_state torch) : loop_state torch :=
  set_st_optimizer (lbfgs_new ext (st_optimizer st) estimI') st.

(** [activation()]: the "ACTIVATED" pass, then the "AJUSTED" pass that
    first takes one optimizer step. *)
Definition activation (st : loop_state torch) : loop_state torch :=
  let st := new_optimizer (reweight st) in
  new_optimizer (reweight (step st)).

(** The test that guards both the checkpoint and the final choice. *)
Definition diverged (st : loop_state torch) : bool :=
  (1 <? st_k st)%Z
  && (isnan (st_loss st)
      || (negb (st_kactiv st =? 0)%Z && (st_kactiv st <? st_k st)%Z
          && fgt (st_loss st) (last (st_loss_evo st) NaN))).

(** "Descactivation": [if kdactiv and k == kdactiv: Ractiv = 0].  A
    [kdactiv] that is [None] or a string never equals [k]. *)
Definition deactivate (k : Z) (st : loop_state torch) : loop_state torch :=
  match kdactiv o with
  | Some kd => if negb (kd =? 0)%Z && (k =? kd)%Z then set_st_Ractiv false st else st
  | None => st
  end.

(** The [for k in range(1, maxiter+1)] loop; the boolean of the body tells
    whether it left through [break]. *)
Definition iteration (k : Z) (st : loop_state torch) : loop_state torch * bool :=
  let st := set_st_k k st in
  if negb (st_kactiv st =? 0)%Z && (k =? st_kactiv st)%Z then
    (activation (set_st_mink (k + 2)%Z (set_st_Ractiv true st)), false)
  else
    let st := deactivate k st in
    let st := step st in
    let st := if diverged st then set_st_final_estim (st_last_iter st) st else st in
    let st := set_st_loss_evo (st_loss_evo st ++ [st_loss st]) st in
    let st := set_st_last_iter (Some (snapshot_of estimI' (st_vars st))) st in
    let st := if (k =? 1)%Z
              then set_st_first_iter (Some (snapshot_of estimI' (st_vars st))) st
              else st in
    let grad := if (estimI' =? "Justl")%string then st_gradL st else st_gradX st in
    if (st_mink st <? k)%Z && flt grad (Fin (gtol o)) then
      if negb (st_Ractiv st) && negb (st_kactiv st =? 0)%Z then
        (activation (set_st_kactiv k (set_st_mink (k + 2)%Z (set_st_Ractiv true st))),
         false)
      else
        (set_st_ending (if (k =? maxiter o)%Z then "max iter reached"
                        else "Gtol reached") st, true)
    else if isnan (st_loss st) then
      (set_st_ending
         "Nan values end minimization. Last value estimated will be returned." st,
       true)
    else (st, false).

Fixpoint minimize (ks : list Z) (st : loop_state torch) : loop_state torch :=
  match ks with
  | [] => st
  | k :: ks' =>
      let '(st', stop) := iteration k st in
      if stop then st' else minimize ks' st'
  end.

(** Lines 784-788: the estimate that is unwrapped and returned. *)
Definition final_choice (st : loop_state torch) : frame * frame :=
  match diverged st, st_final_estim st with
  | true, Some fe => (snap_L fe, snap_X fe)
  | _, _ => (Lk (st_vars st), Xk (st_vars st))
  end.

End Run.

Definition range1 (n : Z) : list Z := map Z.of_nat (seq 1 (Z.to_nat n)).

(** What the part of [estimate] before the loop hands to the loop: the
    estimator with its cube prepared and [L0x0] set, the capitalised
    [estimI], the percentages [w_rp], the configured regularisers and the
    initial values of the loop variables. *)
Record prepared (torch : Type) : Type := {
  pr_self : estimator;
  pr_estimI : string;
  pr_w_rp : fval * fval;
  pr_smooth : smooth_mode;
  pr_regul : regul_mode;
  pr_regul2 : regul2_fn;
  pr_state : loop_state torch
}.

(** "Model and loss at step 0": the loop variables as they stand when the
    loop is entered, from the initial maps [L0], [X0] and the derotated
    cube. *)
Definition initial_state {torch} (ext : externals torch) (optimizer0 : torch)
    (self : estimator) (o : options) (sm : smooth_mode) (rg : regul_mode)
    (r2 : regul2_fn) (derot : cube) (L0 X0 : frame) : loop_state torch :=
  let estimI' := capitalize (estimI o) in
  let kactiv0 := match kactiv o with KInt k => k | KConverg => maxiter o end in
  let Ractiv0 := (kactiv0 =? 0)%Z in
  let w_r0 := Fin (w_r o) in
  let w_r20 := Fin (w_r2 o) in
  let w_rp := if w_pcent o then (w_r0, w_r20) else (Fin 0%Qc, Fin 0%Qc) in
  let ones := repeat 1%Qc (model_nb_frame (model self) - 1) in
  let v0 := {| Lk := L0; Xk := X0; flux_k := ones; fluxR_k := ones |} in
  let zero_cube := map (fun f => fmap (fun _ => 0%Qc) f) (science_data self) in
  let Y0 := if fst (w_way o) then forward ext (model self) v0 else zero_cube in
  let Y0_reverse := if snd (w_way o) then forward_ADI_reverse ext (model self) v0
                    else zero_cube in
  let loss0 := Fin ((if fst (w_way o)
                     then residual_sum self (fun x => x) Y0 (science_data self)
                     else 0)
                    + (if snd (w_way o)
                       then residual_sum self (fun x => x) Y0_reverse derot
                       else 0))%Qc in
  let Rpos := if res_pos o then Fin (residual_sum self relu Y0 (science_data self))
              else Fin 0%Qc in
  let weights :=
    if w_pcent o && Ractiv0
    then auto_weights w_rp loss0 (eval_regul ext self sm rg X0 L0)
                      (r2 X0 L0 (mask self)) kactiv0
    else (w_r0, w_r20, kactiv0) in
  let w_r1 := fst (fst weights) in
  let w_r21 := snd (fst weights) in
  let kactiv1 := snd weights in
  let R1_0 := if truthy w_r1
              then fmul (if Ractiv0 then w_r1 else Fin 0%Qc) (eval_regul ext self sm rg X0 L0)
              else Fin 0%Qc in
  let R2_0 := if truthy w_r21
              then fmul (if Ractiv0 then w_r21 else Fin 0%Qc) (r2 X0 L0 (mask self))
              else Fin 0%Qc in
  let loss1 := fadd loss0 (fadd (fadd R1_0 R2_0) Rpos) in
  {| st_k := 0; st_kactiv := kactiv1; st_Ractiv := Ractiv0; st_mink := 2;
     st_w_r := w_r1; st_w_r2 := w_r21; st_vars := v0; st_loss := loss1;
     st_Rpos := Rpos; st_gradX := NaN; st_gradL := NaN;
     st_loss_evo := [loss1];
     st_last_iter := Some (snapshot_of estimI' v0);
     st_first_iter := first_iter self;
     st_final_estim := final_estim self;
     st_ending := "undifined";
     st_optimizer := lbfgs_new ext optimizer0 estimI' |}.

(** "Compute weights for small angles bias": the weights are reshaped to one
    per frame of the cube. *)
Definition weigh_frames (o : options) (self : estimator) : result estimator :=
  if weighted_rot o then
    let w := compute_rot_weight (rot_angles (model self)) in
    if (List.length w =? nb_frame self)%nat
    then Ok (set_ang_weight w (set_config (match config self with
                                           | [c0; c1; c2; _; c4] =>
                                               [c0; c1; c2; Some "with"%string; c4]
                                           | other => other
                                           end) self))
    else Raise (ValueError "cannot reshape array")
  else Ok self.

(** "Initialisation with max common": [self.L0x0] is overwritten in both
    branches that do not fit a halo. *)
Definition initial_guess {torch} (ext : externals torch) (o : options) (derot : cube)
    (self : estimator) : estimator :=
  let angles := rot_angles (model self) in
  if init_maxL o then
    let res0 := median0 (science_data self) in
    let R_fr := csub derot (cube_derotate ext (tile res0 (nb_frame self))
                                           (map Qcopp angles) false) in
    set_L0x0 (Some (clip0 res0, clip0 (mean0 R_fr))) self
  else
    let res0 := median0 derot in
    let L_fr := csub (science_data self)
                     (cube_derotate ext (tile res0 (nb_frame self)) angles true) in
    set_L0x0 (Some (clip0 (mean0 L_fr), clip0 res0)) self.

Definition name_estimI (estimI' : string) (self : estimator) : estimator :=
  set_config (match config self with
              | [c0; c1; c2; c3; _] =>
                  [c0; c1; c2; c3;
                   Some (if (estimI' =? "Both")%string
                         then (estimI' ++ "X and L")%string else estimI')]
              | other => other
              end) self.

(** [estimate] up to "Save & prints the first iteration". *)
Definition estimate_setup {torch} (ext : externals torch) (optimizer0 : torch)
    (self : estimator) (o : options) : result (prepared torch) :=
  let estimI' := capitalize (estimI o) in
  let self := name_estimI estimI' self in
  let w_rp := if w_pcent o then (Fin (w_r o), Fin (w_r2 o)) else (Fin 0%Qc, Fin 0%Qc) in
  bind (weigh_frames o self) (fun self =>
  let self := prepare_cube ext o self in
  let derot := cube_derotate ext (science_data self) (rot_angles (model self)) true in
  if (estimI' =? "Halo")%string then
    Raise (AttributeError "'int' object has no attribute 'numpy'")
  else
  let self := initial_guess ext o derot self in
  match L0x0 self, smooth self, regul self, regul2 self with
  | Some (L0, X0), Some sm, Some rg, Some r2 =>
    Ok {| pr_self := self; pr_estimI := estimI'; pr_w_rp := w_rp;
          pr_smooth := sm; pr_regul := rg; pr_regul2 := r2;
          pr_state := initial_state ext optimizer0 self o sm rg r2 derot L0 X0 |}
  | _, _, _, _ => Raise (AttributeError "regularization is not configured")
  end).

(** The minimisation loop of [estimate] on the prepared state. *)
Definition estimate_loop {torch} (ext : externals torch) (o : options)
    (p : prepared torch) : loop_state torch :=
  minimize ext (pr_self p) o (pr_estimI p) (pr_w_rp p) (pr_smooth p) (pr_regul p)
           (pr_regul2 p) (range1 (maxiter o)) (pr_state p).

(** [estimate] after the loop: "Done, store and unwrap results". *)
Definition estimate_finish {torch} (ext : externals torch) (p : prepared torch)
    (st : loop_state torch) : estimator * (frame * frame * option (list Qc)) :=
  let self := pr_self p in
  let '(L_est, X_est) := final_choice st in
  let final' := match st_final_estim st with
                | None => st_last_iter st
                | Some fe => Some fe
                end in
  let nice f := fmul_frame (coro self) (frame_rotate ext f (- ang_shift self)%Qc) in
  let res' := {| res_x := (nice L_est, nice X_est); res_x_no_r := (L_est, X_est);
                 res_flux := flux_k (st_vars st); res_fluxR := fluxR_k (st_vars st);
                 res_loss_evo := st_loss_evo st; res_Kactiv := st_kactiv st;
                 res_ending := st_ending st |} in
  let self := set_res (Some res')
                (set_final_estim final'
                  (set_last_iter (st_last_iter st)
                    (set_first_iter (st_first_iter st) self))) in
  (self, (L_est, X_est,
          if (pr_estimI p =? "")%string then None else Some (flux_k (st_vars st)))).

(** [mustard_estimator.estimate]: the estimator after the call and the
    returned tuple.  A keyboard interruption is not modelled. *)
Definition estimate {torch} (ext : externals torch) (optimizer0 : torch)
    (self : estimator) (o : options)
    : result (estimator * (frame * frame * option (list Qc))) :=
  bind (estimate_setup ext optimizer0 self o) (fun p =>
    Ok (estimate_finish ext p (estimate_loop ext o p))).

End Mustard.

(** ** neo_mayo.py *)

Module NeoMayo.
Import Np.

Definition maskv : Type := Mustard.maskv.
Definition regul2_fn : Type := frame -> frame -> maskv -> fval.

(** The attributes of [mayo_estimator] that [configR2] reads or writes. *)
Record estimator : Type := {
  frame_shape : nat * nat;
  coroR : frame;
  mask : maskv;
  regul2 : regul2_fn;
  config : list (option string)
}.

Definition masked_sq_dist (rM : frame) (M : maskv) (Y : frame) : Qc :=
  tsum (fmul_frame rM (Mustard.sq (fsub_frame (Mustard.as_frame M Y) Y))).

Definition masked_sq (rM : frame) (M : frame) (Y : frame) : Qc :=
  tsum (fmul_frame rM (Mustard.sq (fmul_frame M Y))).

Definition with_regul2 (f : regul2_fn) (self : estimator) : estimator :=
  {| frame_shape := frame_shape self; coroR := coroR self; mask := mask self;
     regul2 := f; config := config self |}.

Definition with_mask (m : maskv) (self : estimator) : estimator :=
  {| frame_shape := frame_shape self; coroR := coroR self; mask := m;
     regul2 := regul2 self; config := config self |}.

Definition with_config (c : list (option string)) (self : estimator) : estimator :=
  {| frame_shape := frame_shape self; coroR := coroR self; mask := mask self;
     regul2 := regul2 self; config := c |}.

Definition configR2 (self : estimator) (Msk : option frame) (mode penaliz : string)
    (invert : bool) : result estimator :=
  let shape_ok :=
    match Msk with
    | Some m => if (mode =? "l1")%string then true
                else (fst (Tensor.shape m) =? fst (frame_shape self))%nat
                     && (snd (Tensor.shape m) =? snd (frame_shape self))%nat
    | None => (mode =? "l1")%string
    end in
  if negb shape_ok then Raise (TypeError "Mask M should be tensor or arr y of size ")
  else
  let penaliz := capitalize penaliz in
  let rM := coroR self in
  if negb (str_in penaliz ["X"; "L"; "Both"; "B"]%string) then
    Raise (Exception "Unknown value of penaliz. Possible values are {'X','L','B'}")
  else
  let both := str_in penaliz ["Both"; "B"]%string in
  let M0 := match Msk with Some m => m | None => [] end in
  let configured : result estimator :=
    if (mode =? "dist")%string then
      let self := with_mask (Mustard.Tens M0) self in
      let sign := Mustard.sign_of invert in
      Ok (if (penaliz =? "X")%string then
            with_regul2 (fun X L M => Fin (masked_sq_dist rM M X)) self
          else if (penaliz =? "L")%string then
            with_regul2 (fun X L M => Fin (masked_sq_dist rM M X)) self
          else if both then
            with_regul2 (fun X L M =>
              Fin (sign * (masked_sq_dist rM M X - masked_sq_dist rM M L))%Qc) self
          else self)
    else if (mode =? "mask")%string then
      let Mn := fmap (fun x => (x / max_list (flatten M0))%Qc) M0 in
      let self := with_mask (Mustard.Tens (if invert then Mustard.one_minus Mn else Mn)) self in
      Ok (if (penaliz =? "X")%string then
            with_regul2 (fun X L M => Fin (masked_sq rM (Mustard.as_frame M X) X)) self
          else if (penaliz =? "L")%string then
            with_regul2 (fun X L M =>
              Fin (masked_sq rM (Mustard.one_minus (Mustard.as_frame M L)) L)) self
          else if both then
            with_regul2 (fun X L M =>
              let Mf := Mustard.as_frame M X in
              fadd (Fin (masked_sq rM Mf X))
                   (fmul (fdiv (Fin (tsum Mf * tsum Mf)%Qc)
                               (Fin (tsum (Mustard.one_minus Mf)
                                     * tsum (Mustard.one_minus Mf))%Qc))
                         (Fin (masked_sq rM (Mustard.one_minus Mf) L)))) self
          else self)
    else if (mode =? "l1")%string then
      let sign := Mustard.sign_of invert in
      Ok (if (penaliz =? "X")%string then
            with_regul2 (fun X L M => Fin (tsum (Mustard.sq X))) self
          else if (penaliz =? "L")%string then
            with_regul2 (fun X L M => Fin (tsum (Mustard.sq L))) self
          else if both then
            with_regul2 (fun X L M =>
              Fin (sign * (tsum (Mustard.sq X) - tsum (Mustard.sq L)))%Qc) self
          else self)
    else Raise (Exception "Unknown value of mode. Possible values are {'mask','dist','l1'}") in
  bind configured (fun self =>
    let R2_name := (mode ++ " on " ++ penaliz ++ (if invert then " inverted" else ""))%string in
    Ok (with_config (match config self with
                     | c0 :: _ :: rest => c0 :: Some R2_name :: rest
                     | other => other
                     end) self)).

(** *** [compute_rot_weight], the copy of this file *)

Fixpoint neighbours_after (fuel : nat) (angs : list Qc) (max_rot : fval)
    (id_ang tmp_id nb_neighbours : Z) (detla_ang : Qc) : Z :=
  match fuel with
  | O => nb_neighbours
  | S fuel' =>
      if flt (Fin detla_ang) max_rot && (tmp_id <? Z.of_nat (List.length angs) - 1)%Z then
        let tmp_id := (tmp_id + 1)%Z in
        let nb_neighbours := (nb_neighbours + 1)%Z in
        let detla_ang := (detla_ang + abs (getitem angs tmp_id - getitem angs id_ang))%Qc in
        neighbours_after fuel' angs max_rot id_ang tmp_id nb_neighbours detla_ang
      else nb_neighbours
  end.

Fixpoint neighbours_before (fuel : nat) (angs : list Qc) (max_rot : fval)
    (id_ang tmp_id nb_neighbours : Z) (detla_ang : Qc) : Z :=
  match fuel with
  | O => nb_neighbours
  | S fuel' =>
      if flt (Fin detla_ang) max_rot && (0 <? tmp_id)%Z then
        let tmp_id := (tmp_id - 1)%Z in
        let nb_neighbours := (nb_neighbours + 1)%Z in
        let detla_ang := (detla_ang + abs (getitem angs tmp_id - getitem angs id_ang))%Qc in
        neighbours_before fuel' angs max_rot id_ang tmp_id nb_neighbours detla_ang
      else nb_neighbours
  end.

Definition max_rot_of (angs : list Qc) : fval :=
  let max_rot := median (map2 (fun a b => abs (a - b)%Qc) (removelast angs) (tl angs)) in
  if fgt max_rot (Fin 1%Qc) then Fin 1%Qc else max_rot.

Definition frame_weight (angs : list Qc) (max_rot : fval) (id_ang : Z) : Qc :=
  let nb_frm := List.length angs in
  let nb1 := neighbours_after nb_frm angs max_rot id_ang id_ang 0 0%Qc in
  let w_1 := if (1 <? nb1)%Z
             then ((1 + abs (getitem angs id_ang - getitem angs (id_ang + 1))) / ofZ nb1)%Qc
             else 1%Qc in
  let nb2 := neighbours_before nb_frm angs max_rot id_ang id_ang 0 0%Qc in
  let w_2 := if (1 <? nb2)%Z
             then ((1 + abs (getitem angs id_ang - getitem angs (id_ang - 1))) / ofZ nb2)%Qc
             else 1%Qc in
  ((w_2 + w_1) / ofZ 2)%Qc.

(** The last line rescales the weights by [nb_frm / sum(ang_weight)]; on an
    empty list that quotient is the integer division [0 / 0]. *)
Definition compute_rot_weight (angs : list Qc) : result (list Qc) :=
  let nb_frm := List.length angs in
  let max_rot := max_rot_of angs in
  let ang_weight := mapi (fun id_ang _ => frame_weight angs max_rot id_ang) angs in
  if eqb (qsum ang_weight) 0%Qc then Raise (ZeroDivisionError "division by zero")
  else Ok (map (fun w => (w * (ofZ (Z.of_nat nb_frm) / qsum ang_weight))%Qc) ang_weight).

Definition normlizangle (angles : list Qc) : list Qc :=
  map (fun a => pymod (if ltb a 0%Qc then (a + ofZ 360)%Qc else a) (ofZ 360)) angles.

End NeoMayo.

(** ** Predicates of the specification *)

Module Spec.

(** A quarter-turn count and a residual angle realise the rotation [theta]:
    the residual is at most 45 degrees in absolute value and the two add up
    to [theta] modulo 360. *)
Definition realizes (theta : Qc) (r : Z * Qc) : Prop :=
  (abs (snd r) <= ofZ 45)%Qc
  /\ exists m : Z, (ofZ 90 * ofZ (fst r) + snd r - theta = ofZ 360 * ofZ m)%Qc.

(** "sum over pixels of rM * (M - L)^2" *)
Definition masked_distance (rM M L : frame) : Qc :=
  tsum (map2 (map2 (fun r d => (r * (d * d))%Qc)) rM (map2 (map2 Qcminus) M L)).

(** The frame with its last row and last column set to zero. *)
Definition zero_border (t : frame) : frame :=
  map (fun row => removelast row ++ [0%Qc]) (removelast t)
  ++ [repeat 0%Qc (List.length (hd [] t))].

(** The enumerated modes of the first regulariser. *)
Definition accepted_R1 (mode : string) : Prop :=
  In mode ["smooth"; "smooth_with_edges"; "peak_preservation"; "l1"]%string.

(** A raw regularisation value that is finite and below zero. *)
Definition negative (x : fval) : Prop :=
  match x with Fin q => (q < 0)%Qc | NaN => False end.

(** The last recorded loss is the current one, or the iteration counter has
    not passed the activation iteration. *)
Definition settled {torch} (st : Mustard.loop_state torch) : Prop :=
  last (Mustard.st_loss_evo st) NaN = Mustard.st_loss st
  \/ (Mustard.st_k st <= Mustard.st_kactiv st)%Z.

(** The loss recorded last is above the one recorded before it. *)
Definition last_step_rose {torch} (st : Mustard.loop_state torch) : bool :=
  match rev (Mustard.st_loss_evo st) with
  | cur :: prev :: _ => fgt cur prev
  | _ => false
  end.

(** A frame of [h] rows of [w] pixels. *)
Definition rect {A} (h w : nat) (m : list (list A)) : Prop :=
  List.length m = h /\ Forall (fun row => List.length row = w) m.

End Spec.

(** ** Concrete runs *)

Module Scenario.
Import Np Mustard.

(** A disk rasteriser standing for [mustard.utils.circle]: 1 within [r] of
    the centre of the frame, 0 elsewhere. *)
Definition disk (shp : nat * nat) (r : Qc) : frame :=
  let cy := ((ofZ (Z.of_nat (fst shp)) - 1) / ofZ 2)%Qc in
  let cx := ((ofZ (Z.of_nat (snd shp)) - 1) / ofZ 2)%Qc in
  mapi (fun i row =>
    mapi (fun j _ =>
      let dy := (ofZ i - cy)%Qc in
      let dx := (ofZ j - cx)%Qc in
      if ltb (dy * dy + dx * dx)%Qc (r * r)%Qc then 1%Qc else 0%Qc) row)
    (zeros (fst shp) (snd shp)).

(** Collaborators for a sequence observed without field rotation (every
    parallactic angle is 0, so rotating is the identity), with an optimizer
    that answers from a script: the n-th call of [optimizer.step] leaves the
    n-th entry in the shared variables. *)
Definition scripted : externals (list step_out) :=
  {| circle := disk;
     convert_to_mask := fun f => f;
     cube_derotate := fun c _ _ => c;
     frame_rotate := fun f _ => f;
     tlog := fun _ => NaN;
     forward := fun m v =>
       repeat (fmul_frame (model_coro m) (fadd_frame (Lk v) (Xk v))) (model_nb_frame m);
     forward_ADI_reverse := fun m v =>
       repeat (fmul_frame (model_coro m) (fadd_frame (Lk v) (Xk v))) (model_nb_frame m);
     lbfgs_new := fun s _ => s;
     lbfgs_step := fun s _ v =>
       match s with
       | out :: s' => (s', out)
       | [] => ([], {| out_vars := v; out_loss := Fin 0%Qc; out_Rpos := Fin 0%Qc;
                       out_gradX := Fin 0%Qc; out_gradL := Fin 0%Qc |})
       end |}.

Definition frame_of (k : list (list Z)) : frame := Algo.of_ints k.

(** Three 2x2 frames and the angles of only two of them. *)
Definition cube3 : cube :=
  [frame_of [[5; 6]; [7; 8]]; frame_of [[5; 7]; [7; 9]]; frame_of [[6; 6]; [8; 8]]]%Z.
Definition angles2 : list Qc := [0%Qc; 0%Qc].

(** Two 2x2 frames with their two angles. *)
Definition cube2 : cube := [frame_of [[5; 6]; [7; 8]]; frame_of [[5; 7]; [7; 9]]]%Z.

(** A dark sequence: every pixel is 0. *)
Definition dark2 : cube := [frame_of [[0; 0]; [0; 0]]; frame_of [[0; 0]; [0; 0]]]%Z.

Definition build (c : cube) (angles : list Qc) : result estimator :=
  init scripted c angles (Some 0%Qc) (PupilStr "edge") (ofZ 5) None None.

Definition ones22 : frame := frame_of [[1; 1]; [1; 1]]%Z.
Definition zeros22 : frame := frame_of [[0; 0]; [0; 0]]%Z.

Definition stepped (L X : frame) (loss : Z) : step_out :=
  {| out_vars := {| Lk := L; Xk := X; flux_k := [1%Qc]; fluxR_k := [1%Qc] |};
     out_loss := Fin (ofZ loss); out_Rpos := Fin 0%Qc;
     out_gradX := Fin 1%Qc; out_gradL := Fin 1%Qc |}.

(** Two optimizer calls: the one inside the activation at [k = 1], then the
    step of [k = 2], whose loss is far above the one recorded at step 0. *)
Definition rising : list step_out :=
  [stepped (frame_of [[5; 6]; [7; 8]]) (frame_of [[0; 0]; [0; 0]]) 1;
   stepped (frame_of [[9; 9]; [9; 9]]) (frame_of [[3; 3]; [3; 3]]) 1000]%Z.

(** Three optimizer calls: as [rising], then a step of [k = 3] that brings
    the loss back down. *)
Definition recovering : list step_out :=
  rising ++ [stepped (frame_of [[6; 6]; [7; 7]]) (frame_of [[1; 1]; [1; 1]]) 2]%Z.

Definition with_iters (n : Z) (ka : kspec) (o : options) : options :=
  {| w_r := w_r o; w_r2 := w_r2 o; w_pcent := w_pcent o; estimI := estimI o;
     med_sub := med_sub o; weighted_rot := weighted_rot o; res_pos := res_pos o;
     w_way := w_way o; maxiter := n; gtol := gtol o; kactiv := ka;
     kdactiv := kdactiv o; init_maxL := init_maxL o; min_sub := min_sub o |}.

Definition with_subtraction (med min : bool) (o : options) : options :=
  {| w_r := w_r o; w_r2 := w_r2 o; w_pcent := w_pcent o; estimI := estimI o;
     med_sub := med; weighted_rot := weighted_rot o; res_pos := res_pos o;
     w_way := w_way o; maxiter := maxiter o; gtol := gtol o; kactiv := kactiv o;
     kdactiv := kdactiv o; init_maxL := init_maxL o; min_sub := min |}.

(** Four angles whose middle step is short. *)
Definition drifting : list Qc := [ofZ 0; ofZ 1; frac 6 5; ofZ 3].

(** Exact collaborators for a rotation by a null residual angle of a frame
    whose lines have two pixels once cropped: the two-point transform
    [(a, b) |-> (a + b, a - b)] and its inverse, the exponential at the
    quarter turns, and the tangent and sine at 0 (the only entries of their
    tables). *)
Definition two_point : Algo.fourier :=
  {| Algo.fft := fun v =>
       match v with
       | [a; b] => [Algo.cadd a b; Algo.csub a b]
       | _ => v
       end;
     Algo.ifft := fun v =>
       match v with
       | [a; b] => [Algo.cscale (frac 1 2) (Algo.cadd a b);
                    Algo.cscale (frac 1 2) (Algo.csub a b)]
       | _ => v
       end;
     Algo.expm2ipi := fun t =>
       let r := pymod t 1%Qc in
       if eqb r (frac 1 4) then {| Algo.re := 0%Qc; Algo.im := (- (1))%Qc |}
       else if eqb r (frac 1 2) then {| Algo.re := (- (1))%Qc; Algo.im := 0%Qc |}
       else if eqb r (frac 3 4) then {| Algo.re := 0%Qc; Algo.im := 1%Qc |}
       else Algo.cone;
     Algo.tan_half_deg := fun _ => 0%Qc;
     Algo.neg_sin_deg := fun _ => 0%Qc;
     Algo.frame_center := fun t =>
       (((ofZ (Z.of_nat (height t)) - (if Nat.odd (height t) then 1 else 0)) / ofZ 2)%Qc,
        ((ofZ (Z.of_nat (width t)) - (if Nat.odd (width t) then 1 else 0)) / ofZ 2)%Qc) |}.

Definition frame33 : frame := frame_of [[1; 2; 3]; [4; 5; 6]; [7; 8; 9]]%Z.
Definition frame22 : frame := frame_of [[1; 2]; [3; 4]]%Z.

End Scenario.

(** ** algo.py: [init_estimate] *)

Module AlgoInit.
Import Np.

(** What [init_estimate] takes from vip_hci: the three PCA reductions, which
    answer one frame, and the two rotations. *)
Record vip : Type := {
  pca : cube -> list Qc -> frame;
  pca_it : cube -> list Qc -> frame;
  pca_annular : cube -> list Qc -> frame;
  cube_derotate : cube -> list Qc -> cube;
  frame_rotate : frame -> Qc -> frame
}.

(** The loop [for frame_id in range(nb_frame)] that fills [L_k]; reading
    [angle_list[frame_id]] past the end of the angles is an [IndexError]. *)
Definition starlight_frames (V : vip) (science : cube) (angle_list : list Qc)
    (res : frame) : result cube :=
  if (List.length science <=? List.length angle_list)%nat then
    Ok (map2 (fun f a => fsub_frame f (clip0 (frame_rotate V res a))) science angle_list)
  else Raise (IndexError "index is out of bounds for axis 0").

(** [init_estimate] on a cube that has at least one frame. *)
Definition init_estimate (V : vip) (science : cube) (angle_list : list Qc)
    (Imode : string) : result (frame * frame) :=
  let finish res :=
    bind (starlight_frames V science angle_list res) (fun L_k =>
      Ok (clip0 (median0 L_k), clip0 res)) in
  if (Imode =? "pca")%string then finish (pca V science angle_list)
  else if (Imode =? "pcait")%string then finish (pca_it V science angle_list)
  else if (Imode =? "pca_annular")%string then finish (pca_annular V science angle_list)
  else if (Imode =? "max_common")%string then
    match cube_derotate V science angle_list with
    | [] => Raise (ValueError "zero-size array to reduction operation minimum")
    | derot => finish (amin0 derot)
    end
  else Raise (ValueError (Imode ++ " is not a valid mode to init estimator.")).

End AlgoInit.

(** ** mustard.py: [loss_ratio] and [set_init] *)

Module MustardHelpers.
Import Np Mustard.

(** [loss_ratio] on finite values: for each of the data term, [R1], [R2]
    and [Rp], the value and its share of the loss [L] in percent, flattened
    into one tuple.  [L] is a Python float, so [100/L] is a
    [ZeroDivisionError] when [L] is 0. *)
Definition loss_ratio (Ractiv : bool) (R1 R2 Rp L : Qc) : result (list Qc) :=
  if eqb L 0%Qc then Raise (ZeroDivisionError "float division by zero")
  else
    let both x := [x; (ofZ 100 / L * x)%Qc] in
    let active := if Ractiv then 1%Qc else 0%Qc in
    Ok (both (L - active * (abs R1 + abs R2) - abs Rp)%Qc
        ++ both (abs R1) ++ both (abs R2) ++ both (abs Rp)).

(** [set_init].  [AssertionError] is rendered by its base class
    [Exception]; with [RDI] set, [torch.min] is handed the numpy cube and
    rejects it. *)
Definition set_init {torch} (ext : externals torch) (self : estimator)
    (X0 L0 : option frame) (RDI : bool) : result estimator :=
  match L0, X0 with
  | None, None => Raise (Exception "At least one argument must be provided")
  | _, _ =>
      if RDI then
        Raise (TypeError "min() received an invalid combination of arguments")
      else
        let angles := rot_angles (model self) in
        match X0, L0 with
        | None, Some l =>
            let x := amin0 (cube_derotate ext
                              (map (fun f => fsub_frame f l) (science_data self))
                              angles false) in
            Ok (set_L0x0 (Some (l, x)) self)
        | Some x, None =>
            let l := amin0 (csub (science_data self)
                                 (cube_derotate ext (tile x (nb_frame self))
                                                (map Qcopp angles) false)) in
            Ok (set_L0x0 (Some (l, x)) self)
        | Some x, Some l => Ok (set_L0x0 (Some (l, x)) self)
        | None, None => Raise (Exception "At least one argument must be provided")
        end
  end.

End MustardHelpers.

(** ** neo_mayo.py: [loss_ratio] *)

Module NeoMayoHelpers.

(** The copy of neo_mayo.py has no [Rp] and lists the data term last. *)
Definition loss_ratio (Ractiv : bool) (R1 R2 L : Qc) : result (list Qc) :=
  if eqb L 0%Qc then Raise (ZeroDivisionError "float division by zero")
  else
    let both x := [x; (ofZ 100 / L * x)%Qc] in
    let active := if Ractiv then 1%Qc else 0%Qc in
    Ok (both (abs R1) ++ both (abs R2)
        ++ both (L - active * (abs R1 + abs R2))%Qc).

End NeoMayoHelpers.

(** ** neo_mayo.py: step 0 and the loop of [estimate] *)

Module NeoMayoRun.
Import Np Mustard.

(** What [self.last_iter], [self.first_iter] and [self.final_estim] hold: a
    tuple of tensor objects.  [Live] is the tuple [(Lk, Xk)] of the variables
    themselves, which the optimizer updates in place (the loop stores them
    without a copy); [Held L X] is a tuple of tensors nothing updates any
    more, such as [(L0, X0)]. *)
Inductive tuple_ref : Type :=
| Live
| Held (L X : frame).

(** The keyword arguments of [estimate] that reach the computation. *)
Record options : Type := {
  w_r : Qc;
  w_r2 : Qc;
  w_pcent : bool;
  estimI : bool;
  maxiter : Z;
  gtol : Qc;
  kactiv : kspec;
  kdactiv : option Z
}.

(** What the loop takes from [torch.optim.LBFGS]. *)
Record lbfgs (torch : Type) : Type := {
  fresh : torch -> bool -> torch;
  advance : torch -> closure_env -> vars -> torch * step_out
}.

(** [w_rp = w_r, w_r2 if w_pcent else 0, 0]: the conditional binds tighter
    than the commas, so the first entry is [w_r] whatever [w_pcent] is. *)
Definition w_rp (o : options) : fval * fval :=
  (Fin (w_r o), if w_pcent o then Fin (w_r2 o) else Fin 0%Qc).

Definition kactiv0 (o : options) : Z :=
  match kactiv o with KInt k => k | KConverg => maxiter o end.

Definition flag (b : bool) : fval := Fin (if b then 1%Qc else 0%Qc).

(** "Model and loss at step 0", from the data term [loss0] and the raw
    values [self.regul(X0)] and [self.regul2(X0, L0, self.mask)]: the two
    weights and the loss the loop starts from.  The quotients are tensor
    divisions and do not raise. *)
Definition step0 (o : options) (loss0 reg1 reg2 : fval) : fval * fval * fval :=
  let Ractiv := (kactiv0 o =? 0)%Z in
  let w1 := if w_pcent o && Ractiv then fdiv (fmul (fst (w_rp o)) loss0) reg1
            else Fin (w_r o) in
  let w2 := if w_pcent o && Ractiv then fdiv (fmul (snd (w_rp o)) loss0) reg2
            else Fin (w_r2 o) in
  let R1_0 := fmul (fmul (flag Ractiv) w1) reg1 in
  let R2_0 := fmul (fmul (flag Ractiv) w2) reg2 in
  (w1, w2, fadd loss0 (fadd R1_0 R2_0)).

(** The variables of [estimate] that its loop and nested functions mutate. *)
Record state (torch : Type) : Type := {
  nm_k : Z;
  nm_Ractiv : bool;
  nm_mink : Z;
  nm_w_r : fval;
  nm_w_r2 : fval;
  nm_vars : vars;
  nm_loss : fval;
  nm_gradX : fval;
  nm_gradL : fval;
  nm_loss_evo : list fval;
  nm_last_iter : tuple_ref;
  nm_first_iter : option tuple_ref;
  nm_final_estim : option tuple_ref;
  nm_optimizer : torch
}.

Definition set_nm_k {torch} (v : Z) (self : state torch) : state torch :=
  {| nm_k := v; nm_Ractiv := nm_Ractiv self; nm_mink := nm_mink self;
     nm_w_r := nm_w_r self; nm_w_r2 := nm_w_r2 self; nm_vars := nm_vars self;
     nm_loss := nm_loss self; nm_gradX := nm_gradX self; nm_gradL := nm_gradL self;
     nm_loss_evo := nm_loss_evo self; nm_last_iter := nm_last_iter self;
     nm_first_iter := nm_first_iter self; nm_final_estim := nm_final_estim self;
     nm_optimizer := nm_optimizer self |}.
Definition set_nm_Ractiv {torch} (v : bool) (self : state torch) : state torch :=
  {| nm_k := nm_k self; nm_Ractiv := v; nm_mink := nm_mink self; nm_w_r := nm_w_r self;
     nm_w_r2 := nm_w_r2 self; nm_vars := nm_vars self; nm_loss := nm_loss self;
     nm_gradX := nm_gradX self; nm_gradL := nm_gradL self;
     nm_loss_evo := nm_loss_evo self; nm_last_iter := nm_last_iter self;
     nm_first_iter := nm_first_iter self; nm_final_estim := nm_final_estim self;
     nm_optimizer := nm_optimizer self |}.
Definition set_nm_mink {torch} (v : Z) (self : state torch) : state torch :=
  {| nm_k := nm_k self; nm_Ractiv := nm_Ractiv self; nm_mink := v;
     nm_w_r := nm_w_r self; nm_w_r2 := nm_w_r2 self; nm_vars := nm_vars self;
     nm_loss := nm_loss self; nm_gradX := nm_gradX self; nm_gradL := nm_gradL self;
     nm_loss_evo := nm_loss_evo self; nm_last_iter := nm_last_iter self;
     nm_first_iter := nm_first_iter self; nm_final_estim := nm_final_estim self;
     nm_optimizer := nm_optimizer self |}.
Definition set_nm_w_r {torch} (v : fval) (self : state torch) : state torch :=
  {| nm_k := nm_k self; nm_Ractiv := nm_Ractiv self; nm_mink := nm_mink self;
     nm_w_r := v; nm_w_r2 := nm_w_r2 self; nm_vars := nm_vars self;
     nm_loss := nm_loss self; nm_gradX := nm_gradX self; nm_gradL := nm_gradL self;
     nm_loss_evo := nm_loss_evo self; nm_last_iter := nm_last_iter self;
     nm_first_iter := nm_first_iter self; nm_final_estim := nm_final_estim self;
     nm_optimizer := nm_optimizer self |}.
Definition set_nm_w_r2 {torch} (v : fval) (self : state torch) : state torch :=
  {| nm_k := nm_k self; nm_Ractiv := nm_Ractiv self; nm_mink := nm_mink self;
     nm_w_r := nm_w_r self; nm_w_r2 := v; nm_vars := nm_vars self;
     nm_loss := nm_loss self; nm_gradX := nm_gradX self; nm_gradL := nm_gradL self;
     nm_loss_evo := nm_loss_evo self; nm_last_iter := nm_last_iter self;
     nm_first_iter := nm_first_iter self; nm_final_estim := nm_final_estim self;
     nm_optimizer := nm_optimizer self |}.
Definition set_nm_vars {torch} (v : vars) (self : state torch) : state torch :=
  {| nm_k := nm_k self; nm_Ractiv := nm_Ractiv self; nm_mink := nm_mink self;
     nm_w_r := nm_w_r self; nm_w_r2 := nm_w_r2 self; nm_vars := v;
     nm_loss := nm_loss self; nm_gradX := nm_gradX self; nm_gradL := nm_gradL self;
     nm_loss_evo := nm_loss_evo self; nm_last_iter := nm_last_iter self;
     nm_first_iter := nm_first_iter self; nm_final_estim := nm_final_estim self;
     nm_optimizer := nm_optimizer self |}.
Definition set_nm_loss {torch} (v : fval) (self : state torch) : state torch :=
  {| nm_k := nm_k self; nm_Ractiv := nm_Ractiv self; nm_mink := nm_mink self;
     nm_w_r := nm_w_r self; nm_w_r2 := nm_w_r2 self; nm_vars := nm_vars self;
     nm_loss := v; nm_gradX := nm_gradX self; nm_gradL := nm_gradL self;
     nm_loss_evo := nm_loss_evo self; nm_last_iter := nm_last_iter self;
     nm_first_iter := nm_first_iter self; nm_final_estim := nm_final_estim self;
     nm_optimizer := nm_optimizer self |}.
Definition set_nm_gradX {torch} (v : fval) (self : state torch) : state torch :=
  {| nm_k := nm_k self; nm_Ractiv := nm_Ractiv self; nm_mink := nm_mink self;
     nm_w_r := nm_w_r self; nm_w_r2 := nm_w_r2 self; nm_vars := nm_vars self;
     nm_loss := nm_loss self; nm_gradX := v; nm_gradL := nm_gradL self;
     nm_loss_evo := nm_loss_evo self; nm_last_iter := nm_last_iter self;
     nm_first_iter := nm_first_iter self; nm_final_estim := nm_final_estim self;
     nm_optimizer := nm_optimizer self |}.
Definition set_nm_gradL {torch} (v : fval) (self : state torch) : state torch :=
  {| nm_k := nm_k self; nm_Ractiv := nm_Ractiv self; nm_mink := nm_mink self;
     nm_w_r := nm_w_r self; nm_w_r2 := nm_w_r2 self; nm_vars := nm_vars self;
     nm_loss := nm_loss self; nm_gradX := nm_gradX self; nm_gradL := v;
     nm_loss_evo := nm_loss_evo self; nm_last_iter := nm_last_iter self;
     nm_first_iter := nm_first_iter self; nm_final_estim := nm_final_estim self;
     nm_optimizer := nm_optimizer self |}.
Definition set_nm_loss_evo {torch} (v : list fval) (self : state torch) : state torch :=
  {| nm_k := nm_k self; nm_Ractiv := nm_Ractiv self; nm_mink := nm_mink self;
     nm_w_r := nm_w_r self; nm_w_r2 := nm_w_r2 self; nm_vars := nm_vars self;
     nm_loss := nm_loss self; nm_gradX := nm_gradX self; nm_gradL := nm_gradL self;
     nm_loss_evo := v; nm_last_iter := nm_last_iter self;
     nm_first_iter := nm_first_iter self; nm_final_estim := nm_final_estim self;
     nm_optimizer := nm_optimizer self |}.
Definition set_nm_last_iter {torch} (v : tuple_ref) (self : state torch) : state torch :=
  {| nm_k := nm_k self; nm_Ractiv := nm_Ractiv self; nm_mink := nm_mink self;
     nm_w_r := nm_w_r self; nm_w_r2 := nm_w_r2 self; nm_vars := nm_vars self;
     nm_loss := nm_loss self; nm_gradX := nm_gradX self; nm_gradL := nm_gradL self;
     nm_loss_evo := nm_loss_evo self; nm_last_iter := v;
     nm_first_iter := nm_first_iter self; nm_final_estim := nm_final_estim self;
     nm_optimizer := nm_optimizer self |}.
Definition set_nm_first_iter {torch} (v : option tuple_ref) (self : state torch) : state torch :=
  {| nm_k := nm_k self; nm_Ractiv := nm_Ractiv self; nm_mink := nm_mink self;
     nm_w_r := nm_w_r self; nm_w_r2 := nm_w_r2 self; nm_vars := nm_vars self;
     nm_loss := nm_loss self; nm_gradX := nm_gradX self; nm_gradL := nm_gradL self;
     nm_loss_evo := nm_loss_evo self; nm_last_iter := nm_last_iter self;
     nm_first_iter := v; nm_final_estim := nm_final_estim self;
     nm_optimizer := nm_optimizer self |}.
Definition set_nm_final_estim {torch} (v : option tuple_ref) (self : state torch) : state torch :=
  {| nm_k := nm_k self; nm_Ractiv := nm_Ractiv self; nm_mink := nm_mink self;
     nm_w_r := nm_w_r self; nm_w_r2 := nm_w_r2 self; nm_vars := nm_vars self;
     nm_loss := nm_loss self; nm_gradX := nm_gradX self; nm_gradL := nm_gradL self;
     nm_loss_evo := nm_loss_evo self; nm_last_iter := nm_last_iter self;
     nm_first_iter := nm_first_iter self; nm_final_estim := v;
     nm_optimizer := nm_optimizer self |}.
Definition set_nm_optimizer {torch} (v : torch) (self : state torch) : state torch :=
  {| nm_k := nm_k self; nm_Ractiv := nm_Ractiv self; nm_mink := nm_mink self;
     nm_w_r := nm_w_r self; nm_w_r2 := nm_w_r2 self; nm_vars := nm_vars self;
     nm_loss := nm_loss self; nm_gradX := nm_gradX self; nm_gradL := nm_gradL self;
     nm_loss_evo := nm_loss_evo self; nm_last_iter := nm_last_iter self;
     nm_first_iter := nm_first_iter self; nm_final_estim := nm_final_estim self;
     nm_optimizer := v |}.

(** [final_estim] is unset or holds the variables themselves. *)
Definition aliased {torch} (st : state torch) : Prop :=
  nm_final_estim st = None \/ nm_final_estim st = Some Live.

Section Loop.
Context {torch : Type} (opt : lbfgs torch) (o : options).
Context (regul : frame -> fval) (regul2 : frame -> frame -> fval).

(** [optimizer.step(closure)] *)
Definition step (st : state torch) : state torch :=
  let env := {| env_Ractiv := nm_Ractiv st; env_w_r := nm_w_r st;
                env_w_r2 := nm_w_r2 st |} in
  let '(t, out) := advance opt (nm_optimizer st) env (nm_vars st) in
  set_nm_optimizer t
    (set_nm_vars (out_vars out)
      (set_nm_loss (out_loss out)
        (set_nm_gradX (out_gradX out)
          (set_nm_gradL (out_gradL out) st)))).

(** [process_to_prints]: [loss_ratio] divides by [float(loss)]. *)
Definition report (st : state torch) : result (state torch) :=
  match nm_loss st with
  | Fin q => if eqb q 0%Qc then Raise (ZeroDivisionError "float division by zero")
             else Ok st
  | NaN => Ok st
  end.

(** One pass of [for activ_step in ["ACTIVATED", "AJUSTED"]] after its
    optional optimizer step. *)
Definition adjust (st : state torch) : result (state torch) :=
  let st :=
    if w_pcent o then
      set_nm_w_r (fdiv (fmul (fst (w_rp o)) (nm_loss st)) (regul (Xk (nm_vars st))))
        (set_nm_w_r2 (fdiv (fmul (snd (w_rp o)) (nm_loss st))
                           (regul2 (Xk (nm_vars st)) (Lk (nm_vars st)))) st)
    else st in
  report (set_nm_optimizer (fresh opt (nm_optimizer st) (estimI o)) st).

Definition activation (st : state torch) : result (state torch) :=
  bind (adjust st) (fun st => adjust (step st)).

(** The body of [for k in range(1, maxiter+1)]; the boolean tells whether
    it left through [break]. *)
Definition iteration (k : Z) (st : state torch) : result (state torch * bool) :=
  let st := set_nm_k k st in
  bind (if negb (kactiv0 o =? 0)%Z && (k =? kactiv0 o)%Z
        then activation (set_nm_mink (k + 2)%Z (set_nm_Ractiv true st))
        else Ok st) (fun st =>
  let st := match kdactiv o with
            | Some kd => if negb (kd =? 0)%Z && (k =? kd)%Z
                         then set_nm_Ractiv false st else st
            | None => st
            end in
  let st := step st in
  let st := if (1 <? k)%Z && fgt (nm_loss st) (last (nm_loss_evo st) NaN)
            then set_nm_final_estim (Some (nm_last_iter st)) st else st in
  let st := set_nm_loss_evo (nm_loss_evo st ++ [nm_loss st]) st in
  let st := set_nm_last_iter Live st in
  let st := if (k =? 1)%Z then set_nm_first_iter (Some Live) st else st in
  bind (report st) (fun st =>
  if (nm_mink st <? k)%Z && flt (nm_gradL st) (Fin (gtol o))
     && flt (nm_gradX st) (Fin (gtol o)) then
    if negb (nm_Ractiv st) && negb (kactiv0 o =? 0)%Z then
      bind (activation (set_nm_mink (k + 2)%Z (set_nm_Ractiv true st))) (fun st =>
      Ok (st, false))
    else Ok (st, true)
  else Ok (st, false))).

Fixpoint minimize (ks : list Z) (st : state torch) : result (state torch) :=
  match ks with
  | [] => Ok st
  | k :: ks' =>
      bind (iteration k st) (fun '(st', stop) =>
        if stop then Ok st' else minimize ks' st')
  end.

(** The tensors a stored tuple denotes once the loop is over. *)
Definition read (st : state torch) (r : tuple_ref) : frame * frame :=
  match r with
  | Live => (Lk (nm_vars st), Xk (nm_vars st))
  | Held L X => (L, X)
  end.

(** Lines 516-521: the pair that is returned. *)
Definition final_choice (coro : frame) (st : state torch) : frame * frame :=
  let n := List.length (nm_loss_evo st) in
  let chosen :=
    match nm_final_estim st with
    | Some r =>
        if (1 <? nm_k st)%Z && fgt (nm_loss st) (nth (n - 2) (nm_loss_evo st) NaN)
        then read st r else read st Live
    | None => read st Live
    end in
  (fmap abs (fst chosen), fmap abs (fmul_frame coro (snd chosen))).

End Loop.

End NeoMayoRun.

(** ** Predicates used by the properties of the estimators *)

Module Invariants.
Import Mustard.

(** Two estimators hold the same instrument description: the shapes, the
    masks, the forward model and the configured regularisers. *)
Definition same_instrument (a b : estimator) : Prop :=
  shape a = shape b /\ nb_frame a = nb_frame b /\ mask a = mask b
  /\ coro a = coro b /\ coroR a = coroR b /\ halo_fit_mask a = halo_fit_mask b
  /\ ang_shift a = ang_shift b /\ model a = model b /\ smooth a = smooth b
  /\ p_L a = p_L b /\ regul a = regul b /\ regul2 a = regul2 b.

(** What the cap [if max_rot > 1: max_rot = 1] guarantees. *)
Definition capped (max_rot : fval) : Prop :=
  forall d : Qc, flt (Fin d) max_rot = true -> (d < 1)%Qc.

(** The values of [pupil] the constructor goes through with: the string
    "edge" or a number. *)
Definition valid_pupil (p : pupil_arg) : Prop :=
  match p with
  | PupilStr s => s = "edge"%string
  | PupilNum _ => True
  | PupilNone | PupilOther => False
  end.

End Invariants.

Module Pixels.

(** Every pixel of the frame is at least 0. *)
Definition nonneg (t : frame) : Prop :=
  Forall (Forall (fun x => (0 <= x)%Qc)) t.

(** [(i, j)] is the position of a pixel of the frame. *)
Definition inside (t : frame) (i j : Z) : Prop :=
  (0 <= i < Z.of_nat (List.length t))%Z
  /\ (0 <= j < Z.of_nat (List.length (nth (Z.to_nat i) t [])))%Z.

(** Every pixel within [p] rows and [p] columns of [(i, j)] holds [c]. *)
Definition flat_around (t : frame) (i j p : Z) (c : Qc) : Prop :=
  forall a b, (i - p <= a <= i + p)%Z -> (j - p <= b <= j + p)%Z -> pix t a b = c.

(** The pixel a filter answers at [(i, j)], if it answers a frame. *)
Definition answer (r : result frame) (i j : Z) : option Qc :=
  match r with Ok f => Some (pix f i j) | Raise _ => None end.

End Pixels.

(** ** Further runs *)

Module Runs.
Import Np Mustard Scenario.

Definition with_estimI (s : string) (o : options) : options :=
  {| w_r := w_r o; w_r2 := w_r2 o; w_pcent := w_pcent o; estimI := s;
     med_sub := med_sub o; weighted_rot := weighted_rot o; res_pos := res_pos o;
     w_way := w_way o; maxiter := maxiter o; gtol := gtol o; kactiv := kactiv o;
     kdactiv := kdactiv o; init_maxL := init_maxL o; min_sub := min_sub o |}.

(** An optimizer step that leaves NaN in the loss and in the gradients. *)
Definition blown (L X : frame) : step_out :=
  {| out_vars := {| Lk := L; Xk := X; flux_k := [1%Qc]; fluxR_k := [1%Qc] |};
     out_loss := NaN; out_Rpos := Fin 0%Qc; out_gradX := NaN; out_gradL := NaN |}.

(** Collaborators of [init_estimate] for a sequence without field rotation:
    rotating is the identity and every reduction answers the pixelwise
    minimum of the cube. *)
Definition still : AlgoInit.vip :=
  {| AlgoInit.pca := fun c _ => amin0 c;
     AlgoInit.pca_it := fun c _ => amin0 c;
     AlgoInit.pca_annular := fun c _ => amin0 c;
     AlgoInit.cube_derotate := fun c _ => c;
     AlgoInit.frame_rotate := fun f _ => f |}.

(** The keyword defaults of [mayo_estimator.estimate]. *)
Definition mayo_defaults : NeoMayoRun.options :=
  {| NeoMayoRun.w_r := frac 3 100; NeoMayoRun.w_r2 := frac 3 100;
     NeoMayoRun.w_pcent := true; NeoMayoRun.estimI := false;
     NeoMayoRun.maxiter := 10; NeoMayoRun.gtol := frac 1 10000000000;
     NeoMayoRun.kactiv := KInt 0; NeoMayoRun.kdactiv := None |}.

(** An optimizer that answers from a script, as [scripted] does. *)
Definition played : NeoMayoRun.lbfgs (list step_out) :=
  {| NeoMayoRun.fresh := fun s _ => s;
     NeoMayoRun.advance := fun s _ v =>
       match s with
       | out :: s' => (s', out)
       | [] => ([], {| out_vars := v; out_loss := Fin 1%Qc; out_Rpos := Fin 0%Qc;
                       out_gradX := Fin 1%Qc; out_gradL := Fin 1%Qc |})
       end |}.

(** The loop variables of [mayo_estimator.estimate] on entry, for a loss of
    4 at step 0 and a script of two steps whose loss goes from 5 to 9. *)
Definition mayo_start : NeoMayoRun.state (list step_out) :=
  {| NeoMayoRun.nm_k := 0; NeoMayoRun.nm_Ractiv := true; NeoMayoRun.nm_mink := 2;
     NeoMayoRun.nm_w_r := Fin (frac 3 100); NeoMayoRun.nm_w_r2 := Fin (frac 3 100);
     NeoMayoRun.nm_vars := {| Lk := ones22; Xk := zeros22; flux_k := [1%Qc];
                              fluxR_k := [] |};
     NeoMayoRun.nm_loss := Fin (ofZ 4); NeoMayoRun.nm_gradX := NaN;
     NeoMayoRun.nm_gradL := NaN; NeoMayoRun.nm_loss_evo := [Fin (ofZ 4)];
     NeoMayoRun.nm_last_iter := NeoMayoRun.Held ones22 zeros22;
     NeoMayoRun.nm_first_iter := None; NeoMayoRun.nm_final_estim := None;
     NeoMayoRun.nm_optimizer :=
       [stepped (frame_of [[5; 6]; [7; 8]]) (frame_of [[1; 1]; [1; 1]]) 5;
        stepped (frame_of [[9; 9]; [9; 9]]) (frame_of [[3; 3]; [3; 3]]) 9]%Z |}.

End Runs.

(** * Properties *)

(** ** Exact scalars *)

Section Scalars.

Lemma ltb_lt (x y : Qc) : ltb x y = true <-> (x < y)%Qc.
Proof.
  unfold ltb. rewrite Qclt_alt.
  destruct (x ?= y)%Qc; split; intro H; try reflexivity; discriminate.
Qed.

Lemma ltb_ge (x y : Qc) : ltb x y = false <-> (y <= x)%Qc.
Proof.
  split; intro H.
  - apply Qcnot_lt_le. intro L. apply ltb_lt in L. congruence.
  - destruct (ltb x y) eqn:E; [|reflexivity].
    apply ltb_lt in E. exfalso. exact (Qcle_not_lt _ _ H E).
Qed.

Lemma eqb_eq (x y : Qc) : eqb x y = true <-> x = y.
Proof.
  unfold eqb. rewrite Qceq_alt.
  destruct (x ?= y)%Qc; split; intro H; try reflexivity; discriminate.
Qed.

Lemma ofZ_inj (a b : Z) : ofZ a = ofZ b -> a = b.
Proof.
  unfold ofZ. intro H. apply Q2Qc_eq_iff in H.
  unfold Qeq in H. simpl in H. lia.
Qed.

Lemma ofZ_mul (a b : Z) : (ofZ a * ofZ b)%Qc = ofZ (a * b).
Proof.
  unfold ofZ, Qcmult. apply Q2Qc_eq_iff.
  change (this (Q2Qc (inject_Z a))) with (Qred (inject_Z a)).
  change (this (Q2Qc (inject_Z b))) with (Qred (inject_Z b)).
  rewrite !Qred_correct, inject_Z_mult. reflexivity.
Qed.

Lemma ofZ_add (a b : Z) : (ofZ a + ofZ b)%Qc = ofZ (a + b).
Proof.
  unfold ofZ, Qcplus. apply Q2Qc_eq_iff.
  change (this (Q2Qc (inject_Z a))) with (Qred (inject_Z a)).
  change (this (Q2Qc (inject_Z b))) with (Qred (inject_Z b)).
  rewrite !Qred_correct, inject_Z_plus. reflexivity.
Qed.

Lemma ofZ_sub (a b : Z) : (ofZ a - ofZ b)%Qc = ofZ (a - b).
Proof.
  unfold ofZ, Qcminus, Qcplus, Qcopp. apply Q2Qc_eq_iff.
  change (this (Q2Qc (inject_Z a))) with (Qred (inject_Z a)).
  change (this (Q2Qc (inject_Z b))) with (Qred (inject_Z b)).
  change (this (Q2Qc (- Qred (inject_Z b)))) with (Qred (- Qred (inject_Z b))).
  rewrite !Qred_correct. unfold Z.sub. rewrite inject_Z_plus, inject_Z_opp.
  reflexivity.
Qed.

(** The operations of [Qc] read on the underlying fractions. *)
Lemma this_plus (a b : Qc) : (this (a + b)%Qc == this a + this b)%Q.
Proof.
  unfold Qcplus. change (this (Q2Qc (a + b))) with (Qred (a + b)). apply Qred_correct.
Qed.

Lemma this_mult (a b : Qc) : (this (a * b)%Qc == this a * this b)%Q.
Proof.
  unfold Qcmult. change (this (Q2Qc (a * b))) with (Qred (a * b)). apply Qred_correct.
Qed.

Lemma this_opp (a : Qc) : (this (- a)%Qc == - this a)%Q.
Proof.
  unfold Qcopp. change (this (Q2Qc (- a))) with (Qred (- a)). apply Qred_correct.
Qed.

Lemma this_minus (a b : Qc) : (this (a - b)%Qc == this a - this b)%Q.
Proof. unfold Qcminus. rewrite this_plus, this_opp. reflexivity. Qed.

Lemma this_ofZ (z : Z) : (this (ofZ z) == inject_Z z)%Q.
Proof.
  unfold ofZ. change (this (Q2Qc (inject_Z z))) with (Qred (inject_Z z)).
  apply Qred_correct.
Qed.

Lemma this_div_90 (a : Qc) : (this (a / ofZ 90)%Qc == this a * (1 # 90))%Q.
Proof.
  unfold Qcdiv, Qcinv. rewrite this_mult.
  change (this (Q2Qc (/ ofZ 90))) with (Qred (/ ofZ 90)). rewrite Qred_correct.
  reflexivity.
Qed.

Lemma this_half : (this (frac 1 2) == 1 # 2)%Q.
Proof. reflexivity. Qed.

(** The quotient by 90 sits between its floor and the next integer. *)
Lemma floor_by_90 (theta : Qc) :
  (inject_Z (floor (theta / ofZ 90)%Qc) * 90 <= this theta)%Q
  /\ (this theta < inject_Z (floor (theta / ofZ 90)%Qc) * 90 + 90)%Q.
Proof.
  unfold floor.
  pose proof (Qfloor_le (this (theta / ofZ 90)%Qc)) as L.
  pose proof (Qlt_floor (this (theta / ofZ 90)%Qc)) as U.
  rewrite inject_Z_plus in U.
  revert L U. generalize (inject_Z (Qfloor (this (theta / ofZ 90)%Qc))). intros z L U.
  rewrite this_div_90 in L, U.
  change (inject_Z 1) with 1%Q in U. split; lra.
Qed.

End Scalars.

(** Closes an equation between two closed rationals. *)
Ltac qc_closed := apply Qc_is_canon; vm_compute; reflexivity.

(** ** algo.py: the convolution helpers *)

Section AlgoKernels.
Import Algo.

Lemma laplacian_raises_iff (t : frame) (k : Z) :
  raises (laplacian_tensor_conv t k) <-> ~ (k = 3 \/ k = 5 \/ k = 7)%Z.
Proof.
  unfold laplacian_tensor_conv.
  destruct (Z.eqb_spec k 3); [simpl; tauto|].
  destruct (Z.eqb_spec k 5); [simpl; tauto|].
  destruct (Z.eqb_spec k 7); [simpl; tauto|].
  simpl. intuition congruence.
Qed.

Lemma gaussian_raises_iff (t : frame) (k : Z) :
  raises (gaussian_tensor_conv t k) <-> ~ (k = 3 \/ k = 5)%Z.
Proof.
  unfold gaussian_tensor_conv.
  destruct (Z.eqb_spec k 3); [simpl; tauto|].
  destruct (Z.eqb_spec k 5); [simpl; tauto|].
  simpl. intuition congruence.
Qed.

(** C8.  [laplacian_tensor_conv] raises exactly when its kernel size is
    outside {3, 5, 7} and [gaussian_tensor_conv] exactly when its kernel
    size is outside {3, 5}; on an accepted size each returns the frame
    filtered with the kernel of that size. *)
Theorem kernel_sizes_enumerated (t : frame) (k : Z) :
  (raises (laplacian_tensor_conv t k) <-> ~ (k = 3 \/ k = 5 \/ k = 7)%Z)
  /\ (raises (gaussian_tensor_conv t k) <-> ~ (k = 3 \/ k = 5)%Z)
  /\ laplacian_tensor_conv t 3 = Ok (conv2d_same t kernel3)
  /\ laplacian_tensor_conv t 5 = Ok (conv2d_same t kernel5)
  /\ laplacian_tensor_conv t 7 = Ok (conv2d_same t kernel7)
  /\ gaussian_tensor_conv t 3 = Ok (conv2d_same t gauss3)
  /\ gaussian_tensor_conv t 5 = Ok (conv2d_same t gauss5).
Proof.
  split; [apply laplacian_raises_iff|].
  split; [apply gaussian_raises_iff|].
  repeat split; reflexivity.
Qed.

(** The filtered frame has the shape of the input. *)
Lemma conv2d_same_height (t kernel : frame) :
  List.length (conv2d_same t kernel) = List.length t.
Proof.
  unfold conv2d_same, mapi.
  rewrite length_map, length_combine, length_seq. apply Nat.min_id.
Qed.

End AlgoKernels.

(** ** algo.py: the angle reduction *)

Section AngleReduction.
Import Algo Spec.

Lemma wrap_angle_in_range (angle : Qc) :
  (0 <= angle)%Qc -> (angle <= ofZ 360)%Qc -> wrap_angle angle = angle.
Proof.
  intros H0 H1. unfold wrap_angle, turns. simpl.
  assert (E : ltb angle 0%Qc = false) by (apply ltb_ge; exact H0).
  rewrite E.
  assert (E' : gtb angle (ofZ 360) = false) by (apply ltb_ge; exact H1).
  rewrite E'. reflexivity.
Qed.

(** Away from 135 and 315 degrees the reduction does realise the angle. *)
Lemma reduce_angle_realizes (theta : Qc) :
  (0 <= theta)%Qc -> (theta <= ofZ 360)%Qc -> theta <> ofZ 135 -> theta <> ofZ 315 ->
  realizes theta (angle_reduction theta).
Proof.
  intros lo hi n135 n315. unfold angle_reduction.
  rewrite wrap_angle_in_range by assumption.
  unfold reduce_angle.
  destruct (gtb theta (ofZ 45)) eqn:G.
  2: { unfold realizes; cbn [fst snd]. split.
       - unfold abs. rewrite (proj2 (ltb_ge theta 0%Qc) lo). apply ltb_ge in G. exact G.
       - exists 0%Z. apply Qc_is_canon.
         rewrite !this_mult, !this_minus, !this_plus, !this_mult, !this_ofZ.
         unfold inject_Z. lra. }
  apply ltb_lt in G.
  destruct (floor_by_90 theta) as [FL FU].
  unfold pymod, rint.
  set (q := floor (theta / ofZ 90)%Qc) in *.
  set (d := (theta - ofZ 90 * ofZ q)%Qc).
  assert (Hd : (this d == this theta - 90 * inject_Z q)%Q).
  { unfold d. rewrite this_minus, this_mult, !this_ofZ. unfold inject_Z. lra. }
  set (r := (theta / ofZ 90 - ofZ q)%Qc).
  assert (Hr : (this r == this theta * (1 # 90) - inject_Z q)%Q).
  { unfold r. rewrite this_minus, this_div_90, this_ofZ. reflexivity. }
  unfold Qclt in G. rewrite this_ofZ in G.
  unfold Qcle in lo, hi. rewrite this_ofZ in hi. change (this 0%Qc) with 0%Q in lo.
  destruct (ltb r (frac 1 2)) eqn:R1.
  - apply ltb_lt in R1. unfold Qclt in R1. rewrite Hr, this_half in R1.
    assert (D : gtb d (ofZ 45) = false).
    { apply ltb_ge. unfold Qcle. rewrite Hd, this_ofZ. unfold inject_Z in *. lra. }
    rewrite D. unfold realizes; cbn [fst snd]. split.
    + unfold abs. assert (P : ltb d 0%Qc = false).
      { apply ltb_ge. unfold Qcle. rewrite Hd. change (this 0%Qc) with 0%Q.
        unfold inject_Z in *. lra. }
      rewrite P. apply ltb_ge in D. exact D.
    + exists 0%Z. apply Qc_is_canon.
      rewrite this_minus, this_plus, !this_mult, Hd, !this_ofZ.
      unfold inject_Z. lra.
  - apply ltb_ge in R1. unfold Qcle in R1. rewrite Hr, this_half in R1.
    destruct (ltb (frac 1 2) r) eqn:R2.
    + apply ltb_lt in R2. unfold Qclt in R2. rewrite Hr, this_half in R2.
      assert (D : gtb d (ofZ 45) = true).
      { apply ltb_lt. unfold Qclt. rewrite Hd, this_ofZ. unfold inject_Z in *. lra. }
      rewrite D. unfold realizes; cbn [fst snd]. split.
      * unfold abs.
        assert (P : ltb (- (ofZ 90 - d))%Qc 0%Qc = true).
        { apply ltb_lt. unfold Qclt. rewrite this_opp, this_minus, Hd, this_ofZ.
          change (this 0%Qc) with 0%Q. unfold inject_Z in *. lra. }
        rewrite P. unfold Qcle. rewrite !this_opp, this_minus, Hd, !this_ofZ.
        unfold inject_Z in *. lra.
      * exists 0%Z. apply Qc_is_canon.
        rewrite this_minus, this_plus, !this_mult, this_opp, this_minus, Hd, !this_ofZ.
        rewrite inject_Z_plus. unfold inject_Z. lra.
    + apply ltb_ge in R2. unfold Qcle in R2. rewrite Hr, this_half in R2.
      assert (T : (this theta == 90 * inject_Z q + 45)%Q) by lra.
      assert (D : gtb d (ofZ 45) = false).
      { apply ltb_ge. unfold Qcle. rewrite Hd, this_ofZ. unfold inject_Z in *. lra. }
      rewrite D.
      assert (Q0 : (0 < q)%Z).
      { rewrite Zlt_Qlt. unfold inject_Z in *. lra. }
      assert (Q4 : (q < 4)%Z).
      { rewrite Zlt_Qlt. unfold inject_Z in *. lra. }
      assert (Q2 : q = 2%Z).
      { assert (C : (q = 1 \/ q = 2 \/ q = 3)%Z) by lia.
        destruct C as [C|[C|C]]; [exfalso|exact C|exfalso]; rewrite C in T.
        - apply n135. apply Qc_is_canon. rewrite T, this_ofZ. reflexivity.
        - apply n315. apply Qc_is_canon. rewrite T, this_ofZ. reflexivity. }
      rewrite Q2. cbn [Z.even]. unfold realizes; cbn [fst snd]. split.
      * unfold abs. assert (P : ltb d 0%Qc = false).
        { apply ltb_ge. unfold Qcle. rewrite Hd. change (this 0%Qc) with 0%Q.
          unfold inject_Z in *. lra. }
        rewrite P. apply ltb_ge in D. exact D.
      * exists 0%Z. apply Qc_is_canon.
        rewrite this_minus, this_plus, !this_mult, Hd, !this_ofZ. rewrite Q2.
        unfold inject_Z. lra.
Qed.

(** C9, at 135 degrees.  The reduction answers two quarter turns and a
    residual of 45 degrees, which add up to 225 degrees. *)
Theorem reduction_of_135_is_225 :
  angle_reduction (ofZ 135) = (2%Z, ofZ 45)
  /\ ~ realizes (ofZ 135) (angle_reduction (ofZ 135)).
Proof.
  assert (E : angle_reduction (ofZ 135) = (2%Z, ofZ 45)).
  { vm_compute. f_equal; try qc_closed. }
  split; [exact E|].
  rewrite E. intros [_ [m Hm]]. simpl in Hm.
  rewrite ofZ_mul, ofZ_add, ofZ_sub, ofZ_mul in Hm.
  apply ofZ_inj in Hm. lia.
Qed.

(** The same happens at 315 degrees: four quarter turns and 45 degrees. *)
Lemma reduction_of_315_is_45 :
  angle_reduction (ofZ 315) = (4%Z, ofZ 45)
  /\ ~ realizes (ofZ 315) (angle_reduction (ofZ 315)).
Proof.
  assert (E : angle_reduction (ofZ 315) = (4%Z, ofZ 45)).
  { vm_compute. f_equal; try qc_closed. }
  split; [exact E|].
  rewrite E. intros [_ [m Hm]]. simpl in Hm.
  rewrite ofZ_mul, ofZ_add, ofZ_sub, ofZ_mul in Hm.
  apply ofZ_inj in Hm. lia.
Qed.

End AngleReduction.

(** ** mustard.py: configuration of the regularisers *)

Section Configuration.
Import Mustard Scenario Spec.

Lemma configR1_never_raises (self : estimator) (mode : string) (smoothL : bool)
    (p epsi : Qc) :
  ~ raises (configR1 self mode smoothL p epsi).
Proof. unfold configR1. intro H. exact H. Qed.

Lemma smooth_set_p_L (v : Qc) (self : estimator) : smooth (set_p_L v self) = smooth self.
Proof. reflexivity. Qed.

Lemma smooth_set_regul (v : option regul_mode) (self : estimator) :
  smooth (set_regul v self) = smooth self.
Proof. reflexivity. Qed.

(** A mode outside the four accepted ones leaves [self.smooth] as it was. *)
Lemma configR1_unknown_mode (self : estimator) (mode : string) (smoothL : bool)
    (p epsi : Qc) :
  ~ accepted_R1 mode ->
  exists self', configR1 self mode smoothL p epsi = Ok self'
                /\ smooth self' = smooth self /\ p_L self' = p.
Proof.
  intro H. unfold configR1.
  destruct (String.eqb_spec mode "smooth_with_edges");
    [exfalso; apply H; subst; unfold accepted_R1; simpl; auto 6|].
  destruct (String.eqb_spec mode "smooth");
    [exfalso; apply H; subst; unfold accepted_R1; simpl; auto 6|].
  destruct (String.eqb_spec mode "peak_preservation");
    [exfalso; apply H; subst; unfold accepted_R1; simpl; auto 6|].
  destruct (String.eqb_spec mode "l1");
    [exfalso; apply H; subst; unfold accepted_R1; simpl; auto 6|].
  eexists. split; [reflexivity|].
  destruct smoothL; split; reflexivity.
Qed.

(** C6, on the mode "laplacian".  [configR1] returns normally on an
    estimator of any state: the smoothness lambda stays the one configured
    before, only [p_L] and [regul] are rebound. *)
Theorem configR1_accepts_unknown_mode :
  ~ accepted_R1 "laplacian"
  /\ forall self : estimator,
       exists self', configR1 self "laplacian" true 1%Qc (frac 1 10000000) = Ok self'
                     /\ smooth self' = smooth self
                     /\ regul self' = Some RegulXL.
Proof.
  split.
  - unfold accepted_R1. simpl. intuition discriminate.
  - intro self. eexists. split; [reflexivity|]. split; reflexivity.
Qed.

(** With mode "dist" and penaliz "L", whatever the case of the letter, the
    regulariser that is stored measures the distance to [X]. *)
Lemma configR2_dist_L {torch} (ext : externals torch) (self : estimator) (M : frame)
    (invert : bool) (p_w : Qc) :
  Tensor.shape M = frame_shape (model self) ->
  exists self',
    configR2 ext self (Some M) "dist" "L" invert p_w = Ok self'
    /\ regul2 self' = Some (fun X L M' => Fin (masked_sq_dist (coro self) M' X))
    /\ mask self' = Tens M.
Proof.
  intro Hs. unfold configR2.
  change (("dist" =? "pdi")%string) with false. cbv iota.
  change (("dist" =? "l1")%string) with false. cbv iota.
  rewrite Hs, !Nat.eqb_refl. simpl negb. cbv iota.
  eexists. split; [reflexivity|]. split; reflexivity.
Qed.

(** The stored regulariser does not look at [L]. *)
Lemma configR2_dist_L_ignores_L {torch} (ext : externals torch) (self self' : estimator)
    (M : frame) (invert : bool) (p_w : Qc) (f : regul2_fn) :
  Tensor.shape M = frame_shape (model self) ->
  configR2 ext self (Some M) "dist" "L" invert p_w = Ok self' ->
  regul2 self' = Some f ->
  forall X L L' M', f X L M' = f X L' M'.
Proof.
  intros Hs Hc Hf.
  destruct (configR2_dist_L ext self invert p_w Hs) as [s [E [R _]]].
  rewrite E in Hc. injection Hc as <-. rewrite R in Hf. injection Hf as <-.
  reflexivity.
Qed.

(** The copy of [configR2] in neo_mayo.py stores the same lambda. *)
Lemma neo_mayo_configR2_dist_L (self : NeoMayo.estimator) (M : frame) (invert : bool) :
  Tensor.shape M = NeoMayo.frame_shape self ->
  exists self',
    NeoMayo.configR2 self (Some M) "dist" "L" invert = Ok self'
    /\ NeoMayo.regul2 self'
       = (fun X L M' => Fin (NeoMayo.masked_sq_dist (NeoMayo.coroR self) M' X))
    /\ NeoMayo.mask self' = Tens M.
Proof.
  intro Hs. unfold NeoMayo.configR2.
  change (("dist" =? "l1")%string) with false. cbv iota.
  rewrite Hs, !Nat.eqb_refl. simpl negb. cbv iota.
  eexists. split; [reflexivity|]. split; reflexivity.
Qed.

(** C4, on a 2x2 frame with [X = 0] and [L = M = 1].  The distance
    between the prior mask and [L] is 0; the configured regulariser
    answers 4, the distance between the mask and [X]. *)
Theorem dist_on_L_measures_X :
  exists (self self' : estimator) (f : regul2_fn),
    build cube2 angles2 = Ok self
    /\ configR2 scripted self (Some ones22) "dist" "L" false (ofZ 2) = Ok self'
    /\ regul2 self' = Some f
    /\ f zeros22 ones22 (mask self') = Fin (ofZ 4)
    /\ masked_distance (coro self) ones22 ones22 = 0%Qc.
Proof.
  eexists. eexists. eexists.
  split; [vm_compute; reflexivity|].
  split; [vm_compute; reflexivity|].
  split; [vm_compute; reflexivity|].
  split.
  - vm_compute. f_equal; try qc_closed.
  - qc_closed.
Qed.

End Configuration.

(** ** mustard.py: construction *)

Section Construction.
Import Mustard Scenario.

(** The test that guards the "does not match" error compares the frame
    count of the model with itself. *)
Lemma shape_guard_is_dead (m : model_ADI) :
  negb (model_nb_frame m =? model_nb_frame m)%nat = false.
Proof. rewrite Nat.eqb_refl. reflexivity. Qed.

Lemma configR2_default {torch} (ext : externals torch) (self : estimator) :
  configR2 ext self None "l1" "X" false (ofZ 2)
  = Ok (set_config (match config self with
                    | c0 :: _ :: rest => c0 :: Some "l1 on X"%string :: rest
                    | other => other
                    end)
          (set_regul2 (Some (fun X L M => Fin (tsum (sq X)))) self)).
Proof. reflexivity. Qed.

Lemma configR1_default (self : estimator) (epsi : Qc) :
  configR1 self "smooth" true 1%Qc epsi
  = Ok (set_regul (Some RegulXL) (set_p_L 1%Qc (set_smooth (Some Smooth) self))).
Proof. reflexivity. Qed.

(** Whatever the lengths of the cube and of the angle list, the constructor
    succeeds as soon as both are non-empty and the pupil is a radius. *)
Lemma init_ignores_lengths {torch} (ext : externals torch) (f0 : frame) (sd : cube)
    (a0 : Qc) (an : list Qc) (coro0 : option Qc) (r hf : Qc) (psf : option frame) :
  exists self,
    init ext (f0 :: sd) (a0 :: an) coro0 (PupilNum r) hf psf None = Ok self
    /\ nb_frame self = S (List.length sd)
    /\ model_nb_frame (model self) = S (List.length an).
Proof.
  unfold init. cbn [bind]. unfold normlizangle, find_nearest. cbn [map bind].
  rewrite shape_guard_is_dead, configR2_default. cbn [bind].
  rewrite configR1_default.
  eexists. split; [reflexivity|]. split; [reflexivity|].
  unfold model_nb_frame. cbn [model set_regul set_p_L set_smooth set_config set_regul2
                              rot_angles List.length].
  rewrite !length_map. reflexivity.
Qed.

(** C1, on three frames with two angles.  The constructor returns an
    estimator whose cube has three frames and whose model has two. *)
Theorem init_accepts_mismatch :
  forall (torch : Type) (ext : externals torch),
  exists self,
    init ext cube3 angles2 (Some 0%Qc) (PupilStr "edge") (ofZ 5) None None = Ok self
    /\ nb_frame self = 3%nat
    /\ model_nb_frame (model self) = 2%nat.
Proof.
  intros torch ext. eexists.
  split; [vm_compute; reflexivity|].
  split; reflexivity.
Qed.

Lemma compute_rot_weight_length (angs : list Qc) :
  List.length (compute_rot_weight angs) = List.length angs.
Proof.
  unfold compute_rot_weight, mapi.
  rewrite length_map, length_combine, length_seq. apply Nat.min_id.
Qed.

(** The mismatch only surfaces later, and only with rotation weights on:
    [estimate] then fails while reshaping the weights. *)
Lemma estimate_fails_on_mismatch {torch} (ext : externals torch) (opt0 : torch)
    (self : estimator) (o : options) :
  weighted_rot o = true ->
  List.length (rot_angles (model self)) <> nb_frame self ->
  estimate ext opt0 self o = Raise (ValueError "cannot reshape array").
Proof.
  intros Hw Hl. unfold estimate, estimate_setup, weigh_frames. rewrite Hw.
  cbn [model name_estimI set_config nb_frame].
  rewrite compute_rot_weight_length.
  destruct (Nat.eqb_spec (List.length (rot_angles (model self))) (nb_frame self));
    [contradiction|].
  reflexivity.
Qed.

End Construction.

(** ** The two copies of [compute_rot_weight] *)

Section RotationWeights.
Import Np Scenario.

Lemma Qc_add_pos (x y : Qc) : (0 < x)%Qc -> (0 <= y)%Qc -> (0 < x + y)%Qc.
Proof.
  unfold Qclt, Qcle, Qcplus. intros Hx Hy.
  change (this (Q2Qc (x + y))) with (Qred (x + y)).
  rewrite Qred_correct.
  change (this 0%Qc) with 0%Q in *.
  apply Qlt_le_trans with (y := (this x + 0)%Q).
  - rewrite Qplus_0_r. exact Hx.
  - apply Qplus_le_r. exact Hy.
Qed.

Lemma Qc_div_pos (x y : Qc) : (0 < x)%Qc -> (0 < y)%Qc -> (0 < x / y)%Qc.
Proof.
  unfold Qclt, Qcdiv, Qcmult, Qcinv. intros Hx Hy.
  change (this 0%Qc) with 0%Q in *.
  change (this (Q2Qc (x * Q2Qc (/ y)))) with (Qred (x * Qred (/ y))).
  rewrite !Qred_correct.
  apply Qmult_lt_0_compat; [exact Hx|].
  apply Qinv_lt_0_compat. exact Hy.
Qed.

Lemma abs_nonneg (x : Qc) : (0 <= abs x)%Qc.
Proof.
  unfold abs. destruct (ltb x 0%Qc) eqn:E.
  - apply ltb_lt in E. apply Qclt_le_weak in E.
    apply Qcopp_le_compat in E. exact E.
  - apply ltb_ge in E. exact E.
Qed.

Lemma ofZ_pos (z : Z) : (0 < z)%Z -> (0 < ofZ z)%Qc.
Proof.
  intro H. unfold Qclt, ofZ.
  change (this (Q2Qc (inject_Z z))) with (Qred (inject_Z z)).
  rewrite Qred_correct. change (this 0%Qc) with (inject_Z 0).
  rewrite <- Zlt_Qlt. exact H.
Qed.

Lemma one_pos : (0 < 1)%Qc.
Proof. reflexivity. Qed.

(** The two loops and the loop body are the same text in both files. *)
Lemma neighbours_after_same (fuel : nat) (angs : list Qc) (max_rot : fval)
    (id_ang tmp_id nb : Z) (d : Qc) :
  NeoMayo.neighbours_after fuel angs max_rot id_ang tmp_id nb d
  = Mustard.neighbours_after fuel angs max_rot id_ang tmp_id nb d.
Proof.
  revert tmp_id nb d. induction fuel as [|fuel IH]; intros tmp_id nb d; simpl.
  - reflexivity.
  - destruct (flt (Fin d) max_rot && (tmp_id <? Z.of_nat (List.length angs) - 1)%Z).
    + apply IH.
    + reflexivity.
Qed.

Lemma neighbours_before_same (fuel : nat) (angs : list Qc) (max_rot : fval)
    (id_ang tmp_id nb : Z) (d : Qc) :
  NeoMayo.neighbours_before fuel angs max_rot id_ang tmp_id nb d
  = Mustard.neighbours_before fuel angs max_rot id_ang tmp_id nb d.
Proof.
  revert tmp_id nb d. induction fuel as [|fuel IH]; intros tmp_id nb d; simpl.
  - reflexivity.
  - destruct (flt (Fin d) max_rot && (0 <? tmp_id)%Z).
    + apply IH.
    + reflexivity.
Qed.

Lemma frame_weight_same (angs : list Qc) (max_rot : fval) (id_ang : Z) :
  NeoMayo.frame_weight angs max_rot id_ang = Mustard.frame_weight angs max_rot id_ang.
Proof.
  unfold NeoMayo.frame_weight, Mustard.frame_weight.
  rewrite neighbours_after_same, neighbours_before_same. reflexivity.
Qed.

Lemma max_rot_same (angs : list Qc) : NeoMayo.max_rot_of angs = Mustard.max_rot_of angs.
Proof. reflexivity. Qed.

Lemma unscaled_weights_same (angs : list Qc) :
  mapi (fun id_ang _ => NeoMayo.frame_weight angs (NeoMayo.max_rot_of angs) id_ang) angs
  = Mustard.compute_rot_weight angs.
Proof.
  unfold Mustard.compute_rot_weight, mapi. rewrite max_rot_same.
  apply map_ext. intros [i a]. apply frame_weight_same.
Qed.

Lemma half_weight_pos (nb : Z) (d : Qc) :
  (0 < (if (1 <? nb)%Z then (1 + abs d) / ofZ nb else 1))%Qc.
Proof.
  destruct (Z.ltb_spec 1 nb).
  - apply Qc_div_pos.
    + apply Qc_add_pos; [apply one_pos | apply abs_nonneg].
    + apply ofZ_pos. lia.
  - apply one_pos.
Qed.

(** Every weight is positive. *)
Lemma frame_weight_pos (angs : list Qc) (max_rot : fval) (id_ang : Z) :
  (0 < Mustard.frame_weight angs max_rot id_ang)%Qc.
Proof.
  unfold Mustard.frame_weight.
  apply Qc_div_pos; [|apply ofZ_pos; lia].
  apply Qc_add_pos.
  - apply half_weight_pos.
  - apply Qclt_le_weak, half_weight_pos.
Qed.

Lemma qsum_pos (l : list Qc) :
  l <> [] -> Forall (fun w => (0 < w)%Qc) l -> (0 < qsum l)%Qc.
Proof.
  intros Hne Hall. destruct l as [|w l]; [contradiction|]. clear Hne.
  revert w Hall. induction l as [|v l IH]; intros w Hall; simpl.
  - inversion Hall; subst. rewrite Qcplus_0_r. assumption.
  - inversion Hall; subst. apply Qc_add_pos; [assumption|].
    apply Qclt_le_weak. apply (IH v). assumption.
Qed.

Lemma mustard_weights_pos (angs : list Qc) :
  Forall (fun w => (0 < w)%Qc) (Mustard.compute_rot_weight angs).
Proof.
  unfold Mustard.compute_rot_weight, mapi.
  apply Forall_forall. intros w Hin. apply in_map_iff in Hin.
  destruct Hin as [[i a] [<- _]]. apply frame_weight_pos.
Qed.

Lemma mustard_weights_sum_pos (angs : list Qc) :
  angs <> [] -> (0 < qsum (Mustard.compute_rot_weight angs))%Qc.
Proof.
  intro Hne. apply qsum_pos; [|apply mustard_weights_pos].
  intro E. apply (f_equal (@List.length Qc)) in E.
  rewrite compute_rot_weight_length in E. destruct angs; [contradiction|discriminate].
Qed.

(** C10, as the code has it.  On a non-empty angle list the array of
    neo_mayo.py is the array of mustard.py with every weight multiplied by
    the number of frames over the sum of the weights. *)
Theorem rot_weight_is_rescaled (angs : list Qc) :
  angs <> [] ->
  NeoMayo.compute_rot_weight angs
  = Ok (map (fun w => (w * (ofZ (Z.of_nat (List.length angs))
                            / qsum (Mustard.compute_rot_weight angs)))%Qc)
            (Mustard.compute_rot_weight angs)).
Proof.
  intro Hne. unfold NeoMayo.compute_rot_weight.
  rewrite unscaled_weights_same.
  destruct (eqb (qsum (Mustard.compute_rot_weight angs)) 0%Qc) eqn:E.
  - apply eqb_eq in E. pose proof (mustard_weights_sum_pos Hne) as P.
    rewrite E in P. exfalso. exact (Qclt_not_eq _ _ P eq_refl).
  - reflexivity.
Qed.

Lemma rot_weight_is_rescaled_witness :
  drifting <> []
  /\ NeoMayo.compute_rot_weight drifting
     = Ok (map (fun w => (w * (ofZ (Z.of_nat (List.length drifting))
                               / qsum (Mustard.compute_rot_weight drifting)))%Qc)
               (Mustard.compute_rot_weight drifting)).
Proof.
  split; [discriminate|].
  apply (rot_weight_is_rescaled (angs := drifting)). discriminate.
Defined.

(** C10, as stated, fails on the angles 0, 1, 1.2, 3: mustard.py weighs the
    first frame 1, neo_mayo.py weighs it 10/9. *)
Lemma rot_weight_copies_differ :
  NeoMayo.compute_rot_weight drifting <> Ok (Mustard.compute_rot_weight drifting).
Proof.
  intro H.
  apply (f_equal (fun r => match r with
                           | Ok (w :: _) => this w
                           | _ => 0%Q
                           end)) in H.
  vm_compute in H. discriminate H.
Qed.

End RotationWeights.

(** ** algo.py: the wrapping loops terminate within their fuel *)

Section AngleWrapping.
Import Algo Spec.

Lemma this_div_360 (a : Qc) : (this (a / ofZ 360)%Qc == this a * (1 # 360))%Q.
Proof.
  unfold Qcdiv, Qcinv. rewrite this_mult.
  change (this (Q2Qc (/ ofZ 360))) with (Qred (/ ofZ 360)). rewrite Qred_correct.
  reflexivity.
Qed.

Lemma inject_succ (n : nat) :
  (inject_Z (Z.of_nat (S n)) == inject_Z (Z.of_nat n) + 1)%Q.
Proof. rewrite Nat2Z.inj_succ. unfold Z.succ. rewrite inject_Z_plus. reflexivity. Qed.

Lemma wrap_up_range (fuel : nat) (a : Qc) :
  (- (360 * inject_Z (Z.of_nat fuel)) <= this a)%Q ->
  (0 <= this (wrap_up fuel a))%Q
  /\ ((0 <= this a)%Q -> wrap_up fuel a = a)
  /\ ((this a < 0)%Q -> (this (wrap_up fuel a) < 360)%Q).
Proof.
  revert a. induction fuel as [|fuel IH]; intros a H.
  - change (inject_Z (Z.of_nat 0)) with 0%Q in H. cbn [wrap_up].
    split; [lra|]. split; [reflexivity|]. intro. lra.
  - rewrite inject_succ in H. cbn [wrap_up].
    destruct (ltb a 0%Qc) eqn:E.
    + apply ltb_lt in E. unfold Qclt in E. change (this 0%Qc) with 0%Q in E.
      assert (H' : (- (360 * inject_Z (Z.of_nat fuel)) <= this (a + ofZ 360)%Qc)%Q).
      { rewrite this_plus, this_ofZ. unfold inject_Z at 2. lra. }
      destruct (IH _ H') as [P [Q R]].
      split; [exact P|]. split; [intro; lra|]. intros _.
      destruct (Qlt_le_dec (this (a + ofZ 360)%Qc) 0) as [N|N].
      * apply R. exact N.
      * rewrite (Q N). rewrite this_plus, this_ofZ. unfold inject_Z. lra.
    + apply ltb_ge in E. unfold Qcle in E. change (this 0%Qc) with 0%Q in E.
      split; [exact E|]. split; [reflexivity|]. intro. lra.
Qed.

Lemma wrap_down_range (fuel : nat) (a : Qc) :
  (0 <= this a)%Q -> (this a <= 360 * (inject_Z (Z.of_nat fuel) + 1))%Q ->
  (0 <= this (wrap_down fuel a))%Q /\ (this (wrap_down fuel a) <= 360)%Q.
Proof.
  revert a. induction fuel as [|fuel IH]; intros a H0 H.
  - change (inject_Z (Z.of_nat 0)) with 0%Q in H. cbn [wrap_down]. split; lra.
  - rewrite inject_succ in H. cbn [wrap_down].
    destruct (gtb a (ofZ 360)) eqn:E.
    + apply ltb_lt in E. unfold Qclt in E. rewrite this_ofZ in E. unfold inject_Z in E.
      apply IH; rewrite this_minus, this_ofZ; unfold inject_Z at 1; lra.
    + apply ltb_ge in E. unfold Qcle in E. rewrite this_ofZ in E. unfold inject_Z in E.
      split; lra.
Qed.

Lemma turns_bound (a : Qc) :
  (this (abs a) < 360 * inject_Z (Z.of_nat (turns a)))%Q.
Proof.
  unfold turns. rewrite inject_succ.
  pose proof (abs_nonneg a) as P. unfold Qcle in P. change (this 0%Qc) with 0%Q in P.
  assert (F0 : (0 <= floor (abs a / ofZ 360)%Qc)%Z).
  { unfold floor. change 0%Z with (Qfloor 0). apply Qfloor_resp_le.
    rewrite this_div_360. lra. }
  rewrite Z2Nat.id by exact F0.
  pose proof (Qlt_floor (this (abs a / ofZ 360)%Qc)) as U.
  rewrite inject_Z_plus in U. unfold floor.
  revert U. generalize (inject_Z (Qfloor (this (abs a / ofZ 360)%Qc))). intros z U.
  rewrite this_div_360 in U. change (inject_Z 1) with 1%Q in U. lra.
Qed.

Lemma abs_bounds (a : Qc) : (- this (abs a) <= this a)%Q /\ (this a <= this (abs a))%Q.
Proof.
  unfold abs. destruct (ltb a 0%Qc) eqn:E.
  - apply ltb_lt in E. unfold Qclt in E. change (this 0%Qc) with 0%Q in E.
    rewrite this_opp. split; lra.
  - apply ltb_ge in E. unfold Qcle in E. change (this 0%Qc) with 0%Q in E. split; lra.
Qed.

(** The two loops have fuel enough: the wrapped angle lies in [0, 360]. *)
Lemma wrap_angle_range (a : Qc) :
  (0 <= wrap_angle a)%Qc /\ (wrap_angle a <= ofZ 360)%Qc.
Proof.
  unfold wrap_angle, Qcle. rewrite this_ofZ. change (this 0%Qc) with 0%Q.
  change (inject_Z 360) with 360%Q.
  pose proof (turns_bound a) as T. destruct (abs_bounds a) as [A1 A2].
  destruct (@wrap_up_range (turns a) a) as [P [Q R]]; [lra|].
  apply wrap_down_range; [exact P|].
  destruct (Qlt_le_dec (this a) 0) as [N|N].
  - specialize (R N).
    assert (0 <= inject_Z (Z.of_nat (turns a)))%Q.
    { change 0%Q with (inject_Z 0). rewrite <- Zle_Qle. lia. }
    lra.
  - rewrite (Q N). lra.
Qed.

(** Hence, for any input angle, the reduction realises the wrapped angle
    unless that angle is 135 or 315 degrees. *)
Lemma angle_reduction_realizes (a : Qc) :
  wrap_angle a <> ofZ 135 -> wrap_angle a <> ofZ 315 ->
  realizes (wrap_angle a) (angle_reduction a).
Proof.
  intros H1 H2. destruct (wrap_angle_range a) as [L U].
  pose proof (reduce_angle_realizes L U H1 H2) as R.
  unfold angle_reduction in *.
  rewrite (wrap_angle_in_range L U) in R. exact R.
Qed.

End AngleWrapping.

(** ** mustard.py: [estimate] before the loop *)

Section EstimateSetup.
Import Np Mustard Scenario Spec.
Context {torch : Type} (ext : externals torch) (opt0 : torch).

Lemma weigh_frames_keeps (o : options) (self self1 : estimator) :
  weigh_frames o self = Ok self1 ->
  science_data self1 = science_data self /\ coro self1 = coro self
  /\ nb_frame self1 = nb_frame self /\ model self1 = model self
  /\ science_data_ori self1 = science_data_ori self.
Proof.
  unfold weigh_frames. destruct (weighted_rot o).
  - destruct (_ =? _)%nat; [|discriminate].
    intro H. injection H as <-. repeat split; reflexivity.
  - intro H. injection H as <-. repeat split; reflexivity.
Qed.

Lemma decompose_data (self s' : estimator) :
  science_data self = science_data s' -> nb_frame self = nb_frame s' ->
  model self = model s' ->
  science_data (decompose ext self) = science_data (decompose ext s')
  /\ science_data_ori (decompose ext self) = Some (science_data s').
Proof.
  intros Hd Hn Hm. unfold decompose.
  cbn [science_data science_data_ori set_science_data set_science_data_ori
       set_stellar_halo set_ambiguities set_speckles nb_frame model].
  rewrite Hd, Hn, Hm. split; reflexivity.
Qed.

Lemma median_subtract_data (self s' : estimator) :
  science_data self = science_data s' -> coro self = coro s' ->
  science_data (median_subtract self) = science_data (median_subtract s').
Proof.
  intros Hd Hc. unfold median_subtract. cbn [science_data set_science_data].
  rewrite Hd, Hc. reflexivity.
Qed.

(** What [prepare_cube] stores only depends on the cube, the coronagraph
    mask, the frame count and the model. *)
Lemma prepare_cube_data (o : options) (self s' : estimator) :
  science_data self = science_data s' -> coro self = coro s' ->
  nb_frame self = nb_frame s' -> model self = model s' ->
  science_data_ori self = science_data_ori s' ->
  science_data (prepare_cube ext o self) = science_data (prepare_cube ext o s')
  /\ science_data_ori (prepare_cube ext o self)
     = science_data_ori (prepare_cube ext o s').
Proof.
  intros Hd Hc Hn Hm Ho. unfold prepare_cube.
  destruct (med_sub o), (min_sub o).
  - destruct (@decompose_data (median_subtract self) (median_subtract s')) as [A B];
      try assumption.
    + apply median_subtract_data; assumption.
    + split; [exact A|]. rewrite B. reflexivity.
  - split; [apply median_subtract_data; assumption | exact Ho].
  - destruct (@decompose_data self s') as [A B]; try assumption.
    split; [exact A|]. rewrite B. reflexivity.
  - split; assumption.
Qed.

Lemma initial_guess_keeps (o : options) (derot : cube) (self : estimator) :
  science_data (initial_guess ext o derot self) = science_data self
  /\ science_data_ori (initial_guess ext o derot self) = science_data_ori self
  /\ mask (initial_guess ext o derot self) = mask self.
Proof. unfold initial_guess. destruct (init_maxL o); repeat split; reflexivity. Qed.

(** The shape of a successful [estimate_setup]. *)
Lemma estimate_setup_inv (self : estimator) (o : options) (p : prepared torch) :
  estimate_setup ext opt0 self o = Ok p ->
  exists self1 derot L0 X0,
    weigh_frames o (name_estimI (capitalize (estimI o)) self) = Ok self1
    /\ pr_self p = initial_guess ext o derot (prepare_cube ext o self1)
    /\ L0x0 (pr_self p) = Some (L0, X0)
    /\ pr_state p = initial_state ext opt0 (pr_self p) o (pr_smooth p) (pr_regul p)
                                  (pr_regul2 p) derot L0 X0.
Proof.
  unfold estimate_setup.
  destruct (weigh_frames o (name_estimI (capitalize (estimI o)) self))
    as [self1|e] eqn:W; cbn [bind]; [|discriminate].
  destruct (capitalize (estimI o) =? "Halo")%string; [discriminate|].
  set (derot := cube_derotate ext _ _ true).
  destruct (L0x0 (initial_guess ext o derot (prepare_cube ext o self1)))
    as [[L0 X0]|] eqn:EL; [|discriminate].
  destruct (smooth _); [|discriminate].
  destruct (regul _); [|discriminate].
  destruct (regul2 _); [|discriminate].
  intro H. injection H as <-. cbn [pr_self pr_state pr_smooth pr_regul pr_regul2].
  exists self1, derot, L0, X0. repeat split; try reflexivity. exact EL.
Qed.

(** The cube an estimator holds when the loop is entered. *)
Lemma estimate_setup_cube (self : estimator) (o : options) (p : prepared torch) :
  estimate_setup ext opt0 self o = Ok p ->
  science_data (pr_self p) = science_data (prepare_cube ext o self)
  /\ science_data_ori (pr_self p) = science_data_ori (prepare_cube ext o self).
Proof.
  intro H. destruct (estimate_setup_inv _ _ H) as [self1 [derot [L0 [X0 [W [E _]]]]]].
  rewrite E.
  destruct (initial_guess_keeps o derot (prepare_cube ext o self1)) as [A [B _]].
  rewrite A, B.
  destruct (weigh_frames_keeps _ _ W) as [Hd [Hc [Hn [Hm Ho]]]].
  apply prepare_cube_data; assumption.
Qed.

Lemma flt_negative (x : fval) : flt x (Fin 0%Qc) = true <-> negative x.
Proof.
  unfold flt, fgt, gtb, negative. destruct x as [q|].
  - apply ltb_lt.
  - split; [discriminate | contradiction].
Qed.

Lemma truthy_Fin (q : Qc) : truthy (Fin q) = true <-> q <> 0%Qc.
Proof.
  unfold truthy. destruct (eqb q 0%Qc) eqn:E; simpl.
  - apply eqb_eq in E. split; [discriminate | contradiction].
  - split; [|reflexivity]. intros _ Hq. apply eqb_eq in Hq. congruence.
Qed.

(** The fall-back of lines 551-560, on its own. *)
Lemma auto_weights_kactiv (a b : Qc) (loss0 reg1 reg2 : fval) (k : Z) :
  snd (auto_weights (Fin a, Fin b) loss0 reg1 reg2 k)
  = if (truthy (Fin a) && flt reg1 (Fin 0%Qc)) || (truthy (Fin b) && flt reg2 (Fin 0%Qc))
    then 2%Z else k.
Proof. reflexivity. Qed.

Lemma auto_weights_zero_value (a b : Qc) (loss0 reg2 : fval) (k : Z) :
  fst (fst (auto_weights (Fin a, Fin b) loss0 (Fin 0%Qc) reg2 k)) = Fin 0%Qc.
Proof.
  unfold auto_weights. cbn [fst snd].
  replace (fgt (Fin 0%Qc) (Fin 0%Qc)) with false by reflexivity.
  rewrite andb_false_r. reflexivity.
Qed.

Lemma auto_weights_zero_value2 (a b : Qc) (loss0 reg1 : fval) (k : Z) :
  snd (fst (auto_weights (Fin a, Fin b) loss0 reg1 (Fin 0%Qc) k)) = Fin 0%Qc.
Proof.
  unfold auto_weights. cbn [fst snd].
  replace (fgt (Fin 0%Qc) (Fin 0%Qc)) with false by reflexivity.
  rewrite andb_false_r. reflexivity.
Qed.

(** C5, as the code has it.  With percentage weights and regularisation
    active from step 0 ([kactiv = 0]), [estimate] enters its loop with
    [kactiv = 2] exactly when a raw regularisation value whose percentage is
    not zero is strictly negative; otherwise [kactiv] stays 0.  A raw value
    that is exactly zero gives the weight 0. *)
Theorem fallback_needs_negative_value (self : estimator) (o : options)
    (p : prepared torch) :
  estimate_setup ext opt0 self o = Ok p ->
  w_pcent o = true ->
  kactiv o = KInt 0 ->
  exists L0 X0,
    L0x0 (pr_self p) = Some (L0, X0)
    /\ (st_kactiv (pr_state p) = 2%Z
        <-> (w_r o <> 0%Qc
             /\ negative (eval_regul ext (pr_self p) (pr_smooth p) (pr_regul p) X0 L0))
            \/ (w_r2 o <> 0%Qc
                /\ negative (pr_regul2 p X0 L0 (mask (pr_self p)))))
    /\ (st_kactiv (pr_state p) = 2%Z \/ st_kactiv (pr_state p) = 0%Z)
    /\ (eval_regul ext (pr_self p) (pr_smooth p) (pr_regul p) X0 L0 = Fin 0%Qc ->
        st_w_r (pr_state p) = Fin 0%Qc)
    /\ (pr_regul2 p X0 L0 (mask (pr_self p)) = Fin 0%Qc ->
        st_w_r2 (pr_state p) = Fin 0%Qc).
Proof.
  intros H Hp Hk.
  destruct (estimate_setup_inv _ _ H) as [self1 [derot [L0 [X0 [_ [_ [EL ES]]]]]]].
  exists L0, X0. split; [exact EL|].
  rewrite ES. unfold initial_state. rewrite Hp, Hk.
  cbn [st_kactiv st_w_r st_w_r2 andb Z.eqb].
  set (reg1 := eval_regul ext (pr_self p) (pr_smooth p) (pr_regul p) X0 L0).
  set (reg2 := pr_regul2 p X0 L0 (mask (pr_self p))).
  rewrite auto_weights_kactiv.
  split; [|split; [|split]].
  - destruct ((truthy (Fin (w_r o)) && flt reg1 (Fin 0%Qc))
              || (truthy (Fin (w_r2 o)) && flt reg2 (Fin 0%Qc))) eqn:E.
    + split; [|reflexivity]. intros _.
      apply orb_true_iff in E. destruct E as [E|E];
        apply andb_true_iff in E; destruct E as [T F];
        apply truthy_Fin in T; apply flt_negative in F; [left|right]; split; assumption.
    + split; [discriminate|]. intro C. exfalso.
      apply orb_false_iff in E. destruct E as [E1 E2].
      destruct C as [[T F]|[T F]];
        apply truthy_Fin in T; apply flt_negative in F.
      * rewrite T, F in E1. discriminate.
      * rewrite T, F in E2. discriminate.
  - destruct ((truthy (Fin (w_r o)) && flt reg1 (Fin 0%Qc))
              || (truthy (Fin (w_r2 o)) && flt reg2 (Fin 0%Qc))); [left|right]; reflexivity.
  - intro Z0. rewrite Z0. apply auto_weights_zero_value.
  - intro Z0. rewrite Z0. apply auto_weights_zero_value2.
Qed.

End EstimateSetup.

Section EstimateSetupRuns.
Import Np Mustard Scenario Spec.

(** C5, as stated, fails on a dark sequence run with the default options:
    both raw regularisation values are exactly 0, both percentages are 3%,
    and the loop is entered with [kactiv = 0]. *)
Lemma zero_value_keeps_kactiv :
  exists (self : estimator) (p : prepared (list step_out)) (L0 X0 : frame),
    build dark2 angles2 = Ok self
    /\ estimate_setup scripted [] self default_options = Ok p
    /\ w_pcent default_options = true
    /\ w_r default_options <> 0%Qc /\ w_r2 default_options <> 0%Qc
    /\ L0x0 (pr_self p) = Some (L0, X0)
    /\ eval_regul scripted (pr_self p) (pr_smooth p) (pr_regul p) X0 L0 = Fin 0%Qc
    /\ pr_regul2 p X0 L0 (mask (pr_self p)) = Fin 0%Qc
    /\ st_kactiv (pr_state p) = 0%Z
    /\ st_kactiv (pr_state p) <> 2%Z.
Proof.
  eexists. eexists. eexists. eexists.
  split; [vm_compute; reflexivity|].
  split; [vm_compute; reflexivity|].
  split; [reflexivity|].
  split; [intro H; apply (f_equal this) in H; vm_compute in H; discriminate|].
  split; [intro H; apply (f_equal this) in H; vm_compute in H; discriminate|].
  split; [vm_compute; reflexivity|].
  split; [vm_compute; f_equal; try qc_closed|].
  split; [vm_compute; f_equal; try qc_closed|].
  split; [vm_compute; reflexivity|].
  vm_compute. discriminate.
Qed.

Lemma fallback_needs_negative_value_witness :
  exists (self : estimator) (p : prepared (list step_out)),
    build dark2 angles2 = Ok self
    /\ estimate_setup scripted [] self default_options = Ok p
    /\ (st_kactiv (pr_state p) = 2%Z \/ st_kactiv (pr_state p) = 0%Z).
Proof.
  assert (B : exists self, build dark2 angles2 = Ok self)
    by (eexists; vm_compute; reflexivity).
  destruct B as [self B]. exists self.
  assert (S : exists p, estimate_setup scripted [] self default_options = Ok p).
  { vm_compute in B. injection B as <-. eexists. vm_compute. reflexivity. }
  destruct S as [p S]. exists p.
  split; [exact B|]. split; [exact S|].
  destruct (fallback_needs_negative_value scripted [] self default_options S
              eq_refl eq_refl) as [L0 [X0 [_ [_ [K _]]]]].
  exact K.
Defined.

End EstimateSetupRuns.

(** ** mustard.py: [estimate] and the stored cube *)

Section StoredCube.
Import Np Mustard Scenario Spec.

Lemma estimate_finish_keeps {torch} (ext : externals torch) (p : prepared torch)
    (st : loop_state torch) :
  science_data (fst (estimate_finish ext p st)) = science_data (pr_self p)
  /\ science_data_ori (fst (estimate_finish ext p st)) = science_data_ori (pr_self p).
Proof.
  unfold estimate_finish. destruct (final_choice st) as [L X]. split; reflexivity.
Qed.

(** C3, as the code has it.  After [estimate] the stored cube is the one
    [prepare_cube] leaves: the cube of before when [med_sub] and [min_sub]
    are both off; otherwise the median-subtracted, clipped frames
    ([med_sub]) with the speckle map taken out and the stellar halo added
    ([min_sub], which also keeps the cube it started from in
    [science_data_ori]). *)
Theorem estimate_rewrites_cube {torch} (ext : externals torch) (opt0 : torch)
    (self self' : estimator) (o : options) (r : frame * frame * option (list Qc)) :
  estimate ext opt0 self o = Ok (self', r) ->
  science_data self' = science_data (prepare_cube ext o self)
  /\ (med_sub o = false -> min_sub o = false -> science_data self' = science_data self)
  /\ (min_sub o = true ->
      let before := if med_sub o then median_subtract self else self in
      science_data_ori self' = Some (science_data before)
      /\ science_data self' = science_data (decompose ext before)).
Proof.
  unfold estimate. intro H.
  destruct (estimate_setup ext opt0 self o) as [p|e] eqn:S; cbn [bind] in H;
    [|discriminate].
  injection H as H.
  destruct (estimate_finish_keeps ext p (estimate_loop ext o p)) as [A B].
  rewrite H in A, B. cbn [fst] in A, B.
  destruct (estimate_setup_cube _ _ _ _ S) as [C D].
  rewrite C in A. rewrite D in B.
  split; [exact A|]. split.
  - intros Hmed Hmin. rewrite A. unfold prepare_cube. rewrite Hmed, Hmin. reflexivity.
  - intros Hmin. cbv zeta. rewrite A, B. unfold prepare_cube. rewrite Hmin.
    split; reflexivity.
Qed.

Lemma estimate_rewrites_cube_witness :
  exists (self self' : estimator) (r : frame * frame * option (list Qc)),
    build cube2 angles2 = Ok self
    /\ estimate scripted [] self (with_iters 0 (KInt 0) default_options) = Ok (self', r)
    /\ science_data self'
       = science_data (prepare_cube scripted (with_iters 0 (KInt 0) default_options) self).
Proof.
  assert (B : exists self, build cube2 angles2 = Ok self)
    by (eexists; vm_compute; reflexivity).
  destruct B as [self B]. exists self.
  assert (S : exists self' r,
             estimate scripted [] self (with_iters 0 (KInt 0) default_options)
             = Ok (self', r)).
  { vm_compute in B. injection B as <-. eexists. eexists. vm_compute. reflexivity. }
  destruct S as [self' [r S]]. exists self', r.
  split; [exact B|]. split; [exact S|].
  exact (proj1 (estimate_rewrites_cube scripted [] self
                  (with_iters 0 (KInt 0) default_options) S)).
Defined.

(** C3, as stated, fails with [med_sub=True, min_sub=False]: the first
    pixel of the first frame is 5 before the call and 0 after it. *)
Lemma median_subtraction_rewrites_cube :
  exists (self self' : estimator) (r : frame * frame * option (list Qc)),
    build cube2 angles2 = Ok self
    /\ estimate scripted [] self
         (with_subtraction true false (with_iters 0 (KInt 0) default_options))
       = Ok (self', r)
    /\ science_data self' <> science_data self.
Proof.
  eexists. eexists. eexists.
  split; [vm_compute; reflexivity|].
  split; [vm_compute; reflexivity|].
  intro H.
  apply (f_equal (fun c => this (pix (hd [] c) 0 0))) in H.
  vm_compute in H. discriminate H.
Qed.

End StoredCube.

(** ** mustard.py: the divergence checkpoint *)

Section Checkpoint.
Import Np Mustard Scenario Spec.
Context {torch : Type} (ext : externals torch) (self : estimator) (o : options).
Context (estimI' : string) (w_rp : fval * fval).
Context (sm : smooth_mode) (rg : regul_mode) (r2 : regul2_fn).

Local Abbreviation step := (step ext).
Local Abbreviation reweight := (reweight ext self o w_rp sm rg r2).
Local Abbreviation new_optimizer := (new_optimizer ext estimI').
Local Abbreviation activation := (activation ext self o estimI' w_rp sm rg r2).
Local Abbreviation iteration := (iteration ext self o estimI' w_rp sm rg r2).
Local Abbreviation minimize := (minimize ext self o estimI' w_rp sm rg r2).

Lemma fgt_irrefl (x : fval) : fgt x x = false.
Proof.
  destruct x as [q|]; [|reflexivity]. unfold fgt, gtb.
  apply ltb_ge. apply Qcle_refl.
Qed.

Lemma step_counters (st : loop_state torch) :
  st_k (step st) = st_k st /\ st_kactiv (step st) = st_kactiv st
  /\ st_loss_evo (step st) = st_loss_evo st
  /\ st_last_iter (step st) = st_last_iter st
  /\ st_final_estim (step st) = st_final_estim st.
Proof.
  unfold Mustard.step. destruct (lbfgs_step ext _ _ _) as [opt out].
  repeat split; reflexivity.
Qed.

Lemma reweight_counters (st : loop_state torch) :
  st_k (reweight st) = st_k st /\ st_kactiv (reweight st) = st_kactiv st
  /\ st_final_estim (reweight st) = st_final_estim st.
Proof. unfold Mustard.reweight. destruct (w_pcent o); repeat split; reflexivity. Qed.

Lemma activation_counters (st : loop_state torch) :
  st_k (activation st) = st_k st /\ st_kactiv (activation st) = st_kactiv st
  /\ st_final_estim (activation st) = st_final_estim st.
Proof.
  unfold Mustard.activation, Mustard.new_optimizer.
  cbn [st_k st_kactiv st_final_estim set_st_optimizer].
  destruct (reweight_counters
              (step (set_st_optimizer
                       (lbfgs_new ext (st_optimizer (reweight st)) estimI')
                       (reweight st)))) as [A [B C]].
  rewrite A, B, C.
  destruct (step_counters
              (set_st_optimizer (lbfgs_new ext (st_optimizer (reweight st)) estimI')
                                (reweight st))) as [A' [B' [_ [_ C']]]].
  rewrite A', B', C'. cbn [st_k st_kactiv st_final_estim set_st_optimizer].
  apply reweight_counters.
Qed.

Lemma deactivate_counters (k : Z) (st : loop_state torch) :
  st_k (deactivate o k st) = st_k st
  /\ st_kactiv (deactivate o k st) = st_kactiv st
  /\ st_loss_evo (deactivate o k st) = st_loss_evo st
  /\ st_last_iter (deactivate o k st) = st_last_iter st
  /\ st_final_estim (deactivate o k st) = st_final_estim st.
Proof.
  unfold deactivate. destruct (kdactiv o) as [kd|];
    [destruct (negb (kd =? 0)%Z && (k =? kd)%Z)|]; repeat split; reflexivity.
Qed.

(** A pass that is not the activation pass and whose step trips the test
    stores the iterate recorded before the step. *)
Lemma iteration_captures (k : Z) (st0 : loop_state torch) :
  negb (st_kactiv st0 =? 0)%Z && (k =? st_kactiv st0)%Z = false ->
  diverged (step (deactivate o k (set_st_k k st0))) = true ->
  st_final_estim (fst (iteration k st0)) = st_last_iter st0.
Proof.
  intros Act Dv. unfold Mustard.iteration. cbn [st_kactiv set_st_k]. rewrite Act.
  set (st1 := deactivate o k (set_st_k k st0)) in *.
  set (st2 := step st1) in *. rewrite Dv.
  set (st3 := set_st_final_estim (st_last_iter st2) st2).
  set (st4 := set_st_loss_evo (st_loss_evo st3 ++ [st_loss st3]) st3).
  set (st5 := set_st_last_iter (Some (snapshot_of estimI' (st_vars st4))) st4).
  set (st6 := if (k =? 1)%Z
              then set_st_first_iter (Some (snapshot_of estimI' (st_vars st5))) st5
              else st5).
  assert (L2 : st_last_iter st2 = st_last_iter st0).
  { unfold st2. destruct (step_counters st1) as [_ [_ [_ [E _]]]]. rewrite E.
    unfold st1. destruct (deactivate_counters k (set_st_k k st0)) as [_ [_ [_ [E' _]]]].
    rewrite E'. reflexivity. }
  assert (F6 : st_final_estim st6 = st_last_iter st0).
  { unfold st6. destruct (k =? 1)%Z; cbn [st_final_estim set_st_first_iter];
      unfold st5, st4, st3;
      cbn [st_final_estim set_st_last_iter set_st_loss_evo set_st_final_estim];
      exact L2. }
  destruct ((st_mink st6 <? k)%Z
            && flt (if (estimI' =? "Justl")%string then st_gradL st6 else st_gradX st6)
                   (Fin (gtol o))).
  - destruct (negb (st_Ractiv st6) && negb (st_kactiv st6 =? 0)%Z); cbn [fst].
    + destruct (activation_counters
                  (set_st_kactiv k (set_st_mink (k + 2)%Z (set_st_Ractiv true st6))))
        as [_ [_ C]].
      rewrite C. exact F6.
    + exact F6.
  - destruct (isnan (st_loss st6)); cbn [fst]; exact F6.
Qed.

(** A rise of the loss past the activation iteration trips the test. *)
Lemma rise_trips_test (k : Z) (st0 : loop_state torch) :
  (1 < k)%Z -> st_kactiv st0 <> 0%Z -> (st_kactiv st0 < k)%Z ->
  fgt (st_loss (step (deactivate o k (set_st_k k st0)))) (last (st_loss_evo st0) NaN)
  = true ->
  negb (st_kactiv st0 =? 0)%Z && (k =? st_kactiv st0)%Z = false
  /\ diverged (step (deactivate o k (set_st_k k st0))) = true.
Proof.
  intros H1 H0 Hk Hr. split.
  - replace (k =? st_kactiv st0)%Z with false by (symmetry; apply Z.eqb_neq; lia).
    apply andb_false_r.
  - unfold diverged.
    destruct (step_counters (deactivate o k (set_st_k k st0))) as [A [B [C _]]].
    destruct (deactivate_counters k (set_st_k k st0)) as [A' [B' [C' _]]].
    rewrite A, B, C, A', B', C'. cbn [st_k st_kactiv st_loss_evo set_st_k].
    rewrite Hr.
    replace (1 <? k)%Z with true by (symmetry; apply Z.ltb_lt; exact H1).
    replace (st_kactiv st0 =? 0)%Z with false by (symmetry; apply Z.eqb_neq; exact H0).
    replace (st_kactiv st0 <? k)%Z with true by (symmetry; apply Z.ltb_lt; exact Hk).
    cbn. apply orb_true_r.
Qed.

(** A run that ends on NaN after its first iteration hands back what was
    checkpointed. *)
Lemma final_choice_on_nan (st : loop_state torch) (fe : snapshot) :
  isnan (st_loss st) = true -> (1 < st_k st)%Z -> st_final_estim st = Some fe ->
  final_choice st = (snap_L fe, snap_X fe).
Proof.
  intros Hn Hk Hf. unfold final_choice, diverged. rewrite Hn, Hf.
  replace (1 <? st_k st)%Z with true by (symmetry; apply Z.ltb_lt; exact Hk).
  reflexivity.
Qed.

(** Once the state is settled and the loss is a number, the test of the
    checkpoint is false. *)
Lemma settled_not_diverged (st : loop_state torch) :
  settled st -> isnan (st_loss st) = false -> diverged st = false.
Proof.
  unfold settled, diverged. intros [E|E] Hn; rewrite Hn; cbn [orb].
  - rewrite E, fgt_irrefl. rewrite !andb_false_r. reflexivity.
  - replace (st_kactiv st <? st_k st)%Z with false by (symmetry; apply Z.ltb_ge; exact E).
    rewrite andb_false_r, andb_false_l, andb_false_r. reflexivity.
Qed.

(** Every pass through the loop body leaves a settled state. *)
Lemma iteration_settles (k : Z) (st : loop_state torch) :
  settled (fst (iteration k st)).
Proof.
  unfold Mustard.iteration.
  cbn [st_kactiv set_st_k].
  destruct (negb (st_kactiv st =? 0)%Z && (k =? st_kactiv st)%Z) eqn:Act.
  - cbn [fst]. right.
    destruct (activation_counters (set_st_mink (k + 2)%Z (set_st_Ractiv true (set_st_k k st))))
      as [A [B _]].
    rewrite A, B. cbn [st_k st_kactiv set_st_mink set_st_Ractiv set_st_k].
    apply andb_true_iff in Act. destruct Act as [_ Act].
    apply Z.eqb_eq in Act. lia.
  - set (st1 := deactivate o k (set_st_k k st)).
    set (st2 := step st1).
    set (st3 := if diverged st2 then set_st_final_estim (st_last_iter st2) st2 else st2).
    set (st4 := set_st_loss_evo (st_loss_evo st3 ++ [st_loss st3]) st3).
    set (st5 := set_st_last_iter (Some (snapshot_of estimI' (st_vars st4))) st4).
    set (st6 := if (k =? 1)%Z
                then set_st_first_iter (Some (snapshot_of estimI' (st_vars st5))) st5
                else st5).
    assert (L6 : last (st_loss_evo st6) NaN = st_loss st6).
    { unfold st6. destruct (k =? 1)%Z; cbn [st_loss_evo st_loss set_st_first_iter];
        unfold st5, st4; cbn [st_loss_evo st_loss set_st_last_iter set_st_loss_evo];
        apply last_last. }
    assert (K6 : st_k st6 = k).
    { unfold st6. destruct (k =? 1)%Z; cbn [st_k set_st_first_iter];
        unfold st5, st4; cbn [st_k set_st_last_iter set_st_loss_evo];
        unfold st3; destruct (diverged st2); cbn [st_k set_st_final_estim];
        unfold st2; rewrite (proj1 (step_counters st1));
        unfold st1, deactivate; destruct (kdactiv o) as [kd|];
        try destruct (negb (kd =? 0)%Z && (k =? kd)%Z); reflexivity. }
    destruct ((st_mink st6 <? k)%Z
              && flt (if (estimI' =? "Justl")%string then st_gradL st6 else st_gradX st6)
                     (Fin (gtol o))).
    + destruct (negb (st_Ractiv st6) && negb (st_kactiv st6 =? 0)%Z).
      * cbn [fst]. right.
        destruct (activation_counters
                    (set_st_kactiv k (set_st_mink (k + 2)%Z (set_st_Ractiv true st6))))
          as [A [B _]].
        rewrite A, B. cbn [st_k st_kactiv set_st_kactiv set_st_mink set_st_Ractiv].
        rewrite K6. lia.
      * cbn [fst]. left. exact L6.
    + destruct (isnan (st_loss st6)); cbn [fst]; left; exact L6.
Qed.

Lemma minimize_settles (ks : list Z) (st : loop_state torch) :
  settled st -> settled (minimize ks st).
Proof.
  revert st. induction ks as [|k ks IH]; intros st Hs; simpl.
  - exact Hs.
  - pose proof (iteration_settles k st) as Hi.
    destruct (iteration k st) as [st' stop]. cbn [fst] in Hi.
    destruct stop; [exact Hi | apply IH; exact Hi].
Qed.

(** Whatever was checkpointed, a run that ends on a loss that is a number
    returns the last raw iterate. *)
Lemma final_choice_is_raw_iterate (ks : list Z) (st : loop_state torch) :
  settled st ->
  isnan (st_loss (minimize ks st)) = false ->
  final_choice (minimize ks st)
  = (Lk (st_vars (minimize ks st)), Xk (st_vars (minimize ks st))).
Proof.
  intros Hs Hn. unfold final_choice.
  rewrite (settled_not_diverged (minimize_settles ks Hs) Hn). reflexivity.
Qed.

End Checkpoint.

Section CheckpointRuns.
Import Np Mustard Scenario Spec.

Lemma initial_state_settled {torch} (ext : externals torch) (opt0 : torch)
    (self : estimator) (o : options) (sm : smooth_mode) (rg : regul_mode)
    (r2 : regul2_fn) (derot : cube) (L0 X0 : frame) :
  settled (initial_state ext opt0 self o sm rg r2 derot L0 X0).
Proof. left. reflexivity. Qed.

(** In terms of [estimate]: when the last loss of the trajectory is a number,
    the returned pair is the last raw iterate of the loop. *)
Lemma estimate_returns_raw_iterate {torch} (ext : externals torch) (opt0 : torch)
    (self : estimator) (o : options) (p : prepared torch) :
  estimate_setup ext opt0 self o = Ok p ->
  isnan (st_loss (estimate_loop ext o p)) = false ->
  exists self' fl,
    estimate ext opt0 self o
    = Ok (self', (Lk (st_vars (estimate_loop ext o p)),
                  Xk (st_vars (estimate_loop ext o p)), fl)).
Proof.
  intros S Hn. unfold estimate. rewrite S. cbn [bind].
  unfold estimate_finish.
  assert (F : final_choice (estimate_loop ext o p)
              = (Lk (st_vars (estimate_loop ext o p)),
                 Xk (st_vars (estimate_loop ext o p)))).
  { unfold estimate_loop in *. apply final_choice_is_raw_iterate; [|exact Hn].
    destruct (estimate_setup_inv _ _ _ _ S) as [s1 [d [L0 [X0 [_ [_ [_ E]]]]]]].
    rewrite E. apply initial_state_settled. }
  rewrite F. eexists. eexists. reflexivity.
Qed.

(** C2, as the code has it.  A step after the activation iteration whose
    loss exceeds the one recorded last stores the iterate recorded before it
    as [final_estim].  At termination that candidate is returned when the
    run ends on a NaN loss; the last raw iterate is returned when the loss
    recorded last is a number that is not above the one recorded before it,
    even if a candidate was stored earlier. *)
Theorem checkpoint_policy {torch} (ext : externals torch) (opt0 : torch)
    (self : estimator) (o : options) (p : prepared torch) :
  estimate_setup ext opt0 self o = Ok p ->
  (forall (k : Z) (st0 : loop_state torch),
      (1 < k)%Z -> st_kactiv st0 <> 0%Z -> (st_kactiv st0 < k)%Z ->
      fgt (st_loss (step ext (deactivate o k (set_st_k k st0))))
          (last (st_loss_evo st0) NaN) = true ->
      st_final_estim
        (fst (iteration ext (pr_self p) o (pr_estimI p) (pr_w_rp p) (pr_smooth p)
                        (pr_regul p) (pr_regul2 p) k st0))
      = st_last_iter st0)
  /\ (forall fe : snapshot,
        isnan (st_loss (estimate_loop ext o p)) = true ->
        (1 < st_k (estimate_loop ext o p))%Z ->
        st_final_estim (estimate_loop ext o p) = Some fe ->
        snd (estimate_finish ext p (estimate_loop ext o p))
        = (snap_L fe, snap_X fe,
           if (pr_estimI p =? "")%string then None
           else Some (flux_k (st_vars (estimate_loop ext o p)))))
  /\ (isnan (st_loss (estimate_loop ext o p)) = false ->
      last_step_rose (estimate_loop ext o p) = false ->
      snd (estimate_finish ext p (estimate_loop ext o p))
      = (Lk (st_vars (estimate_loop ext o p)), Xk (st_vars (estimate_loop ext o p)),
         if (pr_estimI p =? "")%string then None
         else Some (flux_k (st_vars (estimate_loop ext o p))))).
Proof.
  intro S. split; [|split].
  - intros k st0 H1 H0 Hk Hr.
    destruct (@rise_trips_test torch ext o k st0 H1 H0 Hk Hr) as [Act Dv].
    apply iteration_captures; assumption.
  - intros fe Hn Hk Hf. unfold estimate_finish.
    rewrite (@final_choice_on_nan torch _ fe Hn Hk Hf). reflexivity.
  - intros Hn _. unfold estimate_finish.
    assert (F : final_choice (estimate_loop ext o p)
                = (Lk (st_vars (estimate_loop ext o p)),
                   Xk (st_vars (estimate_loop ext o p)))).
    { unfold estimate_loop in *. apply final_choice_is_raw_iterate; [|exact Hn].
      destruct (estimate_setup_inv _ _ _ _ S) as [s1 [d [L0 [X0 [_ [_ [_ E]]]]]]].
      rewrite E. apply initial_state_settled. }
    rewrite F. reflexivity.
Qed.

Lemma checkpoint_policy_witness :
  exists (self : estimator) (p : prepared (list step_out)),
    build cube2 angles2 = Ok self
    /\ estimate_setup scripted recovering self (with_iters 3 (KInt 1) default_options)
       = Ok p
    /\ isnan (st_loss (estimate_loop scripted (with_iters 3 (KInt 1) default_options) p))
       = false
    /\ last_step_rose (estimate_loop scripted (with_iters 3 (KInt 1) default_options) p)
       = false
    /\ fst (fst (snd (estimate_finish scripted p
                        (estimate_loop scripted
                           (with_iters 3 (KInt 1) default_options) p))))
       = Lk (st_vars (estimate_loop scripted (with_iters 3 (KInt 1) default_options) p)).
Proof.
  assert (B : exists self, build cube2 angles2 = Ok self)
    by (eexists; vm_compute; reflexivity).
  destruct B as [self B]. exists self.
  assert (S : exists p,
             estimate_setup scripted recovering self
               (with_iters 3 (KInt 1) default_options) = Ok p
             /\ isnan (st_loss (estimate_loop scripted
                                  (with_iters 3 (KInt 1) default_options) p)) = false
             /\ last_step_rose (estimate_loop scripted
                                  (with_iters 3 (KInt 1) default_options) p) = false).
  { vm_compute in B. injection B as <-. eexists.
    split; [vm_compute; reflexivity|]. split; vm_compute; reflexivity. }
  destruct S as [p [S [Hn Hr]]]. exists p.
  split; [exact B|]. split; [exact S|]. split; [exact Hn|]. split; [exact Hr|].
  destruct (checkpoint_policy scripted recovering self
              (with_iters 3 (KInt 1) default_options) S) as [_ [_ Raw]].
  rewrite (Raw Hn Hr). reflexivity.
Defined.

(** C2, as stated, fails on a run of three iterations with activation at
    the first: the loss recorded at step 0 is 1, iteration 2 ends on 1000 and
    the iterate of step 0 is stored as [final_estim]; iteration 3 brings the
    loss down to 2 and the call returns the iterate of iteration 3. *)
Lemma stored_checkpoint_is_not_returned :
  exists (self self' : estimator) (L X : frame) (fl : option (list Qc))
         (snap : snapshot) (d : result_dict) (L0 X0 : frame),
    build cube2 angles2 = Ok self
    /\ estimate scripted recovering self (with_iters 3 (KInt 1) default_options)
       = Ok (self', (L, X, fl))
    /\ res self' = Some d
    /\ res_loss_evo d = [Fin (ofZ 1); Fin (ofZ 1000); Fin (ofZ 2)]
    /\ L0x0 self' = Some (L0, X0)
    /\ final_estim self' = Some snap
    /\ snap_L snap = L0 /\ snap_X snap = X0
    /\ L = frame_of [[6; 6]; [7; 7]]%Z
    /\ X = frame_of [[1; 1]; [1; 1]]%Z
    /\ (L, X) <> (snap_L snap, snap_X snap).
Proof.
  do 9 eexists.
  split; [vm_compute; reflexivity|].
  split; [vm_compute; reflexivity|].
  split; [vm_compute; reflexivity|].
  split; [vm_compute; repeat f_equal; try qc_closed|].
  split; [vm_compute; reflexivity|].
  split; [vm_compute; reflexivity|].
  split; [vm_compute; reflexivity|].
  split; [vm_compute; reflexivity|].
  split; [vm_compute; reflexivity|].
  split; [vm_compute; reflexivity|].
  intro H.
  apply (f_equal (fun q => this (pix (fst q) 0 0))) in H.
  vm_compute in H. discriminate H.
Qed.

(** When the run stops right after the rise (two iterations, the loss going
    from 1 to 1000), the iterate of step 0 is stored as [final_estim] and the
    call still returns the iterate of iteration 2: the test of line 784 reads
    the loss it has just appended. *)
Lemma rise_at_last_step_returns_raw_iterate :
  exists (self self' : estimator) (L X : frame) (fl : option (list Qc))
         (snap : snapshot) (d : result_dict) (L0 X0 : frame),
    build cube2 angles2 = Ok self
    /\ estimate scripted rising self (with_iters 2 (KInt 1) default_options)
       = Ok (self', (L, X, fl))
    /\ res self' = Some d
    /\ res_loss_evo d = [Fin (ofZ 1); Fin (ofZ 1000)]
    /\ L0x0 self' = Some (L0, X0)
    /\ final_estim self' = Some snap
    /\ snap_L snap = L0 /\ snap_X snap = X0
    /\ L = frame_of [[9; 9]; [9; 9]]%Z
    /\ X = frame_of [[3; 3]; [3; 3]]%Z
    /\ (L, X) <> (snap_L snap, snap_X snap).
Proof.
  do 9 eexists.
  split; [vm_compute; reflexivity|].
  split; [vm_compute; reflexivity|].
  split; [vm_compute; reflexivity|].
  split; [vm_compute; repeat f_equal; try qc_closed|].
  split; [vm_compute; reflexivity|].
  split; [vm_compute; reflexivity|].
  split; [vm_compute; reflexivity|].
  split; [vm_compute; reflexivity|].
  split; [vm_compute; reflexivity|].
  split; [vm_compute; reflexivity|].
  intro H.
  apply (f_equal (fun q => this (pix (fst q) 0 0))) in H.
  vm_compute in H. discriminate H.
Qed.

End CheckpointRuns.

(** ** algo.py: rotation by a null angle *)

Section Shifts.
Import Algo Spec.
Context {A : Type}.

Lemma fftshift1_length (l : list A) : List.length (fftshift1 l) = List.length l.
Proof.
  unfold fftshift1. rewrite length_app, length_skipn, length_firstn.
  assert (List.length l / 2 <= List.length l)%nat
    by (apply Nat.Div0.div_le_upper_bound; lia).
  lia.
Qed.

Lemma fftshift1_In (x : A) (l : list A) : In x (fftshift1 l) -> In x l.
Proof.
  unfold fftshift1. intro H.
  rewrite <- (firstn_skipn (List.length l - List.length l / 2) l).
  apply in_or_app. apply in_app_or in H. tauto.
Qed.

(** Rolling a line of even length by half of it, twice, is the identity. *)
Lemma fftshift1_twice (l : list A) :
  Nat.even (List.length l) = true -> fftshift1 (fftshift1 l) = l.
Proof.
  intro He. apply Nat.even_spec in He. destruct He as [k Hk].
  assert (Hh : (List.length l - List.length l / 2 = k)%nat).
  { rewrite Hk. rewrite (Nat.mul_comm 2 k), Nat.div_mul by lia. lia. }
  unfold fftshift1 at 1. rewrite fftshift1_length, Hh.
  unfold fftshift1. rewrite Hh.
  assert (Ls : List.length (skipn k l) = k) by (rewrite length_skipn; lia).
  rewrite skipn_app, firstn_app, Ls, Nat.sub_diag.
  rewrite skipn_all2 by lia. rewrite (firstn_all2 (skipn k l)) by lia.
  cbn [skipn firstn app]. rewrite app_nil_r.
  apply firstn_skipn.
Qed.

End Shifts.

Section Grids.
Import Algo Spec.

Lemma map_fftshift1 {A B} (f : A -> B) (l : list A) :
  map f (fftshift1 l) = fftshift1 (map f l).
Proof.
  unfold fftshift1. rewrite map_app, length_map, skipn_map, firstn_map. reflexivity.
Qed.

Lemma fftshift_rect {A} (h w : nat) (m : list (list A)) :
  rect h w m -> rect h w (fftshift m).
Proof.
  intros [Hh Hw]. unfold fftshift. split.
  - rewrite fftshift1_length, length_map. exact Hh.
  - apply Forall_forall. intros row Hin. apply fftshift1_In in Hin.
    apply in_map_iff in Hin. destruct Hin as [r [<- Hr]].
    rewrite fftshift1_length. rewrite Forall_forall in Hw. apply Hw. exact Hr.
Qed.

Lemma fftshift_twice {A} (h w : nat) (m : list (list A)) :
  rect h w m -> Nat.even h = true -> Nat.even w = true ->
  fftshift (fftshift m) = m.
Proof.
  intros [Hh Hw] Eh Ew. unfold fftshift.
  rewrite map_fftshift1, fftshift1_twice.
  - rewrite map_map. rewrite <- (map_id m) at 2. apply map_ext_in.
    intros row Hin. apply fftshift1_twice.
    rewrite Forall_forall in Hw. rewrite (Hw row Hin). exact Ew.
  - rewrite !length_map, Hh. exact Eh.
Qed.

Lemma tabulate_from {A} (d : A) (l : list A) (s : nat) :
  map (fun i => nth (i - s) l d) (seq s (List.length l)) = l.
Proof.
  revert s. induction l as [|a l IH]; intro s; [reflexivity|].
  cbn [List.length seq map]. rewrite Nat.sub_diag. cbn [nth]. f_equal.
  rewrite <- (IH (S s)) at 2. apply map_ext_in. intros i Hi.
  apply in_seq in Hi. replace (i - s)%nat with (S (i - S s)) by lia. reflexivity.
Qed.

Lemma tabulate_nth {A} (d : A) (l : list A) (n : nat) :
  List.length l = n -> map (fun i => nth i l d) (seq 0 n) = l.
Proof.
  intros <-. rewrite <- (tabulate_from d l 0) at 2.
  apply map_ext. intro i. rewrite Nat.sub_0_r. reflexivity.
Qed.

Lemma rect_hd {A} (h w : nat) (m : list (list A)) :
  rect h w m -> (0 < h)%nat -> List.length (hd [] m) = w.
Proof.
  intros [Hh Hw] Hp. destruct m as [|row m]; [simpl in Hh; lia|].
  apply Forall_inv in Hw. exact Hw.
Qed.

Lemma transpose_rect {A} (d : A) (h w : nat) (m : list (list A)) :
  rect h w m -> (0 < h)%nat -> rect w h (transpose d m).
Proof.
  intros R Hp. unfold transpose. rewrite (rect_hd R Hp). destruct R as [Hh Hw].
  split.
  - rewrite length_map, length_seq. reflexivity.
  - apply Forall_forall. intros col Hin. apply in_map_iff in Hin.
    destruct Hin as [j [<- _]]. rewrite length_map. exact Hh.
Qed.

Lemma transpose_twice {A} (d : A) (h w : nat) (m : list (list A)) :
  rect h w m -> (0 < h)%nat -> (0 < w)%nat -> transpose d (transpose d m) = m.
Proof.
  intros R Hh Hw.
  pose proof (transpose_rect d R Hh) as RT.
  unfold transpose at 1. rewrite (rect_hd RT Hw).
  unfold transpose. rewrite (rect_hd R Hh).
  destruct R as [Lh Lw].
  etransitivity; [|apply (tabulate_nth (@nil A) m Lh)].
  apply map_ext_in. intros i Hi. rewrite map_map.
  assert (Hrow : List.length (nth i m []) = w).
  { rewrite Forall_forall in Lw. apply Lw. apply nth_In. apply in_seq in Hi. lia. }
  etransitivity; [|apply (tabulate_nth d (nth i m []) Hrow)].
  apply map_ext. intro j.
  assert (Hlt : (i < List.length m)%nat) by (apply in_seq in Hi; lia).
  rewrite (nth_indep (map (fun row => nth j row d) m) d (nth j [] d))
    by (rewrite length_map; exact Hlt).
  apply (map_nth (fun row => nth j row d) m [] i).
Qed.

Lemma rect_map {A B} (f : list A -> list B) (h w : nat) (m : list (list A)) :
  (forall v, List.length (f v) = List.length v) -> rect h w m -> rect h w (map f m).
Proof.
  intros Hf [Hh Hw]. split.
  - rewrite length_map. exact Hh.
  - apply Forall_forall. intros row Hin. apply in_map_iff in Hin.
    destruct Hin as [r [<- Hr]]. rewrite Hf.
    rewrite Forall_forall in Hw. apply Hw. exact Hr.
Qed.

Lemma map_snd_combine_seq {A} (l : list A) (s : nat) :
  map snd (combine (seq s (List.length l)) l) = l.
Proof.
  revert s. induction l as [|a l IH]; intro s; [reflexivity|].
  cbn [List.length seq combine map snd]. f_equal. apply IH.
Qed.

Lemma mapi_id {A} (f : Z -> A -> A) (l : list A) :
  (forall i x, f i x = x) -> mapi f l = l.
Proof.
  intro Hf. unfold mapi.
  etransitivity; [|apply (map_snd_combine_seq l 0)].
  apply map_ext. intros [i x]. apply Hf.
Qed.

End Grids.

Section RotateByZero.
Import Algo Spec Scenario.
Variable F : fourier.
Hypothesis ifft_fft : forall v, ifft F (fft F v) = v.
Hypothesis fft_length : forall v, List.length (fft F v) = List.length v.
Hypothesis exp_zero : expm2ipi F 0%Qc = cone.
Hypothesis tan_zero : tan_half_deg F 0%Qc = 0%Qc.
Hypothesis sin_zero : neg_sin_deg F 0%Qc = 0%Qc.

Lemma cmul_one (z : cplx) : cmul cone z = z.
Proof.
  destruct z as [x y]. unfold cmul, cone. cbn [re im]. f_equal; ring.
Qed.

Lemma along_fft_rect (ax : Z) (h w : nat) (m : cframe) :
  rect h w m -> (0 < h)%nat -> (0 < w)%nat -> rect h w (along ax (fft F) m).
Proof.
  intros R Hh Hw. unfold along. destruct (ax =? 2)%Z.
  - apply rect_map; assumption.
  - apply transpose_rect; [|exact Hw].
    apply rect_map; [exact fft_length|]. apply transpose_rect; assumption.
Qed.

Lemma along_ifft_fft (ax : Z) (h w : nat) (m : cframe) :
  rect h w m -> (0 < h)%nat -> (0 < w)%nat ->
  along ax (ifft F) (along ax (fft F) m) = m.
Proof.
  intros R Hh Hw. unfold along. destruct (ax =? 2)%Z.
  - rewrite map_map. rewrite <- (map_id m) at 2. apply map_ext. exact ifft_fft.
  - assert (RT : rect w h (map (fft F) (transpose czero m))).
    { apply rect_map; [exact fft_length|]. apply transpose_rect; assumption. }
    rewrite (transpose_twice czero RT Hw Hh).
    rewrite map_map.
    replace (map (fun x => ifft F (fft F x)) (transpose czero m))
      with (transpose czero m).
    + apply (transpose_twice czero R Hh Hw).
    + rewrite <- (map_id (transpose czero m)) at 1. apply map_ext.
      intro v. symmetry. apply ifft_fft.
Qed.

(** A shear of strength 0 of a frame with even sides is the identity. *)
Lemma shear_zero (ax : Z) (h w : nat) (m : cframe) (arr_ori : frame) :
  rect h w m -> (0 < h)%nat -> (0 < w)%nat ->
  Nat.even h = true -> Nat.even w = true ->
  tensor_fft_shear F m arr_ori 0%Qc ax = m.
Proof.
  intros R Hh Hw Eh Ew. unfold tensor_fft_shear.
  set (arr_u := if (ax =? 2)%Z then _ else _).
  pose proof (fftshift_rect R) as R1.
  pose proof (along_fft_rect ax R1 Hh Hw) as R2.
  rewrite mapi_id.
  - rewrite (fftshift_twice R2 Eh Ew).
    rewrite (along_ifft_fft ax R1 Hh Hw).
    apply (fftshift_twice R Eh Ew).
  - intros i row. apply mapi_id. intros j z.
    replace (0 * pix arr_u i j * pix arr_ori i j)%Qc with 0%Qc by ring.
    rewrite exp_zero. apply cmul_one.
Qed.

Lemma real_of_real (t : frame) : map (map re) (map (map of_real) t) = t.
Proof.
  rewrite map_map. rewrite <- (map_id t) at 2. apply map_ext. intro row.
  rewrite map_map. rewrite <- (map_id row) at 2. apply map_ext. reflexivity.
Qed.

Lemma rect_of_real (h w : nat) (t : frame) :
  rect h w t -> rect h w (map (map of_real) t).
Proof. intro R. apply rect_map; [intro v; apply length_map | exact R]. Qed.

Lemma three_shears_zero (h w : nat) (t : frame) (arr_x arr_y : frame) :
  rect h w t -> (0 < h)%nat -> (0 < w)%nat ->
  Nat.even h = true -> Nat.even w = true ->
  map (map re)
      (tensor_fft_shear F
         (tensor_fft_shear F
            (tensor_fft_shear F (map (map of_real) t) arr_x 0%Qc 2) arr_y 0%Qc 1)
         arr_x 0%Qc 2)
  = t.
Proof.
  intros R Hh Hw Eh Ew. pose proof (rect_of_real R) as RC.
  rewrite (shear_zero 2 arr_x RC Hh Hw Eh Ew).
  rewrite (shear_zero 1 arr_y RC Hh Hw Eh Ew).
  rewrite (shear_zero 2 arr_x RC Hh Hw Eh Ew).
  apply real_of_real.
Qed.

Lemma crop_last_rect {A} (n : nat) (t : list (list A)) :
  rect (S n) (S n) t -> rect n n (crop_last t).
Proof.
  intros [Hh Hw]. unfold crop_last. split.
  - rewrite length_map.
    destruct (@exists_last _ t) as [t' [r E]]; [intro E; subst; discriminate|].
    subst t. rewrite removelast_last. rewrite length_app in Hh. simpl in Hh. lia.
  - apply Forall_forall. intros row Hin. apply in_map_iff in Hin.
    destruct Hin as [r [<- Hr]].
    assert (Hin : In r t).
    { destruct (@exists_last _ t) as [t' [r' E]]; [intro E; subst; discriminate|].
      subst t. rewrite removelast_last in Hr. apply in_or_app. left. exact Hr. }
    rewrite Forall_forall in Hw. specialize (Hw r Hin).
    destruct (@exists_last _ r) as [r0 [x E]]; [intro E; subst; discriminate|].
    subst r. rewrite removelast_last. rewrite length_app in Hw. simpl in Hw. lia.
Qed.

Lemma width_rect {A} (h w : nat) (t : list (list A)) :
  rect h w t -> (0 < h)%nat -> List.length (hd [] t) = w.
Proof. apply rect_hd. Qed.

Lemma reduce_zero : wrap_angle 0%Qc = 0%Qc /\ reduce_angle 0%Qc = (0%Z, 0%Qc)
                    /\ gtb 0%Qc (ofZ 45) = false.
Proof. repeat split. Qed.

Lemma rotate_unfolds_at_zero (n : nat) (t : frame) :
  rect n n t -> (0 < n)%nat ->
  tensor_rotate_fft F t 0%Qc
  = let tensor_in := if Nat.odd n then crop_last t else t in
    let arr_y := grid (height tensor_in) (width tensor_in)
                      (fun i _ => (ofZ i - fst (frame_center F t))%Qc) in
    let arr_x := grid (height tensor_in) (width tensor_in)
                      (fun _ j => (ofZ j - snd (frame_center F t))%Qc) in
    let real :=
      map (map re)
          (tensor_fft_shear F
             (tensor_fft_shear F
                (tensor_fft_shear F (map (map of_real) tensor_in) arr_x 0%Qc 2)
                arr_y 0%Qc 1)
             arr_x 0%Qc 2) in
    if Nat.odd n
    then map (fun row => row ++ [0%Qc]) real ++ [repeat 0%Qc (width real + 1)]
    else real.
Proof.
  intros R Hn. unfold tensor_rotate_fft.
  destruct reduce_zero as [W [Rd G]]. rewrite W, Rd, G. cbn [fst snd].
  rewrite tan_zero, sin_zero.
  assert (Hy : height t = n) by (destruct R; assumption).
  assert (Hx : width t = n) by (apply (width_rect R); lia).
  rewrite Hy, Hx, orb_diag. reflexivity.
Qed.

(** An even side: the three shears leave the frame as it is. *)
Lemma rotate_zero_even_side (n : nat) (t : frame) :
  rect n n t -> (0 < n)%nat -> Nat.even n = true ->
  tensor_rotate_fft F t 0%Qc = t.
Proof.
  intros R Hn En. rewrite (rotate_unfolds_at_zero R Hn).
  rewrite <- Nat.negb_even, En. cbn [negb]. cbv zeta.
  apply (three_shears_zero _ _ R); try lia; exact En.
Qed.

(** An odd side: the frame is cropped, sheared and restored with zeros. *)
Lemma rotate_zero_odd_side (m : nat) (t : frame) :
  rect (S m) (S m) t -> (0 < m)%nat -> Nat.even m = true ->
  tensor_rotate_fft F t 0%Qc = zero_border t.
Proof.
  intros R Hm Em. rewrite (rotate_unfolds_at_zero R) by lia.
  rewrite Nat.odd_succ, Em. cbv zeta.
  pose proof (crop_last_rect R) as RC.
  rewrite (three_shears_zero _ _ RC); try lia; try exact Em.
  unfold zero_border, crop_last. rewrite map_map.
  f_equal. f_equal. unfold width.
  fold (crop_last t). rewrite (width_rect RC) by lia.
  rewrite (width_rect R) by lia. rewrite Nat.add_1_r. reflexivity.
Qed.

(** C7, as the code has it.  In exact arithmetic, where the inverse
    transform undoes the transform, a rotation by 0 returns a square frame
    of even side unchanged; on a square frame of odd side it returns the
    frame with its last row and its last column set to zero. *)
Theorem rotate_by_zero (n : nat) (t : frame) :
  rect n n t -> (2 <= n)%nat ->
  tensor_rotate_fft F t 0%Qc = if Nat.even n then t else zero_border t.
Proof.
  intros R Hn. destruct (Nat.even n) eqn:En.
  - apply (rotate_zero_even_side R); [lia | exact En].
  - destruct n as [|m]; [lia|].
    apply (rotate_zero_odd_side R); [lia|].
    rewrite Nat.even_succ in En. rewrite <- Nat.negb_odd, En. reflexivity.
Qed.

End RotateByZero.

Section RotateSmallFrames.
Import Algo Spec Scenario.

Lemma half_sum (x y : Qc) : (frac 1 2 * (x + y + (x - y)))%Qc = x.
Proof.
  assert (Hh : frac 1 2 = (/ (1 + 1))%Qc) by qc_closed.
  rewrite Hh. field. intro E. apply (f_equal this) in E. vm_compute in E. discriminate E.
Qed.

Lemma half_diff (x y : Qc) : (frac 1 2 * (x + y - (x - y)))%Qc = y.
Proof.
  assert (Hh : frac 1 2 = (/ (1 + 1))%Qc) by qc_closed.
  rewrite Hh. field. intro E. apply (f_equal this) in E. vm_compute in E. discriminate E.
Qed.

(** The two-point transform is undone by its inverse. *)
Lemma two_point_inverse (v : list cplx) : ifft two_point (fft two_point v) = v.
Proof.
  destruct v as [|a [|b [|c v]]]; try reflexivity.
  destruct a as [ar ai], b as [br bi].
  cbn [two_point fft ifft]. unfold cscale, cadd, csub. cbn [re im].
  rewrite !half_sum, !half_diff. reflexivity.
Qed.

Lemma two_point_length (v : list cplx) :
  List.length (fft two_point v) = List.length v.
Proof. destruct v as [|a [|b [|c v]]]; reflexivity. Qed.

Lemma frame33_square : rect 3 3 frame33.
Proof. split; [reflexivity|]. repeat constructor. Qed.

Lemma frame22_square : rect 2 2 frame22.
Proof. split; [reflexivity|]. repeat constructor. Qed.

Lemma rotate_by_zero_witness :
  rect 3 3 frame33 /\ (2 <= 3)%nat
  /\ tensor_rotate_fft two_point frame33 0%Qc = zero_border frame33.
Proof.
  split; [exact frame33_square|]. split; [lia|].
  change (zero_border frame33)
    with (if Nat.even 3 then frame33 else zero_border frame33).
  apply (@rotate_by_zero two_point two_point_inverse two_point_length).
  - vm_compute. reflexivity.
  - reflexivity.
  - reflexivity.
  - exact frame33_square.
  - lia.
Defined.

(** An even side: the frame comes back as it went in. *)
Lemma rotate_frame22_by_zero :
  tensor_rotate_fft two_point frame22 0%Qc = frame22.
Proof.
  apply (@rotate_zero_even_side two_point two_point_inverse two_point_length)
    with (n := 2%nat).
  - vm_compute. reflexivity.
  - reflexivity.
  - reflexivity.
  - exact frame22_square.
  - lia.
  - reflexivity.
Qed.

(** C7, as stated, fails on the 3x3 frame 1..9: the corner pixel 9 comes
    back as 0. *)
Lemma rotation_by_zero_blanks_odd_border :
  rect 3 3 frame33
  /\ tensor_rotate_fft two_point frame33 0%Qc <> frame33
  /\ pix (tensor_rotate_fft two_point frame33 0%Qc) 2 2 = 0%Qc
  /\ pix frame33 2 2 = ofZ 9.
Proof.
  split; [exact frame33_square|]. split; [|split].
  - intro H. apply (f_equal (fun f => this (pix f 2 2))) in H.
    vm_compute in H. discriminate H.
  - qc_closed.
  - qc_closed.
Qed.

End RotateSmallFrames.

(** * Further properties of the three files *)

(** ** mustard.py, neo_mayo.py: [normlizangle] *)

Section Normalisation.
Import Np Algo Spec.

Lemma floor_by_360 (x : Qc) :
  (inject_Z (floor (x / ofZ 360)%Qc) * 360 <= this x)%Q
  /\ (this x < inject_Z (floor (x / ofZ 360)%Qc) * 360 + 360)%Q.
Proof.
  unfold floor.
  pose proof (Qfloor_le (this (x / ofZ 360)%Qc)) as L.
  pose proof (Qlt_floor (this (x / ofZ 360)%Qc)) as U.
  rewrite inject_Z_plus in U.
  revert L U. generalize (inject_Z (Qfloor (this (x / ofZ 360)%Qc))). intros z L U.
  rewrite this_div_360 in L, U.
  change (inject_Z 1) with 1%Q in U. split; lra.
Qed.

Lemma pymod_360_range (x : Qc) :
  (0 <= pymod x (ofZ 360))%Qc /\ (pymod x (ofZ 360) < ofZ 360)%Qc.
Proof.
  destruct (floor_by_360 x) as [L U]. unfold pymod, Qcle, Qclt.
  rewrite this_minus, this_mult, !this_ofZ. change (this 0%Qc) with 0%Q.
  unfold inject_Z in *. split; lra.
Qed.

(** X1.  [normlizangle] sends every angle into [0, 360) and moves it by a
    whole number of turns; the copy of neo_mayo.py is the same function. *)
Theorem normlizangle_range (angles : list Qc) :
  Forall2 (fun a b => (0 <= b)%Qc /\ (b < ofZ 360)%Qc
                      /\ exists m : Z, (b - a = ofZ 360 * ofZ m)%Qc)
          angles (Mustard.normlizangle angles)
  /\ NeoMayo.normlizangle angles = Mustard.normlizangle angles.
Proof.
  split; [|reflexivity].
  unfold Mustard.normlizangle. induction angles as [|a l IH]; simpl; constructor; [|exact IH].
  destruct (pymod_360_range (if ltb a 0%Qc then (a + ofZ 360)%Qc else a)) as [L U].
  split; [exact L|]. split; [exact U|].
  unfold pymod. destruct (ltb a 0%Qc).
  - exists (1 - floor ((a + ofZ 360) / ofZ 360)%Qc)%Z.
    rewrite <- ofZ_sub. change (ofZ 1) with 1%Qc. ring.
  - exists (- floor (a / ofZ 360)%Qc)%Z.
    replace (ofZ (- floor (a / ofZ 360)%Qc)) with (- ofZ (floor (a / ofZ 360)%Qc))%Qc.
    + ring.
    + change (- floor (a / ofZ 360)%Qc)%Z with (0 - floor (a / ofZ 360)%Qc)%Z.
      rewrite <- ofZ_sub. change (ofZ 0) with 0%Qc. ring.
Qed.

End Normalisation.

(** ** algo.py: the angle reduction on any input angle *)

Section WrappedAngles.
Import Np Algo Spec.

Lemma wrap_up_congruent (fuel : nat) (a : Qc) :
  exists m : Z, (wrap_up fuel a - a = ofZ 360 * ofZ m)%Qc.
Proof.
  revert a. induction fuel as [|fuel IH]; intro a; cbn [wrap_up].
  - exists 0%Z. change (ofZ 0) with 0%Qc. ring.
  - destruct (ltb a 0%Qc).
    + destruct (IH (a + ofZ 360)%Qc) as [m E]. exists (m + 1)%Z.
      rewrite <- ofZ_add. change (ofZ 1) with 1%Qc.
      replace (wrap_up fuel (a + ofZ 360) - a)%Qc
        with ((wrap_up fuel (a + ofZ 360) - (a + ofZ 360)) + ofZ 360)%Qc by ring.
      rewrite E. ring.
    + exists 0%Z. change (ofZ 0) with 0%Qc. ring.
Qed.

Lemma wrap_down_congruent (fuel : nat) (a : Qc) :
  exists m : Z, (wrap_down fuel a - a = ofZ 360 * ofZ m)%Qc.
Proof.
  revert a. induction fuel as [|fuel IH]; intro a; cbn [wrap_down].
  - exists 0%Z. change (ofZ 0) with 0%Qc. ring.
  - destruct (gtb a (ofZ 360)).
    + destruct (IH (a - ofZ 360)%Qc) as [m E]. exists (m - 1)%Z.
      rewrite <- ofZ_sub. change (ofZ 1) with 1%Qc.
      replace (wrap_down fuel (a - ofZ 360) - a)%Qc
        with ((wrap_down fuel (a - ofZ 360) - (a - ofZ 360)) - ofZ 360)%Qc by ring.
      rewrite E. ring.
    + exists 0%Z. change (ofZ 0) with 0%Qc. ring.
Qed.

Lemma wrap_angle_congruent (a : Qc) :
  exists m : Z, (wrap_angle a - a = ofZ 360 * ofZ m)%Qc.
Proof.
  unfold wrap_angle.
  destruct (wrap_up_congruent (turns a) a) as [m E].
  destruct (wrap_down_congruent (turns a) (wrap_up (turns a) a)) as [m' E'].
  exists (m' + m)%Z. rewrite <- ofZ_add.
  replace (wrap_down (turns a) (wrap_up (turns a) a) - a)%Qc
    with ((wrap_down (turns a) (wrap_up (turns a) a) - wrap_up (turns a) a)
          + (wrap_up (turns a) a - a))%Qc by ring.
  rewrite E, E'. ring.
Qed.

(** X2.  For any input angle whose wrapped value is neither 135 nor 315,
    the quarter turns and the residual angle of [tensor_rotate_fft] add up
    to the input angle modulo 360, and the residual is at most 45 degrees
    in absolute value. *)
Theorem angle_reduction_sound (a : Qc) :
  wrap_angle a <> ofZ 135 -> wrap_angle a <> ofZ 315 ->
  (abs (snd (angle_reduction a)) <= ofZ 45)%Qc
  /\ exists m : Z,
       (ofZ 90 * ofZ (fst (angle_reduction a)) + snd (angle_reduction a) - a
        = ofZ 360 * ofZ m)%Qc.
Proof.
  intros H1 H2. destruct (@angle_reduction_realizes a H1 H2) as [B [m E]].
  split; [exact B|].
  destruct (wrap_angle_congruent a) as [m' E'].
  exists (m + m')%Z. rewrite <- ofZ_add.
  replace (ofZ 90 * ofZ (fst (angle_reduction a)) + snd (angle_reduction a) - a)%Qc
    with ((ofZ 90 * ofZ (fst (angle_reduction a)) + snd (angle_reduction a) - wrap_angle a)
          + (wrap_angle a - a))%Qc by ring.
  rewrite E, E'. ring.
Qed.

Lemma angle_reduction_sound_witness :
  wrap_angle (ofZ (-100)) <> ofZ 135 /\ wrap_angle (ofZ (-100)) <> ofZ 315
  /\ angle_reduction (ofZ (-100)) = (3%Z, (- ofZ 10)%Qc)
  /\ (abs (snd (angle_reduction (ofZ (-100)))) <= ofZ 45)%Qc.
Proof.
  assert (N1 : wrap_angle (ofZ (-100)) <> ofZ 135).
  { intro H. apply (f_equal (fun x => this x)) in H. vm_compute in H. discriminate H. }
  assert (N2 : wrap_angle (ofZ (-100)) <> ofZ 315).
  { intro H. apply (f_equal (fun x => this x)) in H. vm_compute in H. discriminate H. }
  split; [exact N1|]. split; [exact N2|].
  split; [vm_compute; f_equal; qc_closed|].
  exact (proj1 (@angle_reduction_sound (ofZ (-100)) N1 N2)).
Defined.

Lemma rint_bounds (x : Qc) : (floor x <= rint x <= floor x + 1)%Z.
Proof.
  unfold rint. destruct (ltb _ _); [lia|]. destruct (ltb _ _); [lia|].
  destruct (Z.even _); lia.
Qed.

(** X3.  For any input angle, the two wrapping loops leave an angle in
    [0, 360] that differs from the input by a whole number of turns; the
    residual angle handed to the shears is at most 45 degrees in absolute
    value and differs from the wrapped angle by a whole number of quarter
    turns; the count handed to [rot90] lies between 0 and 4. *)
Theorem angle_reduction_bounds (a : Qc) :
  (0 <= wrap_angle a)%Qc /\ (wrap_angle a <= ofZ 360)%Qc
  /\ (exists m : Z, (wrap_angle a - a = ofZ 360 * ofZ m)%Qc)
  /\ (abs (snd (angle_reduction a)) <= ofZ 45)%Qc
  /\ (exists m : Z, (wrap_angle a - snd (angle_reduction a) = ofZ 90 * ofZ m)%Qc)
  /\ (0 <= fst (angle_reduction a) <= 4)%Z.
Proof.
  destruct (wrap_angle_range a) as [lo hi].
  split; [exact lo|]. split; [exact hi|]. split; [apply wrap_angle_congruent|].
  unfold angle_reduction. generalize dependent (wrap_angle a). intros theta lo hi.
  unfold reduce_angle.
  destruct (gtb theta (ofZ 45)) eqn:G; cbn [fst snd].
  2: { split; [|split; [|lia]].
       - unfold abs. rewrite (proj2 (ltb_ge theta 0%Qc) lo). apply ltb_ge in G. exact G.
       - exists 0%Z. change (ofZ 0) with 0%Qc. ring. }
  apply ltb_lt in G.
  destruct (floor_by_90 theta) as [FL FU].
  pose proof (rint_bounds (theta / ofZ 90)%Qc) as RB.
  unfold pymod.
  set (q := floor (theta / ofZ 90)%Qc) in *.
  set (d := (theta - ofZ 90 * ofZ q)%Qc).
  assert (Hd : (this d == this theta - 90 * inject_Z q)%Q).
  { unfold d. rewrite this_minus, this_mult, !this_ofZ. unfold inject_Z. lra. }
  unfold Qclt in G. rewrite this_ofZ in G.
  unfold Qcle in lo, hi. rewrite this_ofZ in hi. change (this 0%Qc) with 0%Q in lo.
  assert (Q0 : (0 <= q)%Z).
  { apply Z.lt_succ_r. rewrite Zlt_Qlt. unfold Z.succ. rewrite inject_Z_plus.
    unfold inject_Z in *. lra. }
  assert (Q4 : (q <= 4)%Z).
  { rewrite Zle_Qle. unfold inject_Z in *. lra. }
  split; [|split].
  - destruct (gtb d (ofZ 45)) eqn:D.
    + apply ltb_lt in D. unfold Qclt in D. rewrite Hd, this_ofZ in D.
      unfold abs.
      assert (P : ltb (- (ofZ 90 - d))%Qc 0%Qc = true).
      { apply ltb_lt. unfold Qclt. rewrite this_opp, this_minus, Hd, this_ofZ.
        change (this 0%Qc) with 0%Q. unfold inject_Z in *. lra. }
      rewrite P. unfold Qcle. rewrite !this_opp, this_minus, Hd, !this_ofZ.
      unfold inject_Z in *. lra.
    + apply ltb_ge in D. unfold abs.
      assert (P : ltb d 0%Qc = false).
      { apply ltb_ge. unfold Qcle. rewrite Hd. change (this 0%Qc) with 0%Q.
        unfold inject_Z in *. lra. }
      rewrite P. exact D.
  - destruct (gtb d (ofZ 45)).
    + exists (q + 1)%Z. rewrite <- ofZ_add. change (ofZ 1) with 1%Qc. unfold d. ring.
    + exists q. unfold d. ring.
  - split; [lia|].
    destruct (Z.eq_dec q 4) as [E4|N4]; [|lia].
    assert (R0 : rint (theta / ofZ 90)%Qc = q).
    { unfold rint. fold q.
      assert (L : ltb (theta / ofZ 90 - ofZ q)%Qc (frac 1 2) = true).
      { apply ltb_lt. unfold Qclt. rewrite this_minus, this_div_90, this_ofZ, this_half.
        rewrite E4 in *. unfold inject_Z in *. lra. }
      rewrite L. reflexivity. }
    lia.
Qed.

End WrappedAngles.

(** ** mustard.py: [find_nearest] *)

Section Nearest.
Import Np Mustard.

Lemma nearest_fold (v : Qc) (rest : list Qc) (a : Qc) :
  let pick := fun best x : Qc =>
                if flt (Fin (abs (x - v)%Qc)) (Fin (abs (best - v)%Qc)) then x else best in
  In (fold_left pick rest a) (a :: rest)
  /\ (abs (fold_left pick rest a - v) <= abs (a - v))%Qc
  /\ Forall (fun y => (abs (fold_left pick rest a - v) <= abs (y - v))%Qc) rest.
Proof.
  intro pick. revert a. induction rest as [|x rest IH]; intro a; cbn [fold_left].
  - split; [left; reflexivity|]. split; [apply Qcle_refl|constructor].
  - destruct (IH (pick a x)) as [I [B F]].
    assert (P : (abs (pick a x - v) <= abs (a - v))%Qc
                /\ (abs (pick a x - v) <= abs (x - v))%Qc
                /\ (pick a x = a \/ pick a x = x)).
    { unfold pick, flt, fgt, gtb.
      destruct (ltb (abs (x - v)) (abs (a - v))) eqn:E.
      - apply ltb_lt in E. split; [apply Qclt_le_weak; exact E|].
        split; [apply Qcle_refl|right; reflexivity].
      - apply ltb_ge in E. split; [apply Qcle_refl|]. split; [exact E|left; reflexivity]. }
    destruct P as [Pa [Px Pe]].
    split; [|split].
    + destruct I as [I|I].
      * destruct Pe as [Pe|Pe]; [left|right; left];
          (transitivity (pick a x); [symmetry; exact Pe|exact I]).
      * right. right. exact I.
    + eapply Qcle_trans; [exact B|exact Pa].
    + constructor; [|exact F]. eapply Qcle_trans; [exact B|exact Px].
Qed.

(** X4.  The value [find_nearest] returns is an element of the array and
    no element of the array is closer to the target. *)
Theorem find_nearest_is_nearest (array : list Qc) (v x : Qc) :
  find_nearest array (Fin v) = Ok x ->
  In x array /\ Forall (fun y => (abs (x - v) <= abs (y - v))%Qc) array.
Proof.
  destruct array as [|a rest]; [discriminate|].
  unfold find_nearest. intro H. injection H as <-.
  destruct (nearest_fold v rest a) as [I [B F]].
  split; [exact I|]. constructor; [exact B|exact F].
Qed.

Lemma find_nearest_is_nearest_witness :
  find_nearest [ofZ 10; ofZ 40; ofZ 25] (Fin (ofZ 30)) = Ok (ofZ 25)
  /\ In (ofZ 25) [ofZ 10; ofZ 40; ofZ 25].
Proof.
  assert (E : find_nearest [ofZ 10; ofZ 40; ofZ 25] (Fin (ofZ 30)) = Ok (ofZ 25)).
  { vm_compute. f_equal; try qc_closed. }
  split; [exact E|].
  exact (proj1 (@find_nearest_is_nearest _ _ _ E)).
Defined.

End Nearest.

(** ** mustard.py, neo_mayo.py: [loss_ratio] *)

Section LossRatio.
Import Np.

(** X5.  Both copies of [loss_ratio] raise exactly when the loss is 0.
    Otherwise the values add up to the loss and the percentages to 100,
    the two regularisation terms being counted only when [Ractiv] is set. *)
Theorem loss_ratio_adds_up (Ractiv : bool) (R1 R2 Rp L : Qc) :
  match MustardHelpers.loss_ratio Ractiv R1 R2 Rp L with
  | Ok [d; dp; r1; r1p; r2; r2p; rp; rpp] =>
      L <> 0%Qc
      /\ (d + (if Ractiv then r1 + r2 else 0) + rp = L)%Qc
      /\ (dp + (if Ractiv then r1p + r2p else 0) + rpp = ofZ 100)%Qc
  | Ok _ => False
  | Raise _ => L = 0%Qc
  end
  /\ match NeoMayoHelpers.loss_ratio Ractiv R1 R2 L with
     | Ok [r1; r1p; r2; r2p; d; dp] =>
         L <> 0%Qc
         /\ (d + (if Ractiv then r1 + r2 else 0) = L)%Qc
         /\ (dp + (if Ractiv then r1p + r2p else 0) = ofZ 100)%Qc
     | Ok _ => False
     | Raise _ => L = 0%Qc
     end.
Proof.
  unfold MustardHelpers.loss_ratio, NeoMayoHelpers.loss_ratio.
  destruct (eqb L 0%Qc) eqn:E.
  - apply eqb_eq in E. split; exact E.
  - assert (HL : L <> 0%Qc) by (intro H; apply eqb_eq in H; congruence).
    cbn [app]. split; (split; [exact HL|]); destruct Ractiv; split;
      try ring; field; exact HL.
Qed.

End LossRatio.

(** ** The rotation weights are bounded *)

Section WeightBounds.
Import Np Invariants.

Lemma this_div (x y : Qc) : (this (x / y)%Qc == this x / this y)%Q.
Proof.
  unfold Qcdiv, Qcinv. rewrite this_mult.
  change (this (Q2Qc (/ y))) with (Qred (/ y)). rewrite Qred_correct. reflexivity.
Qed.

Lemma this_div_2 (a : Qc) : (this (a / ofZ 2)%Qc == this a * (1 # 2))%Q.
Proof. rewrite this_div. reflexivity. Qed.

Lemma abs_sym (x y : Qc) : abs (x - y) = abs (y - x).
Proof.
  apply Qc_is_canon. unfold abs.
  destruct (ltb (x - y) 0%Qc) eqn:E1; destruct (ltb (y - x) 0%Qc) eqn:E2;
    try (apply ltb_lt in E1; unfold Qclt in E1; rewrite this_minus in E1);
    try (apply ltb_ge in E1; unfold Qcle in E1; rewrite this_minus in E1);
    try (apply ltb_lt in E2; unfold Qclt in E2; rewrite this_minus in E2);
    try (apply ltb_ge in E2; unfold Qcle in E2; rewrite this_minus in E2);
    change (this 0%Qc) with 0%Q in *;
    rewrite ?this_opp, !this_minus; lra.
Qed.

Lemma max_rot_capped (angs : list Qc) : capped (Mustard.max_rot_of angs).
Proof.
  unfold capped, Mustard.max_rot_of. intros d.
  destruct (median (Mustard.steps angs)) as [q|]; cbn [fgt].
  - destruct (gtb q 1%Qc) eqn:G; cbn [flt fgt]; unfold gtb in *; intro H.
    + apply ltb_lt in H. exact H.
    + apply ltb_lt in H. apply ltb_ge in G. eapply Qclt_le_trans; eassumption.
  - cbn. discriminate.
Qed.

Lemma after_many (fuel : nat) (angs : list Qc) (max_rot : fval) (id_ang : Z) :
  (1 < Mustard.neighbours_after fuel angs max_rot id_ang id_ang 0 0%Qc)%Z ->
  flt (Fin (0 + abs (getitem angs (id_ang + 1) - getitem angs id_ang))%Qc) max_rot = true.
Proof.
  destruct fuel as [|[|fuel]]; cbn [Mustard.neighbours_after].
  - lia.
  - destruct (_ && _); lia.
  - destruct (flt (Fin 0%Qc) max_rot && _); [|lia].
    destruct (flt _ max_rot) eqn:E; [reflexivity|]. cbn [andb]. lia.
Qed.

Lemma before_many (fuel : nat) (angs : list Qc) (max_rot : fval) (id_ang : Z) :
  (1 < Mustard.neighbours_before fuel angs max_rot id_ang id_ang 0 0%Qc)%Z ->
  flt (Fin (0 + abs (getitem angs (id_ang - 1) - getitem angs id_ang))%Qc) max_rot = true.
Proof.
  destruct fuel as [|[|fuel]]; cbn [Mustard.neighbours_before].
  - lia.
  - destruct (_ && _); lia.
  - destruct (flt (Fin 0%Qc) max_rot && _); [|lia].
    destruct (flt _ max_rot) eqn:E; [reflexivity|]. cbn [andb]. lia.
Qed.

Lemma half_weight_le (nb : Z) (d : Qc) :
  ((1 < nb)%Z -> (d < 1)%Qc) -> (0 <= d)%Qc ->
  ((if (1 <? nb)%Z then (1 + d) / ofZ nb else 1) <= 1)%Qc.
Proof.
  intros H D. destruct (Z.ltb_spec 1 nb) as [L|L]; [|apply Qcle_refl].
  specialize (H L). unfold Qcle, Qclt in *. rewrite this_div, this_plus, this_ofZ.
  change (this 1%Qc) with 1%Q in *. change (this 0%Qc) with 0%Q in *.
  apply Qle_shift_div_r.
  - change 0%Q with (inject_Z 0). rewrite <- Zlt_Qlt. lia.
  - assert (2 <= inject_Z nb)%Q by (change 2%Q with (inject_Z 2); rewrite <- Zle_Qle; lia).
    lra.
Qed.

Lemma frame_weight_le (angs : list Qc) (max_rot : fval) (id_ang : Z) :
  capped max_rot -> (Mustard.frame_weight angs max_rot id_ang <= 1)%Qc.
Proof.
  intro C. unfold Mustard.frame_weight.
  pose proof (@half_weight_le
                (Mustard.neighbours_after (List.length angs) angs max_rot id_ang id_ang 0 0%Qc)
                (abs (getitem angs id_ang - getitem angs (id_ang + 1)))) as W1.
  pose proof (@half_weight_le
                (Mustard.neighbours_before (List.length angs) angs max_rot id_ang id_ang 0 0%Qc)
                (abs (getitem angs id_ang - getitem angs (id_ang - 1)))) as W2.
  assert (A1 : ((if (1 <? Mustard.neighbours_after (List.length angs) angs max_rot
                            id_ang id_ang 0 0%Qc)%Z
                 then (1 + abs (getitem angs id_ang - getitem angs (id_ang + 1)))
                      / ofZ (Mustard.neighbours_after (List.length angs) angs max_rot
                               id_ang id_ang 0 0%Qc)
                 else 1) <= 1)%Qc).
  { apply W1; [|apply abs_nonneg]. intro L. apply after_many in L. apply C in L.
    rewrite Qcplus_0_l, abs_sym in L. exact L. }
  assert (A2 : ((if (1 <? Mustard.neighbours_before (List.length angs) angs max_rot
                            id_ang id_ang 0 0%Qc)%Z
                 then (1 + abs (getitem angs id_ang - getitem angs (id_ang - 1)))
                      / ofZ (Mustard.neighbours_before (List.length angs) angs max_rot
                               id_ang id_ang 0 0%Qc)
                 else 1) <= 1)%Qc).
  { apply W2; [|apply abs_nonneg]. intro L. apply before_many in L. apply C in L.
    rewrite Qcplus_0_l, abs_sym in L. exact L. }
  clear W1 W2. revert A1 A2.
  generalize (if (1 <? Mustard.neighbours_after (List.length angs) angs max_rot
                          id_ang id_ang 0 0%Qc)%Z
              then (1 + abs (getitem angs id_ang - getitem angs (id_ang + 1)))
                   / ofZ (Mustard.neighbours_after (List.length angs) angs max_rot
                            id_ang id_ang 0 0%Qc)
              else 1)%Qc.
  generalize (if (1 <? Mustard.neighbours_before (List.length angs) angs max_rot
                          id_ang id_ang 0 0%Qc)%Z
              then (1 + abs (getitem angs id_ang - getitem angs (id_ang - 1)))
                   / ofZ (Mustard.neighbours_before (List.length angs) angs max_rot
                            id_ang id_ang 0 0%Qc)
              else 1)%Qc.
  intros w2 w1 A1 A2. unfold Qcle in *. rewrite this_div_2, this_plus.
  change (this 1%Qc) with 1%Q in *. lra.
Qed.

(** X6.  Every weight [compute_rot_weight] of mustard.py gives a frame is
    positive and at most 1. *)
Theorem rot_weights_in_unit_interval (angs : list Qc) :
  Forall (fun w => (0 < w)%Qc /\ (w <= 1)%Qc) (Mustard.compute_rot_weight angs).
Proof.
  unfold Mustard.compute_rot_weight, mapi.
  apply Forall_forall. intros w Hin. apply in_map_iff in Hin.
  destruct Hin as [[i a] [<- _]]. split.
  - apply frame_weight_pos.
  - apply frame_weight_le. apply max_rot_capped.
Qed.

Lemma qsum_scale (c : Qc) (l : list Qc) :
  qsum (map (fun w => (w * c)%Qc) l) = (qsum l * c)%Qc.
Proof.
  induction l as [|w l IH]; simpl.
  - ring.
  - rewrite IH. ring.
Qed.

(** X7.  On a non-empty angle list, [compute_rot_weight] of neo_mayo.py
    answers one positive weight per angle and the weights add up to the
    number of frames. *)
Theorem neo_mayo_weights_sum (angs : list Qc) :
  angs <> [] ->
  exists ws, NeoMayo.compute_rot_weight angs = Ok ws
             /\ List.length ws = List.length angs
             /\ Forall (fun w => (0 < w)%Qc) ws
             /\ qsum ws = ofZ (Z.of_nat (List.length angs)).
Proof.
  intro Hne. unfold NeoMayo.compute_rot_weight.
  rewrite unscaled_weights_same.
  pose proof (@mustard_weights_sum_pos angs Hne) as P.
  destruct (eqb (qsum (Mustard.compute_rot_weight angs)) 0%Qc) eqn:E.
  { apply eqb_eq in E. rewrite E in P. exfalso. exact (Qclt_not_eq _ _ P eq_refl). }
  eexists. split; [reflexivity|]. split; [|split].
  - rewrite length_map. apply compute_rot_weight_length.
  - apply Forall_forall. intros w Hin. apply in_map_iff in Hin.
    destruct Hin as [u [<- Hu]].
    pose proof (mustard_weights_pos angs) as Q. rewrite Forall_forall in Q.
    assert (D : (0 < ofZ (Z.of_nat (List.length angs))
                     / qsum (Mustard.compute_rot_weight angs))%Qc).
    { apply Qc_div_pos; [|exact P].
      apply ofZ_pos. destruct angs; [contradiction|]. simpl. lia. }
    specialize (Q u Hu). cbv beta in Q. unfold Qclt in *. rewrite this_mult.
    change (this 0%Qc) with 0%Q in *. apply Qmult_lt_0_compat; assumption.
  - rewrite qsum_scale. field. intro Z0. rewrite Z0 in P.
    exact (Qclt_not_eq _ _ P eq_refl).
Qed.

Lemma neo_mayo_weights_sum_witness :
  Scenario.drifting <> []
  /\ exists ws, NeoMayo.compute_rot_weight Scenario.drifting = Ok ws
                /\ qsum ws = ofZ 4.
Proof.
  assert (N : Scenario.drifting <> []) by discriminate.
  split; [exact N|].
  destruct (@neo_mayo_weights_sum Scenario.drifting N) as [ws [E [_ [_ S]]]].
  exists ws. split; [exact E|exact S].
Defined.

End WeightBounds.

(** ** mustard.py: the outcome of the constructor *)

Section ConstructionOutcome.
Import Np Mustard Scenario Spec Invariants.

Lemma shift_is_null (x : Qc) (l : list Qc) :
  map (fun a => (a - 0 * x)%Qc) l = l.
Proof.
  rewrite <- (map_id l) at 2. apply map_ext. intro a. ring.
Qed.

(** X8.  What the constructor does without [Badframes].  It returns only
    when the cube and the angle list are non-empty and [pupil] is "edge" or
    a number; the estimator then keeps the cube, counts its frames, has a
    null [ang_shift], a model holding the normalised angles, unit frame
    weights, no initialisation and the scalar mask 1.  It raises in every
    other case; with [pupil=None] and a non-empty cube the exception is a
    [TypeError]. *)
Theorem init_outcome {torch} (ext : externals torch) (c : cube) (a : list Qc)
    (coro0 : option Qc) (pupil : pupil_arg) (hf : Qc) (psf : option frame) :
  match init ext c a coro0 pupil hf psf None with
  | Ok self =>
      c <> [] /\ a <> [] /\ valid_pupil pupil
      /\ science_data self = c /\ nb_frame self = List.length c
      /\ shape self = Tensor.shape (hd [] c)
      /\ ang_shift self = 0%Qc
      /\ rot_angles (model self) = normlizangle a
      /\ ang_weight self = repeat 1%Qc (List.length c)
      /\ L0x0 self = None /\ mask self = Scalar 1%Qc
  | Raise e =>
      c = [] \/ a = [] \/ (pupil = PupilNone /\ exists msg, e = TypeError msg)
      \/ (pupil <> PupilNone /\ ~ valid_pupil pupil)
  end.
Proof.
  unfold init. cbn [bind].
  destruct c as [|f0 sd]; [left; reflexivity|].
  destruct pupil as [|s|r|]; cbn [bind].
  - right. right. left. split; [reflexivity|]. eexists. reflexivity.
  - destruct (String.eqb_spec s "edge") as [->|Ns]; cbn [bind].
    + destruct a as [|a0 an]; [right; left; reflexivity|].
      unfold normlizangle, find_nearest. cbn [map bind].
      rewrite shape_guard_is_dead, configR2_default. cbn [bind negb].
      rewrite configR1_default.
      cbn [science_data nb_frame shape ang_shift model ang_weight L0x0 mask rot_angles
           set_regul set_p_L set_smooth set_config set_regul2 hd].
      repeat split; try discriminate; try reflexivity.
      * ring.
      * f_equal; [ring|]. apply shift_is_null.
    + right. right. right. split; [discriminate|]. exact Ns.
  - destruct a as [|a0 an]; [right; left; reflexivity|].
    unfold normlizangle, find_nearest. cbn [map bind].
    rewrite shape_guard_is_dead, configR2_default. cbn [bind negb].
    rewrite configR1_default.
    cbn [science_data nb_frame shape ang_shift model ang_weight L0x0 mask rot_angles
         set_regul set_p_L set_smooth set_config set_regul2 hd].
    repeat split; try discriminate; try reflexivity.
    * ring.
    * f_equal; [ring|]. apply shift_is_null.
  - right. right. right. split; [discriminate|]. intro H. exact H.
Qed.

End ConstructionOutcome.

(** ** mustard.py: [configR2] and the short name "TB" *)

Section SecondRegulariser.
Import Np Mustard Scenario Spec.

(** X9.  [configR2] with [penaliz] spelled "TB" in any case: when the call
    returns, [self.regul2] is the function it was before the call. *)
Theorem tb_shorthand_is_inert {torch} (ext : externals torch) (self self' : estimator)
    (Msk : option frame) (mode penaliz : string) (invert : bool) (p_w : Qc) :
  capitalize penaliz = "Tb"%string ->
  configR2 ext self Msk mode penaliz invert p_w = Ok self' ->
  regul2 self' = regul2 self.
Proof.
  intros Hp. unfold configR2. rewrite Hp.
  destruct (negb _); [discriminate|].
  change (str_in "Tb" ["X"; "L"; "Both"; "B"; "Tb"; "Trueboth"]%string) with true.
  change (str_in "Tb" ["Both"; "B"]%string) with false.
  change (str_in "Tb" ["Trueboth"; "TB"]%string) with false.
  change (("Tb" =? "X")%string) with false.
  change (("Tb" =? "L")%string) with false.
  cbv iota. cbn [negb].
  destruct ((if (mode =? "pdi")%string then "mask"%string else mode) =? "dist")%string.
  { cbn [bind]. intro H. injection H as <-. reflexivity. }
  destruct ((if (mode =? "pdi")%string then "mask"%string else mode) =? "mask")%string.
  { cbn [bind]. intro H. injection H as <-. reflexivity. }
  destruct ((if (mode =? "pdi")%string then "mask"%string else mode) =? "l1")%string.
  { cbn [bind]. intro H. injection H as <-. reflexivity. }
  cbn [bind]. discriminate.
Qed.

Lemma tb_shorthand_is_inert_witness :
  exists self self' : estimator,
    build cube2 angles2 = Ok self
    /\ capitalize "TB" = "Tb"%string
    /\ configR2 scripted self None "l1" "TB" false (ofZ 2) = Ok self'
    /\ regul2 self' = regul2 self.
Proof.
  assert (B : exists self, build cube2 angles2 = Ok self)
    by (eexists; vm_compute; reflexivity).
  destruct B as [self B]. exists self.
  assert (C : exists self', configR2 scripted self None "l1" "TB" false (ofZ 2) = Ok self').
  { eexists. reflexivity. }
  destruct C as [self' C]. exists self'.
  split; [exact B|]. split; [reflexivity|]. split; [exact C|].
  exact (@tb_shorthand_is_inert _ scripted self self' None "l1" "TB" false (ofZ 2)
           eq_refl C).
Defined.

End SecondRegulariser.

(** ** mustard.py: what [estimate] keeps, ignores and refuses *)

Section EstimateInvariants.
Import Np Mustard Scenario Spec Invariants Runs.
Context {torch : Type} (ext : externals torch) (opt0 : torch).

Lemma same_instrument_refl (a : estimator) : same_instrument a a.
Proof. unfold same_instrument. repeat split; reflexivity. Qed.

Lemma same_instrument_trans (a b c : estimator) :
  same_instrument a b -> same_instrument b c -> same_instrument a c.
Proof.
  unfold same_instrument. intros H1 H2.
  repeat match goal with H : _ /\ _ |- _ => destruct H end.
  repeat split; etransitivity; eassumption.
Qed.

Lemma name_estimI_instrument (e : string) (self : estimator) :
  same_instrument (name_estimI e self) self.
Proof. unfold same_instrument, name_estimI. repeat split; reflexivity. Qed.

Lemma weigh_frames_instrument (o : options) (self self1 : estimator) :
  weigh_frames o self = Ok self1 -> same_instrument self1 self.
Proof.
  unfold weigh_frames. destruct (weighted_rot o).
  - destruct (_ =? _)%nat; [|discriminate].
    intro H. injection H as <-. unfold same_instrument. repeat split; reflexivity.
  - intro H. injection H as <-. apply same_instrument_refl.
Qed.

Lemma prepare_cube_instrument (o : options) (self : estimator) :
  same_instrument (prepare_cube ext o self) self
  /\ List.length (science_data (prepare_cube ext o self))
     = List.length (science_data self).
Proof.
  unfold prepare_cube, decompose, median_subtract, same_instrument.
  destruct (med_sub o), (min_sub o);
    cbn [science_data set_science_data set_science_data_ori set_stellar_halo
         set_ambiguities set_speckles];
    rewrite ?length_map; repeat split; reflexivity.
Qed.

Lemma initial_guess_instrument (o : options) (derot : cube) (self : estimator) :
  same_instrument (initial_guess ext o derot self) self.
Proof.
  unfold initial_guess, same_instrument. destruct (init_maxL o); repeat split; reflexivity.
Qed.

Lemma estimate_finish_instrument (p : prepared torch) (st : loop_state torch) :
  same_instrument (fst (estimate_finish ext p st)) (pr_self p).
Proof.
  unfold estimate_finish, same_instrument. destruct (final_choice st) as [L X].
  repeat split; reflexivity.
Qed.

(** X10.  With rotation weights on, [estimate] fails on the reshape of the
    weights exactly when the number of angles of the model differs from
    the number of frames of the cube. *)
Theorem weighted_estimate_needs_matching_lengths (self : estimator) (o : options) :
  weighted_rot o = true ->
  (estimate ext opt0 self o = Raise (ValueError "cannot reshape array")
   <-> List.length (rot_angles (model self)) <> nb_frame self).
Proof.
  intro Hw. split.
  - intros H Heq. revert H.
    unfold estimate, estimate_setup, weigh_frames. rewrite Hw.
    cbn [model name_estimI set_config nb_frame].
    rewrite compute_rot_weight_length, Heq, Nat.eqb_refl. cbn [bind].
    destruct (capitalize (estimI o) =? "Halo")%string; [discriminate|].
    destruct (L0x0 _) as [[L0 X0]|]; [|discriminate].
    destruct (smooth _); [|discriminate].
    destruct (regul _); [|discriminate].
    destruct (regul2 _); discriminate.
  - intro Hl. exact (@estimate_fails_on_mismatch torch ext opt0 self o Hw Hl).
Qed.

(** X11.  A call of [estimate] that returns leaves the shapes, the masks,
    the forward model and the configured regularisers as they were, and
    the stored cube keeps its number of frames. *)
Theorem estimate_keeps_instrument (self self' : estimator) (o : options)
    (r : frame * frame * option (list Qc)) :
  estimate ext opt0 self o = Ok (self', r) ->
  same_instrument self' self
  /\ List.length (science_data self') = List.length (science_data self).
Proof.
  unfold estimate. intro H.
  destruct (estimate_setup ext opt0 self o) as [p|e] eqn:S; cbn [bind] in H;
    [|discriminate].
  injection H as H.
  destruct (@estimate_setup_inv torch ext opt0 self o p S)
    as [self1 [derot [L0 [X0 [W [E _]]]]]].
  pose proof (estimate_finish_instrument p (estimate_loop ext o p)) as F.
  destruct (estimate_finish_keeps ext p (estimate_loop ext o p)) as [A _].
  rewrite H in F, A. cbn [fst] in F, A.
  assert (I : same_instrument (pr_self p) self).
  { rewrite E.
    eapply same_instrument_trans; [apply initial_guess_instrument|].
    eapply same_instrument_trans; [apply prepare_cube_instrument|].
    eapply same_instrument_trans; [eapply weigh_frames_instrument; exact W|].
    apply name_estimI_instrument. }
  split; [eapply same_instrument_trans; eassumption|].
  rewrite A, E.
  destruct (initial_guess_keeps ext o derot (prepare_cube ext o self1)) as [B _].
  rewrite B. rewrite (proj2 (prepare_cube_instrument o self1)).
  destruct (@weigh_frames_keeps o _ _ W) as [Hd _]. rewrite Hd. reflexivity.
Qed.

(** [estimate] never reads [L0x0]. *)
Lemma weigh_frames_L0x0 (o : options) (v : option (frame * frame)) (self : estimator) :
  weigh_frames o (set_L0x0 v self)
  = match weigh_frames o self with
    | Ok s => Ok (set_L0x0 v s)
    | Raise e => Raise e
    end.
Proof.
  unfold weigh_frames. destruct (weighted_rot o); [|reflexivity].
  cbn [model nb_frame set_L0x0]. destruct (_ =? _)%nat; reflexivity.
Qed.

Lemma prepare_cube_L0x0 (o : options) (v : option (frame * frame)) (self : estimator) :
  prepare_cube ext o (set_L0x0 v self) = set_L0x0 v (prepare_cube ext o self).
Proof.
  unfold prepare_cube. destruct (med_sub o), (min_sub o); reflexivity.
Qed.

Lemma initial_guess_L0x0 (o : options) (derot : cube) (v : option (frame * frame))
    (self : estimator) :
  initial_guess ext o derot (set_L0x0 v self) = initial_guess ext o derot self.
Proof. unfold initial_guess. destruct (init_maxL o); reflexivity. Qed.

Lemma estimate_setup_L0x0 (o : options) (v : option (frame * frame)) (self : estimator) :
  estimate_setup ext opt0 (set_L0x0 v self) o = estimate_setup ext opt0 self o.
Proof.
  unfold estimate_setup.
  change (name_estimI (capitalize (estimI o)) (set_L0x0 v self))
    with (set_L0x0 v (name_estimI (capitalize (estimI o)) self)).
  rewrite weigh_frames_L0x0.
  destruct (weigh_frames o (name_estimI (capitalize (estimI o)) self)) as [s1|e];
    cbn [bind]; [|reflexivity].
  rewrite prepare_cube_L0x0. cbn [science_data model set_L0x0].
  rewrite initial_guess_L0x0. reflexivity.
Qed.

(** X12.  Whatever [set_init] stored, [estimate] answers as on the
    estimator of before [set_init]: the initialisation it stores is
    overwritten before it is read. *)
Theorem set_init_is_overwritten (self self1 : estimator) (X0 L0 : option frame)
    (RDI : bool) (o : options) :
  MustardHelpers.set_init ext self X0 L0 RDI = Ok self1 ->
  (exists L X, L0x0 self1 = Some (L, X)
               /\ (forall l, L0 = Some l -> L = l) /\ (forall x, X0 = Some x -> X = x))
  /\ estimate ext opt0 self1 o = estimate ext opt0 self o.
Proof.
  unfold MustardHelpers.set_init. intro H.
  assert (E : exists v, self1 = set_L0x0 (Some v) self
                        /\ (forall l, L0 = Some l -> fst v = l)
                        /\ (forall x, X0 = Some x -> snd v = x)).
  { destruct L0 as [l|], X0 as [x|], RDI; try discriminate;
      injection H as <-; eexists; (split; [reflexivity|]);
      split; intros y Hy; try discriminate; injection Hy as <-; reflexivity. }
  destruct E as [[L X] [-> [EL EX]]]. split.
  - exists L, X. split; [reflexivity|]. split; assumption.
  - unfold estimate. rewrite estimate_setup_L0x0. reflexivity.
Qed.

(** X13.  With [estimI] spelled "Halo" in any case, [estimate] never
    returns: it raises. *)
Theorem halo_mode_never_returns (self : estimator) (o : options) :
  capitalize (estimI o) = "Halo"%string ->
  raises (estimate ext opt0 self o).
Proof.
  intro H. unfold estimate, estimate_setup. rewrite H.
  destruct (weigh_frames o (name_estimI "Halo" self)); cbn [bind raises]; exact I.
Qed.

End EstimateInvariants.

Section EstimateRuns.
Import Np Mustard Scenario Spec Invariants Runs.

Lemma estimate_keeps_instrument_witness :
  exists (self self' : estimator) (r : frame * frame * option (list Qc)),
    build cube2 angles2 = Ok self
    /\ estimate scripted [] self (with_iters 0 (KInt 0) default_options) = Ok (self', r)
    /\ same_instrument self' self.
Proof.
  assert (B : exists self, build cube2 angles2 = Ok self)
    by (eexists; vm_compute; reflexivity).
  destruct B as [self B]. exists self.
  assert (S : exists self' r,
             estimate scripted [] self (with_iters 0 (KInt 0) default_options)
             = Ok (self', r)).
  { vm_compute in B. injection B as <-. eexists. eexists. vm_compute. reflexivity. }
  destruct S as [self' [r S]]. exists self', r.
  split; [exact B|]. split; [exact S|].
  exact (proj1 (@estimate_keeps_instrument _ scripted [] self self'
                  (with_iters 0 (KInt 0) default_options) r S)).
Defined.

Lemma set_init_is_overwritten_witness :
  exists (self self1 : estimator),
    build cube2 angles2 = Ok self
    /\ MustardHelpers.set_init scripted self (Some ones22) None false = Ok self1
    /\ estimate scripted [] self1 (with_iters 0 (KInt 0) default_options)
       = estimate scripted [] self (with_iters 0 (KInt 0) default_options).
Proof.
  assert (B : exists self, build cube2 angles2 = Ok self)
    by (eexists; vm_compute; reflexivity).
  destruct B as [self B]. exists self.
  assert (S : exists self1,
             MustardHelpers.set_init scripted self (Some ones22) None false = Ok self1).
  { eexists. reflexivity. }
  destruct S as [self1 S]. exists self1.
  split; [exact B|]. split; [exact S|].
  exact (proj2 (@set_init_is_overwritten _ scripted [] self self1 (Some ones22) None false
                  (with_iters 0 (KInt 0) default_options) S)).
Defined.

Lemma halo_mode_never_returns_witness :
  exists self : estimator,
    build cube2 angles2 = Ok self
    /\ capitalize (estimI (with_estimI "halo" default_options)) = "Halo"%string
    /\ raises (estimate scripted [] self (with_estimI "halo" default_options)).
Proof.
  assert (B : exists self, build cube2 angles2 = Ok self)
    by (eexists; vm_compute; reflexivity).
  destruct B as [self B]. exists self.
  split; [exact B|]. split; [reflexivity|].
  apply (@halo_mode_never_returns _ scripted [] self (with_estimI "halo" default_options)).
  reflexivity.
Defined.

Lemma weighted_estimate_needs_matching_lengths_witness :
  exists self : estimator,
    build cube3 angles2 = Ok self
    /\ weighted_rot default_options = true
    /\ List.length (rot_angles (model self)) <> nb_frame self
    /\ estimate scripted [] self default_options
       = Raise (ValueError "cannot reshape array").
Proof.
  assert (B : exists self, build cube3 angles2 = Ok self)
    by (eexists; vm_compute; reflexivity).
  destruct B as [self B]. exists self.
  assert (N : List.length (rot_angles (model self)) <> nb_frame self).
  { vm_compute in B. injection B as <-. vm_compute. discriminate. }
  split; [exact B|]. split; [reflexivity|]. split; [exact N|].
  exact (proj2 (@weighted_estimate_needs_matching_lengths _ scripted [] self
                  default_options eq_refl) N).
Defined.

End EstimateRuns.


(** ** mustard.py: the percentage weights *)

Section PercentageWeights.
Import Np Mustard Scenario Spec.

(** X14.  The percentage weights of step 0: when both raw regularisation
    values are positive, each weight times its raw value is the configured
    fraction of the data loss, and the activation iteration is left as it
    was. *)
Theorem percentage_weights (p1 p2 l a b : Qc) (k : Z) :
  (0 < a)%Qc -> (0 < b)%Qc ->
  fmul (fst (fst (auto_weights (Fin p1, Fin p2) (Fin l) (Fin a) (Fin b) k))) (Fin a)
  = Fin (p1 * l)%Qc
  /\ fmul (snd (fst (auto_weights (Fin p1, Fin p2) (Fin l) (Fin a) (Fin b) k))) (Fin b)
     = Fin (p2 * l)%Qc
  /\ snd (auto_weights (Fin p1, Fin p2) (Fin l) (Fin a) (Fin b) k) = k.
Proof.
  intros Ha Hb. unfold auto_weights. cbn [fst snd].
  assert (Ga : fgt (Fin a) (Fin 0%Qc) = true) by (apply ltb_lt; exact Ha).
  assert (Gb : fgt (Fin b) (Fin 0%Qc) = true) by (apply ltb_lt; exact Hb).
  assert (La : flt (Fin a) (Fin 0%Qc) = false).
  { apply ltb_ge. apply Qclt_le_weak. exact Ha. }
  assert (Lb : flt (Fin b) (Fin 0%Qc) = false).
  { apply ltb_ge. apply Qclt_le_weak. exact Hb. }
  assert (Na : eqb a 0%Qc = false).
  { destruct (eqb a 0%Qc) eqn:E; [|reflexivity]. apply eqb_eq in E. rewrite E in Ha.
    exfalso. exact (Qclt_not_eq _ _ Ha eq_refl). }
  assert (Nb : eqb b 0%Qc = false).
  { destruct (eqb b 0%Qc) eqn:E; [|reflexivity]. apply eqb_eq in E. rewrite E in Hb.
    exfalso. exact (Qclt_not_eq _ _ Hb eq_refl). }
  assert (Za : a <> 0%Qc) by (intro E; apply eqb_eq in E; congruence).
  assert (Zb : b <> 0%Qc) by (intro E; apply eqb_eq in E; congruence).
  rewrite Ga, Gb, La, Lb, !andb_true_r, !andb_false_r. cbn [orb].
  split; [|split; [|reflexivity]].
  - unfold truthy. destruct (eqb p1 0%Qc) eqn:E; cbn [negb].
    + apply eqb_eq in E. subst p1. cbn [fmul]. f_equal. ring.
    + cbn [fmul fdiv]. rewrite Na. cbn [fmul]. f_equal. field. exact Za.
  - unfold truthy. destruct (eqb p2 0%Qc) eqn:E; cbn [negb].
    + apply eqb_eq in E. subst p2. cbn [fmul]. f_equal. ring.
    + cbn [fmul fdiv]. rewrite Nb. cbn [fmul]. f_equal. field. exact Zb.
Qed.

Lemma percentage_weights_witness :
  (0 < ofZ 4)%Qc /\ (0 < ofZ 5)%Qc
  /\ fmul (fst (fst (auto_weights (Fin (frac 3 100), Fin (frac 3 100)) (Fin (ofZ 200))
                       (Fin (ofZ 4)) (Fin (ofZ 5)) 0))) (Fin (ofZ 4))
     = Fin (frac 3 100 * ofZ 200)%Qc.
Proof.
  assert (A : (0 < ofZ 4)%Qc) by reflexivity.
  assert (B : (0 < ofZ 5)%Qc) by reflexivity.
  split; [exact A|]. split; [exact B|].
  exact (proj1 (@percentage_weights (frac 3 100) (frac 3 100) (ofZ 200) (ofZ 4) (ofZ 5) 0
                  A B)).
Defined.

End PercentageWeights.

(** ** mustard.py: the loop on a NaN loss, and the loss history *)

Section LoopFacts.
Import Np Mustard Scenario Spec Invariants Runs.
Context {torch : Type} (ext : externals torch) (self : estimator) (o : options).
Context (estimI' : string) (w_rp : fval * fval).
Context (sm : smooth_mode) (rg : regul_mode) (r2 : regul2_fn).

Local Abbreviation step := (step ext).
Local Abbreviation reweight := (reweight ext self o w_rp sm rg r2).
Local Abbreviation activation := (activation ext self o estimI' w_rp sm rg r2).
Local Abbreviation iteration := (iteration ext self o estimI' w_rp sm rg r2).
Local Abbreviation minimize := (minimize ext self o estimI' w_rp sm rg r2).

Lemma step_keeps (st : loop_state torch) :
  st_k (step st) = st_k st /\ st_kactiv (step st) = st_kactiv st
  /\ st_mink (step st) = st_mink st /\ st_Ractiv (step st) = st_Ractiv st
  /\ st_loss_evo (step st) = st_loss_evo st
  /\ st_last_iter (step st) = st_last_iter st
  /\ st_final_estim (step st) = st_final_estim st.
Proof.
  unfold Mustard.step. destruct (lbfgs_step ext _ _ _) as [opt out].
  repeat split; reflexivity.
Qed.

Lemma deactivate_keeps (k : Z) (st : loop_state torch) :
  st_k (deactivate o k st) = st_k st
  /\ st_kactiv (deactivate o k st) = st_kactiv st
  /\ st_mink (deactivate o k st) = st_mink st
  /\ st_loss_evo (deactivate o k st) = st_loss_evo st
  /\ st_last_iter (deactivate o k st) = st_last_iter st
  /\ st_final_estim (deactivate o k st) = st_final_estim st.
Proof.
  unfold deactivate. destruct (kdactiv o) as [kd|];
    [destruct (negb (kd =? 0)%Z && (k =? kd)%Z)|]; repeat split; reflexivity.
Qed.

Lemma reweight_loss_evo (st : loop_state torch) :
  st_loss_evo (reweight st) = st_loss_evo st.
Proof. unfold Mustard.reweight. destruct (w_pcent o); reflexivity. Qed.

Lemma activation_loss_evo (st : loop_state torch) :
  st_loss_evo (activation st) = st_loss_evo st.
Proof.
  unfold Mustard.activation, Mustard.new_optimizer.
  cbn [st_loss_evo set_st_optimizer].
  rewrite reweight_loss_evo.
  destruct (step_keeps (set_st_optimizer
                          (lbfgs_new ext (st_optimizer (reweight st)) estimI')
                          (reweight st))) as [_ [_ [_ [_ [E _]]]]].
  rewrite E. cbn [st_loss_evo set_st_optimizer]. apply reweight_loss_evo.
Qed.

(** One pass of the loop body records at most one loss, after the ones
    already recorded. *)
Lemma iteration_loss_evo (k : Z) (st : loop_state torch) :
  st_loss_evo (fst (iteration k st)) = st_loss_evo st
  \/ exists l, st_loss_evo (fst (iteration k st)) = st_loss_evo st ++ [l].
Proof.
  unfold Mustard.iteration. cbn [st_kactiv set_st_k].
  destruct (negb (st_kactiv st =? 0)%Z && (k =? st_kactiv st)%Z).
  - left. cbn [fst]. rewrite activation_loss_evo. reflexivity.
  - right.
    set (st1 := deactivate o k (set_st_k k st)).
    set (st2 := step st1).
    set (st3 := if diverged st2 then set_st_final_estim (st_last_iter st2) st2 else st2).
    set (st4 := set_st_loss_evo (st_loss_evo st3 ++ [st_loss st3]) st3).
    set (st5 := set_st_last_iter (Some (snapshot_of estimI' (st_vars st4))) st4).
    set (st6 := if (k =? 1)%Z
                then set_st_first_iter (Some (snapshot_of estimI' (st_vars st5))) st5
                else st5).
    assert (E6 : st_loss_evo st6 = st_loss_evo st ++ [st_loss st2]).
    { unfold st6. destruct (k =? 1)%Z; cbn [st_loss_evo set_st_first_iter];
        unfold st5, st4; cbn [st_loss_evo set_st_last_iter set_st_loss_evo];
        unfold st3; destruct (diverged st2); cbn [st_loss_evo st_loss set_st_final_estim];
        unfold st2; rewrite (proj1 (proj2 (proj2 (proj2 (proj2 (step_keeps st1))))));
        unfold st1;
        rewrite (proj1 (proj2 (proj2 (proj2 (deactivate_keeps k (set_st_k k st))))));
        reflexivity. }
    exists (st_loss st2).
    destruct ((st_mink st6 <? k)%Z
              && flt (if (estimI' =? "Justl")%string then st_gradL st6 else st_gradX st6)
                     (Fin (gtol o))).
    + destruct (negb (st_Ractiv st6) && negb (st_kactiv st6 =? 0)%Z); cbn [fst].
      * rewrite activation_loss_evo. exact E6.
      * exact E6.
    + destruct (isnan (st_loss st6)); cbn [fst]; exact E6.
Qed.

Lemma minimize_loss_evo (ks : list Z) (st : loop_state torch) :
  exists more, st_loss_evo (minimize ks st) = st_loss_evo st ++ more
               /\ (List.length more <= List.length ks)%nat.
Proof.
  revert st. induction ks as [|k ks IH]; intro st; cbn [Mustard.minimize].
  - exists []. rewrite app_nil_r. split; [reflexivity|apply Nat.le_refl].
  - pose proof (iteration_loss_evo k st) as H.
    destruct (iteration k st) as [st' stop]. cbn [fst] in H.
    assert (H' : exists one, st_loss_evo st' = st_loss_evo st ++ one
                             /\ (List.length one <= 1)%nat).
    { destruct H as [H|[l H]].
      - exists []. rewrite app_nil_r. split; [exact H|simpl; lia].
      - exists [l]. split; [exact H|simpl; lia]. }
    destruct H' as [one [E1 L1]].
    destruct stop.
    + exists one. split; [exact E1|]. cbn [List.length]. lia.
    + destruct (IH st') as [more [E2 L2]].
      exists (one ++ more). split.
      * rewrite E2, E1, app_assoc. reflexivity.
      * rewrite length_app. cbn [List.length]. lia.
Qed.

(** X15.  A pass that is not the activation pass, whose step leaves a NaN
    loss and whose gradient test does not fire, ends the loop with the
    "Nan values" ending and records the NaN.  After the first iteration the
    pair that is returned is the iterate recorded before the step; at the
    first iteration it is the iterate the step left. *)
Theorem nan_loss_stops_the_loop (k : Z) (ks : list Z) (st0 : loop_state torch) :
  negb (st_kactiv st0 =? 0)%Z && (k =? st_kactiv st0)%Z = false ->
  isnan (st_loss (step (deactivate o k (set_st_k k st0)))) = true ->
  (st_mink st0 <? k)%Z
  && flt (if (estimI' =? "Justl")%string
          then st_gradL (step (deactivate o k (set_st_k k st0)))
          else st_gradX (step (deactivate o k (set_st_k k st0))))
         (Fin (gtol o)) = false ->
  st_ending (minimize (k :: ks) st0)
  = "Nan values end minimization. Last value estimated will be returned."%string
  /\ st_loss_evo (minimize (k :: ks) st0) = st_loss_evo st0 ++ [NaN]
  /\ (forall snap, (1 < k)%Z -> st_last_iter st0 = Some snap ->
        final_choice (minimize (k :: ks) st0) = (snap_L snap, snap_X snap))
  /\ ((k <= 1)%Z ->
        final_choice (minimize (k :: ks) st0)
        = (Lk (st_vars (step (deactivate o k (set_st_k k st0)))),
           Xk (st_vars (step (deactivate o k (set_st_k k st0)))))).
Proof.
  intros Act Hn Hg. cbn [Mustard.minimize]. unfold Mustard.iteration.
  cbn [st_kactiv set_st_k]. rewrite Act.
  set (st1 := deactivate o k (set_st_k k st0)) in *.
  set (st2 := step st1) in *.
  set (st3 := if diverged st2 then set_st_final_estim (st_last_iter st2) st2 else st2).
  set (st4 := set_st_loss_evo (st_loss_evo st3 ++ [st_loss st3]) st3).
  set (st5 := set_st_last_iter (Some (snapshot_of estimI' (st_vars st4))) st4).
  set (st6 := if (k =? 1)%Z
              then set_st_first_iter (Some (snapshot_of estimI' (st_vars st5))) st5
              else st5).
  destruct (step_keeps st1) as [K2 [_ [M2 [_ [E2 [L2 F2]]]]]]. fold st2 in K2, M2, E2, L2, F2.
  destruct (deactivate_keeps k (set_st_k k st0)) as [K1 [_ [M1 [E1 [L1 F1]]]]].
  fold st1 in K1, M1, E1, L1, F1.
  cbn [st_k st_mink st_loss_evo st_last_iter st_final_estim set_st_k] in K1, M1, E1, L1, F1.
  assert (Dv : diverged st2 = (1 <? k)%Z).
  { unfold diverged. rewrite K2, K1, Hn. cbn [orb]. apply andb_true_r. }
  assert (S6 : st_loss st6 = NaN /\ st_vars st6 = st_vars st2 /\ st_k st6 = k
               /\ st_mink st6 = st_mink st0 /\ st_gradL st6 = st_gradL st2
               /\ st_gradX st6 = st_gradX st2
               /\ st_loss_evo st6 = st_loss_evo st0 ++ [NaN]
               /\ st_final_estim st6
                  = if (1 <? k)%Z then st_last_iter st0 else st_final_estim st0).
  { assert (N2 : st_loss st2 = NaN) by (destruct (st_loss st2); [discriminate|reflexivity]).
    unfold st6, st5, st4, st3. rewrite Dv.
    destruct (k =? 1)%Z, (1 <? k)%Z;
      cbn [st_loss st_vars st_k st_mink st_gradL st_gradX st_loss_evo st_final_estim
           set_st_first_iter set_st_last_iter set_st_loss_evo set_st_final_estim];
      rewrite ?N2, ?K2, ?K1, ?M2, ?M1, ?E2, ?E1, ?L2, ?L1, ?F2, ?F1;
      repeat split; reflexivity. }
  destruct S6 as [N6 [V6 [K6 [M6 [GL6 [GX6 [E6 F6]]]]]]].
  rewrite M6, GL6, GX6, Hg, N6. cbn [isnan].
  split; [reflexivity|]. split; [exact E6|].
  unfold final_choice, diverged.
  cbn [st_k st_loss st_kactiv st_loss_evo st_final_estim st_vars set_st_ending].
  rewrite K6, N6, F6, V6. cbn [isnan orb]. rewrite andb_true_r.
  split.
  - intros snap Hk Hl.
    replace (1 <? k)%Z with true by (symmetry; apply Z.ltb_lt; exact Hk).
    rewrite Hl. reflexivity.
  - intro Hk. replace (1 <? k)%Z with false by (symmetry; apply Z.ltb_ge; exact Hk).
    reflexivity.
Qed.

End LoopFacts.

Section LoopRuns.
Import Np Mustard Scenario Spec Invariants Runs.

(** X16.  The loss history [estimate] stores starts with the loss of step 0
    and holds at most one more value per iteration. *)
Theorem loss_history_bounds {torch} (ext : externals torch) (opt0 : torch)
    (self self' : estimator) (o : options) (r : frame * frame * option (list Qc)) :
  estimate ext opt0 self o = Ok (self', r) ->
  exists (p : prepared torch) (d : result_dict) (more : list fval),
    estimate_setup ext opt0 self o = Ok p
    /\ res self' = Some d
    /\ res_loss_evo d = st_loss (pr_state p) :: more
    /\ (List.length more <= Z.to_nat (maxiter o))%nat.
Proof.
  unfold estimate. intro H.
  destruct (estimate_setup ext opt0 self o) as [p|e] eqn:S; cbn [bind] in H;
    [|discriminate].
  injection H as H.
  assert (Hs : self' = fst (estimate_finish ext p (estimate_loop ext o p)))
    by (rewrite H; reflexivity).
  clear H.
  destruct (@minimize_loss_evo torch ext (pr_self p) o (pr_estimI p) (pr_w_rp p)
              (pr_smooth p) (pr_regul p) (pr_regul2 p) (range1 (maxiter o)) (pr_state p))
    as [more [E L]].
  destruct (@estimate_setup_inv torch ext opt0 self o p S)
    as [self1 [derot [L0 [X0 [_ [_ [_ I]]]]]]].
  exists p. rewrite Hs. unfold estimate_finish.
  destruct (final_choice (estimate_loop ext o p)) as [Le Xe]. cbn [fst res set_res].
  eexists. exists more. split; [reflexivity|]. split; [reflexivity|].
  cbn [res_loss_evo]. unfold estimate_loop. rewrite E.
  split.
  - rewrite I. reflexivity.
  - unfold range1 in L. rewrite length_map, length_seq in L. exact L.
Qed.

Lemma loss_history_bounds_witness :
  exists (self self' : estimator) (r : frame * frame * option (list Qc))
         (d : result_dict),
    build cube2 angles2 = Ok self
    /\ estimate scripted recovering self (with_iters 3 (KInt 1) default_options)
       = Ok (self', r)
    /\ res self' = Some d
    /\ (List.length (res_loss_evo d) <= 4)%nat.
Proof.
  assert (B : exists self, build cube2 angles2 = Ok self)
    by (eexists; vm_compute; reflexivity).
  destruct B as [self B]. exists self.
  assert (S : exists self' r,
             estimate scripted recovering self (with_iters 3 (KInt 1) default_options)
             = Ok (self', r)).
  { vm_compute in B. injection B as <-. eexists. eexists. vm_compute. reflexivity. }
  destruct S as [self' [r S]]. exists self', r.
  destruct (@loss_history_bounds _ scripted recovering self self'
              (with_iters 3 (KInt 1) default_options) r S)
    as [p [d [more [_ [R [E L]]]]]].
  exists d. split; [exact B|]. split; [exact S|]. split; [exact R|].
  rewrite E. cbn [List.length]. change (Z.to_nat (maxiter (with_iters 3 (KInt 1) default_options)))
    with 3%nat in L. lia.
Defined.

Lemma nan_loss_stops_the_loop_witness :
  exists (self : estimator) (p : prepared (list step_out)),
    build cube2 angles2 = Ok self
    /\ estimate_setup scripted [blown ones22 ones22] self
         (with_iters 3 (KInt 0) default_options) = Ok p
    /\ st_ending (estimate_loop scripted (with_iters 3 (KInt 0) default_options) p)
       = "Nan values end minimization. Last value estimated will be returned."%string.
Proof.
  assert (B : exists self, build cube2 angles2 = Ok self)
    by (eexists; vm_compute; reflexivity).
  destruct B as [self B]. exists self.
  assert (S : exists p,
             estimate_setup scripted [blown ones22 ones22] self
               (with_iters 3 (KInt 0) default_options) = Ok p).
  { vm_compute in B. injection B as <-. eexists. vm_compute. reflexivity. }
  destruct S as [p S]. exists p.
  split; [exact B|]. split; [exact S|].
  unfold estimate_loop.
  change (range1 (maxiter (with_iters 3 (KInt 0) default_options))) with [1; 2; 3]%Z.
  refine (proj1 (@nan_loss_stops_the_loop _ scripted (pr_self p)
                   (with_iters 3 (KInt 0) default_options) (pr_estimI p) (pr_w_rp p)
                   (pr_smooth p) (pr_regul p) (pr_regul2 p) 1%Z [2; 3]%Z (pr_state p)
                   _ _ _)).
  - vm_compute in B. injection B as <-. vm_compute in S. injection S as <-.
    vm_compute. reflexivity.
  - vm_compute in B. injection B as <-. vm_compute in S. injection S as <-.
    vm_compute. reflexivity.
  - vm_compute in B. injection B as <-. vm_compute in S. injection S as <-.
    vm_compute. reflexivity.
Defined.

End LoopRuns.


(** ** algo.py: the convolution filters *)

Section IndexedMaps.
Import Np Algo Spec Scenario.

Lemma nth_mapi {A B} (f : Z -> A -> B) (l : list A) (n : nat) (d : A) (d' : B) :
  (n < List.length l)%nat -> nth n (mapi f l) d' = f (Z.of_nat n) (nth n l d).
Proof.
  intro H. unfold mapi.
  rewrite (nth_indep _ d' ((fun p => f (Z.of_nat (fst p)) (snd p)) (0%nat, d)))
    by (rewrite length_map, length_combine, length_seq, Nat.min_id; exact H).
  rewrite (map_nth (fun p => f (Z.of_nat (fst p)) (snd p))).
  rewrite combine_nth by apply length_seq.
  rewrite seq_nth by exact H. reflexivity.
Qed.

Lemma pix_mapi (G : Z -> Z -> Qc) (t : frame) (i j : Z) :
  (0 <= i < Z.of_nat (List.length t))%Z ->
  (0 <= j < Z.of_nat (List.length (nth (Z.to_nat i) t [])))%Z ->
  pix (mapi (fun i row => mapi (fun j _ => G i j) row) t) i j = G i j.
Proof.
  intros Hi Hj. unfold pix.
  replace ((i <? 0)%Z || (j <? 0)%Z) with false
    by (symmetry; apply orb_false_iff; split; apply Z.ltb_ge; lia).
  rewrite (nth_mapi _ t [] []) by lia.
  rewrite (nth_mapi _ _ 0%Qc 0%Qc) by lia.
  rewrite !Z2Nat.id by lia. reflexivity.
Qed.

Lemma mapi_ext_in {A B} (f g : Z -> A -> B) (l : list A) :
  (forall idx x, (0 <= idx < Z.of_nat (List.length l))%Z -> In x l -> f idx x = g idx x) ->
  mapi f l = mapi g l.
Proof.
  intro H. unfold mapi. apply map_ext_in. intros [n x] Hin. cbn [fst snd].
  pose proof (in_combine_r _ _ _ _ Hin) as Hx.
  apply in_combine_l in Hin. apply in_seq in Hin. apply H; [lia|exact Hx].
Qed.

Lemma mapi_map {A B} (h : A -> B) (l : list A) : mapi (fun _ x => h x) l = map h l.
Proof.
  unfold mapi. rewrite <- (map_snd_combine_seq l 0) at 3. rewrite map_map. reflexivity.
Qed.

End IndexedMaps.

Section FilterShapes.
Import Np Algo Spec Scenario.

Lemma mapi_length {A B} (f : Z -> A -> B) (l : list A) :
  List.length (mapi f l) = List.length l.
Proof.
  unfold mapi. rewrite length_map, length_combine, length_seq. apply Nat.min_id.
Qed.

Lemma mapi_In {A B} (f : Z -> A -> B) (l : list A) (y : B) :
  In y (mapi f l) -> exists i x, In x l /\ y = f i x.
Proof.
  unfold mapi. intro H. apply in_map_iff in H. destruct H as [[i x] [<- H]].
  apply in_combine_r in H. exists (Z.of_nat i), x. split; [exact H|reflexivity].
Qed.

Lemma mapi_rect {A B} (g : Z -> Z -> A -> B) (h w : nat) (m : list (list A)) :
  rect h w m -> rect h w (mapi (fun i row => mapi (g i) row) m).
Proof.
  intros [Hh Hw]. split.
  - rewrite mapi_length. exact Hh.
  - apply Forall_forall. intros row Hin. apply mapi_In in Hin.
    destruct Hin as [i [r [Hr ->]]]. rewrite mapi_length.
    rewrite Forall_forall in Hw. apply Hw. exact Hr.
Qed.




End FilterShapes.

Section FlatRegions.
Import Np Algo Spec Scenario Pixels.

(** Where the frame is flat under the whole kernel, the filter answers the
    value times the sum of the kernel. *)
Lemma conv2d_same_flat (K t : frame) (n : nat) (i j : Z) (c : Qc) :
  rect n n K -> inside t i j ->
  (forall u v, (0 <= u < Z.of_nat n)%Z -> (0 <= v < Z.of_nat n)%Z ->
     pix t (i + u - (Z.of_nat n - 1) / 2) (j + v - (Z.of_nat n - 1) / 2) = c) ->
  pix (conv2d_same t K) i j = (tsum K * c)%Qc.
Proof.
  intros [Kh Kw] [Hi Hj] Hflat. unfold conv2d_same.
  rewrite pix_mapi by assumption. rewrite Kh.
  rewrite (mapi_ext_in _ (fun _ krow => (qsum krow * c)%Qc)).
  - rewrite mapi_map. unfold tsum. rewrite <- qsum_scale, map_map. reflexivity.
  - intros u krow Hu Hin. rewrite Kh in Hu.
    rewrite (mapi_ext_in _ (fun _ kv => (kv * c)%Qc)).
    + rewrite mapi_map. apply qsum_scale.
    + intros v kv Hv _. rewrite Forall_forall in Kw. rewrite (Kw krow Hin) in Hv.
      rewrite Hflat by assumption. reflexivity.
Qed.

Lemma flat_under_kernel (t : frame) (i j p : Z) (c : Qc) (n : nat) :
  flat_around t i j p c -> ((Z.of_nat n - 1) / 2 <= p)%Z -> (Z.of_nat n = 2 * ((Z.of_nat n - 1) / 2) + 1)%Z ->
  forall u v, (0 <= u < Z.of_nat n)%Z -> (0 <= v < Z.of_nat n)%Z ->
    pix t (i + u - (Z.of_nat n - 1) / 2) (j + v - (Z.of_nat n - 1) / 2) = c.
Proof.
  intros Hf Hp Hn u v Hu Hv. apply Hf; lia.
Qed.

Lemma kernels_square :
  rect 3 3 sobel_x /\ rect 3 3 sobel_y /\ rect 3 3 kernel3 /\ rect 5 5 kernel5
  /\ rect 7 7 kernel7 /\ rect 3 3 gauss3 /\ rect 5 5 gauss5.
Proof.
  repeat split; try reflexivity; repeat constructor.
Qed.

(** X18.  At a pixel whose neighbourhood under the kernel is flat, the
    Sobel and Laplacian filters answer 0 and the Gaussian filters answer
    the value times 16 (size 3) or 300 (size 5): their kernels are not
    normalised. *)
Theorem filters_on_flat_regions (t : frame) (i j p : Z) (c : Qc) :
  inside t i j -> flat_around t i j p c ->
  ((1 <= p)%Z ->
     answer (sobel_tensor_conv t "x") i j = Some 0%Qc
     /\ answer (sobel_tensor_conv t "y") i j = Some 0%Qc
     /\ answer (laplacian_tensor_conv t 3) i j = Some 0%Qc
     /\ answer (gaussian_tensor_conv t 3) i j = Some (ofZ 16 * c)%Qc)
  /\ ((2 <= p)%Z ->
        answer (laplacian_tensor_conv t 5) i j = Some 0%Qc
        /\ answer (gaussian_tensor_conv t 5) i j = Some (ofZ 300 * c)%Qc)
  /\ ((3 <= p)%Z -> answer (laplacian_tensor_conv t 7) i j = Some 0%Qc).
Proof.
  intros Hin Hf.
  destruct kernels_square as [Sx [Sy [K3 [K5 [K7 [G3 G5]]]]]].
  split; [|split]; intro Hp.
  - pose proof (@flat_under_kernel t i j p c 3 Hf) as F3.
    change ((Z.of_nat 3 - 1) / 2)%Z with 1%Z in F3.
    specialize (F3 Hp eq_refl).
    cbn [answer sobel_tensor_conv laplacian_tensor_conv gaussian_tensor_conv
         String.eqb Ascii.eqb Bool.eqb Z.eqb Pos.eqb].
    rewrite (conv2d_same_flat Sx Hin F3), (conv2d_same_flat Sy Hin F3),
            (conv2d_same_flat K3 Hin F3), (conv2d_same_flat G3 Hin F3).
    replace (tsum sobel_x) with 0%Qc by qc_closed.
    replace (tsum sobel_y) with 0%Qc by qc_closed.
    replace (tsum kernel3) with 0%Qc by qc_closed.
    replace (tsum gauss3) with (ofZ 16) by qc_closed.
    repeat split; f_equal; ring.
  - pose proof (@flat_under_kernel t i j p c 5 Hf) as F5.
    change ((Z.of_nat 5 - 1) / 2)%Z with 2%Z in F5.
    specialize (F5 Hp eq_refl).
    cbn [answer laplacian_tensor_conv gaussian_tensor_conv Z.eqb Pos.eqb].
    rewrite (conv2d_same_flat K5 Hin F5), (conv2d_same_flat G5 Hin F5).
    replace (tsum kernel5) with 0%Qc by qc_closed.
    replace (tsum gauss5) with (ofZ 300) by qc_closed.
    repeat split; f_equal; ring.
  - pose proof (@flat_under_kernel t i j p c 7 Hf) as F7.
    change ((Z.of_nat 7 - 1) / 2)%Z with 3%Z in F7.
    specialize (F7 Hp eq_refl).
    cbn [answer laplacian_tensor_conv Z.eqb Pos.eqb].
    rewrite (conv2d_same_flat K7 Hin F7).
    replace (tsum kernel7) with 0%Qc by qc_closed.
    f_equal. ring.
Qed.

Lemma filters_on_flat_regions_witness :
  inside (fmap (fun _ => ofZ 7) frame33) 1 1
  /\ flat_around (fmap (fun _ => ofZ 7) frame33) 1 1 1 (ofZ 7)
  /\ answer (gaussian_tensor_conv (fmap (fun _ => ofZ 7) frame33) 3) 1 1
     = Some (ofZ 16 * ofZ 7)%Qc.
Proof.
  assert (I : inside (fmap (fun _ => ofZ 7) frame33) 1 1).
  { split; simpl; lia. }
  assert (F : flat_around (fmap (fun _ => ofZ 7) frame33) 1 1 1 (ofZ 7)).
  { intros a b Ha Hb.
    assert (Ea : (a = 0 \/ a = 1 \/ a = 2)%Z) by lia.
    assert (Eb : (b = 0 \/ b = 1 \/ b = 2)%Z) by lia.
    destruct Ea as [-> | [-> | ->]]; destruct Eb as [-> | [-> | ->]]; reflexivity. }
  split; [exact I|]. split; [exact F|].
  destruct (@filters_on_flat_regions _ 1 1 1 (ofZ 7) I F) as [H _].
  destruct (H ltac:(lia)) as [_ [_ [_ G]]]. exact G.
Defined.

End FlatRegions.

(** ** mustard.py: [decompose] *)

Section Decomposition.
Import Np Mustard Spec Scenario Pixels.

Lemma qmin_le (x y : Qc) : (qmin x y <= x)%Qc /\ (qmin x y <= y)%Qc.
Proof.
  unfold qmin. destruct (ltb y x) eqn:E.
  - apply ltb_lt in E. split; [apply Qclt_le_weak; exact E|apply Qcle_refl].
  - apply ltb_ge in E. split; [apply Qcle_refl|exact E].
Qed.

Lemma fold_qmin_le (l : list Qc) (a : Qc) :
  (fold_left qmin l a <= a)%Qc
  /\ forall y, In y l -> (fold_left qmin l a <= y)%Qc.
Proof.
  revert a. induction l as [|x l IH]; intro a; cbn [fold_left].
  - split; [apply Qcle_refl|]. intros y [].
  - destruct (IH (qmin a x)) as [B F]. destruct (qmin_le a x) as [Qa Qx]. split.
    + eapply Qcle_trans; eassumption.
    + intros y [<-|Hy]; [eapply Qcle_trans; eassumption|apply F; exact Hy].
Qed.

Lemma min_list_le (l : list Qc) (x : Qc) : In x l -> (min_list l <= x)%Qc.
Proof.
  destruct l as [|a l]; [intros []|]. unfold min_list.
  destruct (fold_qmin_le l a) as [B F].
  intros [<-|H]; [exact B|apply F; exact H].
Qed.

Lemma amin0_le (c : cube) (f : frame) (i j : Z) :
  In f c -> inside (hd [] c) i j -> (pix (amin0 c) i j <= pix f i j)%Qc.
Proof.
  intros Hf [Hi Hj]. unfold amin0, reduce0.
  rewrite pix_mapi by assumption.
  apply min_list_le. unfold along0. apply in_map_iff. exists f. split; [reflexivity|exact Hf].
Qed.

(** X19.  [decompose] keeps the cube it started from in
    [science_data_ori], rewrites every frame as the frame minus the speckle
    map plus the stellar halo, and the speckle map it stores is below
    every frame of the cube at every pixel. *)
Theorem decompose_speckles_bound {torch} (ext : externals torch) (self : estimator) :
  exists spk halo,
    speckles (decompose ext self) = Some spk
    /\ stellar_halo (decompose ext self) = Some halo
    /\ science_data_ori (decompose ext self) = Some (science_data self)
    /\ science_data (decompose ext self)
       = map (fun f => fadd_frame (fsub_frame f spk) halo) (science_data self)
    /\ forall f i j, In f (science_data self) ->
         inside (hd [] (science_data self)) i j ->
         (pix spk i j <= pix f i j)%Qc.
Proof.
  unfold decompose.
  cbn [speckles stellar_halo science_data_ori science_data set_science_data
       set_science_data_ori set_stellar_halo set_ambiguities set_speckles].
  eexists. eexists. split; [reflexivity|]. split; [reflexivity|].
  split; [reflexivity|]. split; [reflexivity|].
  intros f i j Hf Hin. apply amin0_le; assumption.
Qed.

End Decomposition.

(** ** algo.py: [init_estimate] *)

Section InitialEstimate.
Import Np AlgoInit Pixels.

Lemma clip0_nonneg (t : frame) : nonneg (clip0 t).
Proof.
  unfold nonneg, clip0, fmap. apply Forall_forall. intros row Hin.
  apply in_map_iff in Hin. destruct Hin as [r [<- _]].
  apply Forall_forall. intros x Hx. apply in_map_iff in Hx. destruct Hx as [y [<- _]].
  unfold qmax. destruct (ltb 0%Qc y) eqn:E.
  - apply ltb_lt in E. apply Qclt_le_weak. exact E.
  - apply Qcle_refl.
Qed.

(** X20.  When [init_estimate] returns, both maps are non-negative at
    every pixel, the mode is one of the four that are listed and the angle
    list is at least as long as the cube. *)
Theorem init_estimate_is_nonnegative (V : vip) (science : cube) (angle_list : list Qc)
    (Imode : string) (L X : frame) :
  science <> [] ->
  init_estimate V science angle_list Imode = Ok (L, X) ->
  nonneg L /\ nonneg X
  /\ In Imode ["pca"; "pcait"; "pca_annular"; "max_common"]%string
  /\ (List.length science <= List.length angle_list)%nat.
Proof.
  intros _. unfold init_estimate, starlight_frames.
  destruct (Nat.leb_spec (List.length science) (List.length angle_list)) as [Hl|Hl].
  - destruct (String.eqb_spec Imode "pca") as [->|N1]; cbn [bind].
    { intro H. injection H as <- <-.
      repeat split; try apply clip0_nonneg; [simpl; tauto|exact Hl]. }
    destruct (String.eqb_spec Imode "pcait") as [->|N2]; cbn [bind].
    { intro H. injection H as <- <-.
      repeat split; try apply clip0_nonneg; [simpl; tauto|exact Hl]. }
    destruct (String.eqb_spec Imode "pca_annular") as [->|N3]; cbn [bind].
    { intro H. injection H as <- <-.
      repeat split; try apply clip0_nonneg; [simpl; tauto|exact Hl]. }
    destruct (String.eqb_spec Imode "max_common") as [->|N4]; [|discriminate].
    destruct (cube_derotate V science angle_list); cbn [bind]; [discriminate|].
    intro H. injection H as <- <-.
    repeat split; try apply clip0_nonneg; [simpl; tauto|exact Hl].
  - destruct (Imode =? "pca")%string; cbn [bind]; [discriminate|].
    destruct (Imode =? "pcait")%string; cbn [bind]; [discriminate|].
    destruct (Imode =? "pca_annular")%string; cbn [bind]; [discriminate|].
    destruct (Imode =? "max_common")%string; [|discriminate].
    destruct (cube_derotate V science angle_list); cbn [bind]; discriminate.
Qed.

Lemma init_estimate_is_nonnegative_witness :
  exists L X : frame,
    Scenario.cube2 <> []
    /\ init_estimate Runs.still Scenario.cube2 Scenario.angles2 "max_common" = Ok (L, X)
    /\ nonneg L /\ nonneg X.
Proof.
  assert (N : Scenario.cube2 <> []) by discriminate.
  assert (E : exists L X,
             init_estimate Runs.still Scenario.cube2 Scenario.angles2 "max_common"
             = Ok (L, X)).
  { eexists. eexists. vm_compute. reflexivity. }
  destruct E as [L [X E]]. exists L, X.
  split; [exact N|]. split; [exact E|].
  destruct (@init_estimate_is_nonnegative Runs.still Scenario.cube2 Scenario.angles2
              "max_common" L X N E) as [A [B _]].
  split; assumption.
Defined.

End InitialEstimate.

(** ** algo.py: quarter turns and the shape of a rotated frame *)

Section QuarterTurns.
Import Np Algo Spec Scenario.

Lemma qsum_app (a b : list Qc) : qsum (a ++ b) = (qsum a + qsum b)%Qc.
Proof.
  induction a as [|x a IH]; simpl.
  - ring.
  - rewrite IH. ring.
Qed.

Lemma qsum_rev (l : list Qc) : qsum (rev l) = qsum l.
Proof.
  induction l as [|x l IH]; simpl; [reflexivity|].
  rewrite qsum_app, IH. simpl. ring.
Qed.

Lemma qsum_map_add {A} (f g : A -> Qc) (l : list A) :
  qsum (map (fun x => (f x + g x)%Qc) l) = (qsum (map f l) + qsum (map g l))%Qc.
Proof.
  induction l as [|x l IH]; simpl.
  - ring.
  - rewrite IH. ring.
Qed.

Lemma qsum_map_zero {A} (l : list A) : qsum (map (fun _ => 0%Qc) l) = 0%Qc.
Proof.
  induction l as [|x l IH]; simpl; [reflexivity|]. rewrite IH. ring.
Qed.

(** Summing by columns or by rows gives the same total. *)
Lemma qsum_swap {A B} (f : A -> B -> Qc) (js : list A) (rs : list B) :
  qsum (map (fun j => qsum (map (fun r => f j r) rs)) js)
  = qsum (map (fun r => qsum (map (fun j => f j r) js)) rs).
Proof.
  induction rs as [|r rs IH]; cbn [map qsum fold_right].
  - apply qsum_map_zero.
  - change (fold_right Qcplus 0%Qc) with qsum.
    rewrite (qsum_map_add (fun j => f j r) (fun j => qsum (map (fun r' => f j r') rs))).
    rewrite IH. reflexivity.
Qed.

Lemma tsum_rev (t : frame) : tsum (rev t) = tsum t.
Proof. unfold tsum. rewrite map_rev. apply qsum_rev. Qed.

Lemma tsum_map_rev (t : frame) : tsum (map (@rev Qc) t) = tsum t.
Proof.
  unfold tsum. rewrite map_map. f_equal. apply map_ext. intro row. apply qsum_rev.
Qed.

Lemma tsum_transpose (h w : nat) (t : frame) :
  rect h w t -> (0 < h)%nat -> tsum (transpose 0%Qc t) = tsum t.
Proof.
  intros R Hh. unfold tsum, transpose. rewrite (rect_hd R Hh). rewrite map_map.
  rewrite (qsum_swap (fun j row => nth j row 0%Qc) (seq 0 w) t).
  f_equal. apply map_ext_in. intros row Hin. f_equal.
  apply tabulate_nth. destruct R as [_ Hw]. rewrite Forall_forall in Hw.
  apply Hw. exact Hin.
Qed.

(** X21.  A quarter turn moves pixels without changing them: [rot90]
    keeps the sum of the frame, whatever the count. *)
Theorem rot90_conserves_flux (h w : nat) (t : frame) (k : Z) :
  rect h w t -> tsum (rot90 t k) = tsum t.
Proof.
  intro R.
  destruct (Nat.eq_dec h 0) as [E0|N0].
  { destruct R as [Hh _]. rewrite E0 in Hh. apply length_zero_iff_nil in Hh. subst t.
    unfold rot90. destruct (k mod 4)%Z as [|[[p|p|]|[p|p|]|]|p]; reflexivity. }
  assert (Hp : (0 < h)%nat) by lia.
  assert (Rr : rect h w (map (@rev Qc) t)).
  { apply rect_map; [intro v; apply length_rev|exact R]. }
  assert (Rv : rect h w (rev t)).
  { destruct R as [Hh Hw]. split.
    - rewrite length_rev. exact Hh.
    - apply Forall_rev. exact Hw. }
  assert (T1 : tsum (transpose 0%Qc (map (@rev Qc) t)) = tsum t).
  { rewrite (tsum_transpose Rr Hp). apply tsum_map_rev. }
  assert (T2 : tsum (rev (map (@rev Qc) t)) = tsum t).
  { rewrite tsum_rev. apply tsum_map_rev. }
  assert (T3 : tsum (transpose 0%Qc (rev t)) = tsum t).
  { rewrite (tsum_transpose Rv Hp). apply tsum_rev. }
  unfold rot90.
  destruct (k mod 4)%Z as [|p|p]; [reflexivity| |exact T3].
  destruct p as [p|p|]; [exact T3| |exact T1].
  destruct p as [p|p|]; [exact T3|exact T3|exact T2].
Qed.

Lemma rot90_conserves_flux_witness :
  rect 3 3 frame33 /\ tsum (rot90 frame33 1) = ofZ 45.
Proof.
  split; [exact frame33_square|].
  rewrite (@rot90_conserves_flux 3 3 frame33 1 frame33_square).
  qc_closed.
Defined.

End QuarterTurns.

Section RotationShape.
Import Np Algo Spec Scenario.
Variable F : fourier.
Hypothesis fft_length : forall v, List.length (fft F v) = List.length v.
Hypothesis ifft_length : forall v, List.length (ifft F v) = List.length v.

Lemma along_rect (ax : Z) (f : list cplx -> list cplx) (h w : nat) (m : cframe) :
  (forall v, List.length (f v) = List.length v) ->
  rect h w m -> (0 < h)%nat -> (0 < w)%nat -> rect h w (along ax f m).
Proof.
  intros Hf R Hh Hw. unfold along. destruct (ax =? 2)%Z.
  - apply rect_map; assumption.
  - apply transpose_rect; [|exact Hw].
    apply rect_map; [exact Hf|]. apply transpose_rect; assumption.
Qed.

Lemma shear_rect (ax : Z) (h w : nat) (m : cframe) (arr_ori : frame) (c : Qc) :
  rect h w m -> (0 < h)%nat -> (0 < w)%nat ->
  rect h w (tensor_fft_shear F m arr_ori c ax).
Proof.
  intros R Hh Hw. unfold tensor_fft_shear.
  apply fftshift_rect. apply along_rect; [exact ifft_length| |exact Hh|exact Hw].
  apply fftshift_rect. apply mapi_rect.
  apply fftshift_rect. apply along_rect; [exact fft_length| |exact Hh|exact Hw].
  apply fftshift_rect. exact R.
Qed.

Lemma rot90_square (n : nat) (t : frame) (k : Z) :
  rect n n t -> (0 < n)%nat -> rect n n (rot90 t k).
Proof.
  intros R Hn. unfold rot90.
  assert (Rr : rect n n (map (@rev Qc) t)).
  { apply rect_map; [intro v; apply length_rev|exact R]. }
  assert (Rv : rect n n (rev t)).
  { destruct R as [Hh Hw]. split.
    - rewrite length_rev. exact Hh.
    - apply Forall_rev. exact Hw. }
  assert (R2 : rect n n (rev (map (@rev Qc) t))).
  { destruct Rr as [Hh Hw]. split.
    - rewrite length_rev. exact Hh.
    - apply Forall_rev. exact Hw. }
  destruct (k mod 4)%Z as [|p|p]; [exact R| |apply transpose_rect; assumption].
  destruct p as [p|p|]; [apply transpose_rect; assumption| |apply transpose_rect; assumption].
  destruct p as [p|p|]; [apply transpose_rect; assumption
                        |apply transpose_rect; assumption|exact R2].
Qed.

Lemma pad_last_rect (n : nat) (t : frame) :
  rect n n t -> (0 < n)%nat ->
  rect (S n) (S n) (map (fun row => row ++ [0%Qc]) t ++ [repeat 0%Qc (width t + 1)]).
Proof.
  intros R Hn. pose proof (rect_hd R Hn) as W. destruct R as [Hh Hw]. split.
  - rewrite length_app, length_map, Hh. simpl. lia.
  - apply Forall_app. split.
    + apply Forall_forall. intros row Hin. apply in_map_iff in Hin.
      destruct Hin as [r [<- Hr]]. rewrite length_app. simpl.
      rewrite Forall_forall in Hw. rewrite (Hw r Hr). lia.
    + constructor; [|constructor]. rewrite repeat_length. unfold width. rewrite W. lia.
Qed.

(** X22.  With transforms that keep the length of a line,
    [tensor_rotate_fft] answers a frame of the shape of its input, for any
    angle and any square frame of side at least 2. *)
Theorem rotation_keeps_shape (n : nat) (t : frame) (angle : Qc) :
  rect n n t -> (2 <= n)%nat -> rect n n (tensor_rotate_fft F t angle).
Proof.
  intros R Hn. unfold tensor_rotate_fft.
  assert (Hh : height t = n) by (destruct R as [Hh _]; exact Hh).
  assert (Hw : width t = n) by (unfold width; apply (rect_hd R); lia).
  rewrite Hh, Hw. rewrite orb_diag.
  set (tin := if gtb (wrap_angle angle) (ofZ 45)
              then rot90 t (fst (reduce_angle (wrap_angle angle))) else t).
  assert (Rin : rect n n tin).
  { unfold tin. destruct (gtb _ _); [apply rot90_square; [exact R|lia]|exact R]. }
  destruct (Nat.odd n) eqn:O.
  - destruct n as [|m]; [lia|].
    pose proof (crop_last_rect Rin) as Rc.
    set (tc := crop_last tin) in *.
    assert (Hm : (0 < m)%nat) by lia.
    apply pad_last_rect; [|exact Hm].
    apply rect_map; [intro v; apply length_map|].
    apply shear_rect; [|exact Hm|exact Hm].
    apply shear_rect; [|exact Hm|exact Hm].
    apply shear_rect; [|exact Hm|exact Hm].
    apply rect_map; [intro v; apply length_map|exact Rc].
  - assert (Hp : (0 < n)%nat) by lia.
    apply rect_map; [intro v; apply length_map|].
    apply shear_rect; [|exact Hp|exact Hp].
    apply shear_rect; [|exact Hp|exact Hp].
    apply shear_rect; [|exact Hp|exact Hp].
    apply rect_map; [intro v; apply length_map|exact Rin].
Qed.

End RotationShape.

Section RotationShapeRuns.
Import Np Algo Spec Scenario.

Lemma two_point_ifft_length (v : list cplx) :
  List.length (ifft two_point v) = List.length v.
Proof. destruct v as [|a [|b [|c v]]]; reflexivity. Qed.

Lemma rotation_keeps_shape_witness :
  rect 3 3 frame33 /\ (2 <= 3)%nat
  /\ rect 3 3 (tensor_rotate_fft two_point frame33 (ofZ 100)).
Proof.
  split; [exact frame33_square|]. split; [lia|].
  apply (@rotation_keeps_shape two_point two_point_length two_point_ifft_length 3 frame33
           (ofZ 100) frame33_square).
  lia.
Defined.

End RotationShapeRuns.

(** ** neo_mayo.py: step 0 and the checkpoint of [estimate] *)

Section NeoMayoStart.
Import Np Mustard NeoMayoRun.

(** X23.  Step 0 of [mayo_estimator.estimate] with percentage weights and
    the regularisation active from the start: when the second raw value is
    0, as with the [regul2] the constructor installs, the second weight is
    a quotient by zero, which is not a finite number and which [fdiv]
    renders as NaN, and the loss the loop starts from is NaN. *)
Theorem neo_mayo_start_is_nan (o : options) (loss0 reg1 : fval) :
  w_pcent o = true -> kactiv0 o = 0%Z ->
  step0 o loss0 reg1 (Fin 0%Qc) = (fdiv (fmul (Fin (w_r o)) loss0) reg1, NaN, NaN).
Proof.
  intros Hp Hk. unfold step0, w_rp. rewrite Hp, Hk. cbn [Z.eqb andb fst snd].
  assert (D : fdiv (fmul (Fin (w_r2 o)) loss0) (Fin 0%Qc) = NaN).
  { destruct loss0; reflexivity. }
  rewrite D. f_equal.
  generalize (fmul (fmul (flag true) (fdiv (fmul (Fin (w_r o)) loss0) reg1)) reg1).
  intro R1. destruct loss0, R1; reflexivity.
Qed.

Lemma neo_mayo_start_is_nan_witness :
  w_pcent Runs.mayo_defaults = true /\ kactiv0 Runs.mayo_defaults = 0%Z
  /\ snd (step0 Runs.mayo_defaults (Fin (ofZ 7)) (Fin (ofZ 2)) (Fin 0%Qc)) = NaN.
Proof.
  split; [reflexivity|]. split; [reflexivity|].
  rewrite (@neo_mayo_start_is_nan Runs.mayo_defaults (Fin (ofZ 7)) (Fin (ofZ 2))
             eq_refl eq_refl).
  reflexivity.
Defined.

End NeoMayoStart.

Section NeoMayoLoop.
Import Np Mustard NeoMayoRun.
Context {torch : Type} (opt : lbfgs torch) (o : options).
Context (regul : frame -> fval) (regul2 : frame -> frame -> fval).

Local Abbreviation nm_step := (NeoMayoRun.step opt).
Local Abbreviation nm_adjust := (NeoMayoRun.adjust opt o regul regul2).
Local Abbreviation nm_activation := (NeoMayoRun.activation opt o regul regul2).
Local Abbreviation nm_iteration := (NeoMayoRun.iteration opt o regul regul2).
Local Abbreviation nm_minimize := (NeoMayoRun.minimize opt o regul regul2).

Lemma nm_step_refs (st : state torch) :
  nm_final_estim (nm_step st) = nm_final_estim st
  /\ nm_last_iter (nm_step st) = nm_last_iter st.
Proof.
  unfold NeoMayoRun.step. destruct (advance opt _ _ _) as [t out]. split; reflexivity.
Qed.

Lemma nm_report_refs (st st' : state torch) : report st = Ok st' -> st' = st.
Proof.
  unfold report. destruct (nm_loss st) as [q|]; [destruct (eqb q 0%Qc)|];
    intro H; try discriminate; injection H as <-; reflexivity.
Qed.

Lemma nm_adjust_refs (st st' : state torch) :
  nm_adjust st = Ok st' ->
  nm_final_estim st' = nm_final_estim st /\ nm_last_iter st' = nm_last_iter st.
Proof.
  unfold adjust. intro H. apply nm_report_refs in H. subst st'.
  destruct (w_pcent o); split; reflexivity.
Qed.

Lemma nm_activation_refs (st st' : state torch) :
  nm_activation st = Ok st' ->
  nm_final_estim st' = nm_final_estim st /\ nm_last_iter st' = nm_last_iter st.
Proof.
  unfold NeoMayoRun.activation. destruct (nm_adjust st) as [s1|e] eqn:A; cbn [bind];
    [|discriminate].
  intro H. destruct (@nm_adjust_refs st s1 A) as [F1 L1].
  destruct (@nm_adjust_refs (nm_step s1) st' H) as [F2 L2].
  destruct (nm_step_refs s1) as [F3 L3].
  split; congruence.
Qed.

(** A pass through the body leaves [last_iter] on the variables themselves,
    and [final_estim] on them too if it stores anything. *)
Lemma nm_iteration_refs (k : Z) (st st' : state torch) (stop : bool) :
  nm_iteration k st = Ok (st', stop) ->
  aliased st -> ((1 < k)%Z -> nm_last_iter st = Live) ->
  aliased st' /\ nm_last_iter st' = Live.
Proof.
  unfold NeoMayoRun.iteration. intros H Ha Hl.
  set (st0 := set_nm_k k st) in H.
  assert (R0 : nm_final_estim st0 = nm_final_estim st /\ nm_last_iter st0 = nm_last_iter st)
    by (split; reflexivity).
  destruct (if negb (kactiv0 o =? 0)%Z && (k =? kactiv0 o)%Z
            then nm_activation (set_nm_mink (k + 2)%Z (set_nm_Ractiv true st0))
            else Ok st0) as [s1|e] eqn:E1; cbn [bind] in H; [|discriminate].
  assert (R1 : nm_final_estim s1 = nm_final_estim st /\ nm_last_iter s1 = nm_last_iter st).
  { destruct (negb (kactiv0 o =? 0)%Z && (k =? kactiv0 o)%Z).
    - apply nm_activation_refs in E1. exact E1.
    - injection E1 as <-. exact R0. }
  clear E1.
  set (s2 := match kdactiv o with
             | Some kd => if negb (kd =? 0)%Z && (k =? kd)%Z
                          then set_nm_Ractiv false s1 else s1
             | None => s1
             end) in H.
  assert (R2 : nm_final_estim s2 = nm_final_estim st /\ nm_last_iter s2 = nm_last_iter st).
  { unfold s2. destruct (kdactiv o) as [kd|];
      [destruct (negb (kd =? 0)%Z && (k =? kd)%Z)|]; exact R1. }
  set (s3 := nm_step s2) in H.
  assert (R3 : nm_final_estim s3 = nm_final_estim st /\ nm_last_iter s3 = nm_last_iter st).
  { unfold s3. destruct (nm_step_refs s2) as [A B]. destruct R2 as [C D].
    split; congruence. }
  set (s4 := if (1 <? k)%Z && fgt (nm_loss s3) (last (nm_loss_evo s3) NaN)
             then set_nm_final_estim (Some (nm_last_iter s3)) s3 else s3) in H.
  assert (R4 : aliased s4).
  { unfold s4, aliased. destruct (Z.ltb_spec 1 k) as [K|K]; cbn [andb].
    - destruct (fgt _ _); cbn [nm_final_estim set_nm_final_estim].
      + right. rewrite (proj2 R3), (Hl K). reflexivity.
      + rewrite (proj1 R3). exact Ha.
    - rewrite (proj1 R3). exact Ha. }
  set (s6 := if (k =? 1)%Z
             then set_nm_first_iter (Some Live)
                    (set_nm_last_iter Live
                       (set_nm_loss_evo (nm_loss_evo s4 ++ [nm_loss s4]) s4))
             else set_nm_last_iter Live
                    (set_nm_loss_evo (nm_loss_evo s4 ++ [nm_loss s4]) s4)) in H.
  assert (R6 : aliased s6 /\ nm_last_iter s6 = Live).
  { unfold s6, aliased. destruct (k =? 1)%Z;
      cbn [nm_final_estim nm_last_iter set_nm_first_iter set_nm_last_iter set_nm_loss_evo];
      split; [exact R4|reflexivity|exact R4|reflexivity]. }
  destruct (report s6) as [s7|e] eqn:E7; cbn [bind] in H; [|discriminate].
  apply nm_report_refs in E7. subst s7.
  destruct ((nm_mink s6 <? k)%Z && flt (nm_gradL s6) (Fin (gtol o))
            && flt (nm_gradX s6) (Fin (gtol o))).
  - destruct (negb (nm_Ractiv s6) && negb (kactiv0 o =? 0)%Z).
    + destruct (nm_activation (set_nm_mink (k + 2)%Z (set_nm_Ractiv true s6)))
        as [s8|e] eqn:E8; cbn [bind] in H; [|discriminate].
      injection H as <- _. apply nm_activation_refs in E8.
      cbn [nm_final_estim nm_last_iter set_nm_mink set_nm_Ractiv] in E8.
      destruct E8 as [F8 L8]. destruct R6 as [A6 L6]. unfold aliased in *.
      rewrite F8, L8. split; assumption.
    + injection H as <- _. exact R6.
  - injection H as <- _. exact R6.
Qed.

Lemma nm_minimize_refs (ks : list Z) (st st' : state torch) :
  nm_minimize ks st = Ok st' ->
  aliased st -> nm_last_iter st = Live -> aliased st'.
Proof.
  revert st. induction ks as [|k ks IH]; intros st H Ha Hl; cbn [NeoMayoRun.minimize] in H.
  - injection H as <-. exact Ha.
  - destruct (nm_iteration k st) as [[s1 stop]|e] eqn:E; cbn [bind] in H; [|discriminate].
    destruct (@nm_iteration_refs k st s1 stop E Ha (fun _ => Hl)) as [A1 L1].
    destruct stop.
    + injection H as <-. exact A1.
    + exact (IH s1 H A1 L1).
Qed.

Lemma final_choice_aliased (coro : frame) (st : state torch) :
  aliased st ->
  final_choice coro st
  = (fmap abs (Lk (nm_vars st)), fmap abs (fmul_frame coro (Xk (nm_vars st)))).
Proof.
  unfold final_choice, aliased. intros [E|E]; rewrite E.
  - reflexivity.
  - destruct (_ && _); reflexivity.
Qed.

(** X24.  On an estimator whose [final_estim] is unset, whatever the loop
    stored as a checkpoint, [mayo_estimator.estimate] answers the variables
    as the loop left them: the tuples it stores are the variables
    themselves, not copies. *)
Theorem neo_mayo_checkpoint_is_aliased (coro : frame) (n : Z) (st st' : state torch) :
  nm_final_estim st = None ->
  nm_minimize (range1 n) st = Ok st' ->
  final_choice coro st'
  = (fmap abs (Lk (nm_vars st')), fmap abs (fmul_frame coro (Xk (nm_vars st')))).
Proof.
  intros Hf H. apply final_choice_aliased.
  unfold range1 in H. destruct (Z.to_nat n) as [|m].
  - cbn in H. injection H as <-. left. exact Hf.
  - cbn [seq map NeoMayoRun.minimize] in H.
    change (Z.of_nat 1) with 1%Z in H.
    destruct (nm_iteration 1 st) as [[s1 stop]|e] eqn:E; cbn [bind] in H; [|discriminate].
    assert (A : aliased st) by (left; exact Hf).
    destruct (@nm_iteration_refs 1%Z st s1 stop E A) as [A1 L1]; [lia|].
    destruct stop.
    + injection H as <-. exact A1.
    + exact (@nm_minimize_refs _ s1 st' H A1 L1).
Qed.

End NeoMayoLoop.

Section NeoMayoRuns.
Import Np Mustard NeoMayoRun Runs.

Lemma neo_mayo_checkpoint_is_aliased_witness :
  exists st' : state (list step_out),
    nm_final_estim mayo_start = None
    /\ NeoMayoRun.minimize played mayo_defaults (fun _ => Fin 1%Qc) (fun _ _ => Fin 1%Qc)
         (range1 2) mayo_start = Ok st'
    /\ nm_final_estim st' = Some Live
    /\ final_choice Scenario.ones22 st'
       = (fmap abs (Lk (nm_vars st')),
          fmap abs (fmul_frame Scenario.ones22 (Xk (nm_vars st')))).
Proof.
  assert (M : exists st',
             NeoMayoRun.minimize played mayo_defaults (fun _ => Fin 1%Qc)
               (fun _ _ => Fin 1%Qc) (range1 2) mayo_start = Ok st'
             /\ nm_final_estim st' = Some Live).
  { eexists. split; vm_compute; reflexivity. }
  destruct M as [st' [M F]]. exists st'.
  split; [reflexivity|]. split; [exact M|]. split; [exact F|].
  exact (@neo_mayo_checkpoint_is_aliased _ played mayo_defaults (fun _ => Fin 1%Qc)
           (fun _ _ => Fin 1%Qc) Scenario.ones22 2 mayo_start st' eq_refl M).
Defined.

End NeoMayoRuns.
